(** * Session and streaming management of the Perplexity chat extension

    A shallow embedding of [ChatManager] (the session store and the
    send-message protocol) together with the part of [PerplexityClient]
    it consumes.  JavaScript objects are shared by reference, so session
    objects, message arrays and message objects live in three heaps
    addressed by location; the [Map] of sessions is an association list
    in insertion order, which is the order [Map.prototype.values]
    iterates in. *)

From Stdlib Require Import ZArith Ascii String Lia Sorted.
From Stdlib Require Import DecimalString QArith Qminmax.
From stdpp Require Import base strings option list.

Local Open Scope Z_scope.
Local Open Scope nat_scope.

(** ** Strings

    A JavaScript string is a sequence of UTF-16 code units.  The model
    uses Rocq strings and reads each character as the code unit with the
    same number, so it covers the code units below 256. *)

(** The characters matched by [\s] and removed by [String.prototype.trim]:
    TAB, LF, VT, FF, CR, SPACE and NO-BREAK SPACE. *)
Definition is_space (c : ascii) : bool :=
  let n := nat_of_ascii c in
  (n =? 9) || (n =? 10) || (n =? 11) || (n =? 12) || (n =? 13)
  || (n =? 32) || (n =? 160).

Definition starts_with_space (s : string) : bool :=
  match s with
  | EmptyString => false
  | String c _ => is_space c
  end.

Fixpoint trimStart (s : string) : string :=
  match s with
  | EmptyString => EmptyString
  | String c s' => if is_space c then trimStart s' else s
  end.

Fixpoint trimEnd (s : string) : string :=
  match s with
  | EmptyString => EmptyString
  | String c s' =>
      match trimEnd s' with
      | EmptyString => if is_space c then EmptyString else String c EmptyString
      | t => String c t
      end
  end.

(** [s.trim()] *)
Definition trim (s : string) : string := trimEnd (trimStart s).

(** [s.split(/\s+/)]: the pieces between the maximal runs of white
    space.  A run at either end leaves an empty piece there, and the
    empty string splits into one empty piece. *)
Fixpoint split_ws (s : string) : list string :=
  match s with
  | EmptyString => [EmptyString]
  | String c s' =>
      if is_space c then
        if starts_with_space s' then split_ws s' else EmptyString :: split_ws s'
      else
        match split_ws s' with
        | w :: ws => String c w :: ws
        | [] => [String c EmptyString]
        end
  end.

(** [words.join(sep)] *)
Definition join (sep : string) (words : list string) : string :=
  String.concat sep words.

(** [ChatManager.generateSessionTitle] *)
Definition generateSessionTitle (firstMessage : string) : string :=
  let words := split_ws (trim firstMessage) in
  if (length words <=? 5)%nat then firstMessage
  else join " " (take 5 words) +:+ "...".

(** The white-space separated words of a message, as the specification
    counts them: the maximal runs of characters that are not white
    space. *)
Fixpoint words_of (s : string) : list string :=
  match s with
  | EmptyString => []
  | String c s' =>
      if is_space c then words_of s'
      else if starts_with_space s' then String c EmptyString :: words_of s'
      else
        match words_of s' with
        | w :: ws => String c w :: ws
        | [] => [String c EmptyString]
        end
  end.

(** The title the specification prescribes for a first user message. *)
Definition spec_title (message : string) : string :=
  if (5 <? length (words_of message))%nat
  then join " " (take 5 (words_of message)) +:+ "..."
  else message.

(** ** Sets of strings

    [Array.from(new Set(xs))]: a [Set] keeps its elements in the order in
    which they were first added. *)
Definition Set_add (acc : list string) (x : string) : list string :=
  if bool_decide (x ∈ acc) then acc else acc ++ [x].

Definition Set_from (xs : list string) : list string :=
  foldl Set_add [] xs.

(** The first occurrences of the elements of a list, in order. *)
Fixpoint first_occurrences (xs : list string) : list string :=
  match xs with
  | [] => []
  | x :: xs' => x :: filter (λ y, y ≠ x) (first_occurrences xs')
  end.

(** ** Data model *)

Inductive SearchMode : Type :=
  general | debug | explain | optimize | test | research.

Inductive Role : Type := user | assistant | system.

Global Instance SearchMode_eq_dec : EqDecision SearchMode.
Proof. solve_decision. Defined.

Global Instance Role_eq_dec : EqDecision Role.
Proof. solve_decision. Defined.

(** A [Date] is its time value, the milliseconds since the epoch.  The
    invalid date is not modelled: [new Date()] never produces it. *)
Definition Date : Type := Z.

(** Locations of heap objects. *)
Abbreviation loc := nat (only parsing).

Module ChatMessage.
(** [citations], [mode] and [streaming] are optional properties:
    [None] is [undefined]. *)
Record t : Type := Build {
  id : string;
  role : Role;
  content : string;
  timestamp : Date;
  citations : option (list string);
  mode : option SearchMode;
  streaming : option bool
}.

Definition set_content (c : string) (m : t) : t :=
  Build (id m) (role m) c (timestamp m) (citations m) (mode m) (streaming m).
Definition set_citations (c : option (list string)) (m : t) : t :=
  Build (id m) (role m) (content m) (timestamp m) c (mode m) (streaming m).
Definition set_streaming (b : bool) (m : t) : t :=
  Build (id m) (role m) (content m) (timestamp m) (citations m) (mode m)
        (Some b).

(** The truth value of [m.streaming]. *)
Definition is_streaming (m : t) : bool :=
  match streaming m with Some true => true | _ => false end.
End ChatMessage.

Module ChatSession.
(** A session object.  [messages] refers to an array of message
    objects; the array is an object of its own. *)
Record t : Type := Build {
  id : string;
  title : string;
  messages : loc;
  createdAt : Date;
  updatedAt : Date;
  mode : SearchMode
}.

Definition set_title (x : string) (s : t) : t :=
  Build (id s) x (messages s) (createdAt s) (updatedAt s) (mode s).
Definition set_messages (a : loc) (s : t) : t :=
  Build (id s) (title s) a (createdAt s) (updatedAt s) (mode s).
Definition set_updatedAt (d : Date) (s : t) : t :=
  Build (id s) (title s) (messages s) (createdAt s) d (mode s).
Definition set_mode (m : SearchMode) (s : t) : t :=
  Build (id s) (title s) (messages s) (createdAt s) (updatedAt s) m.
End ChatSession.

(** What a reader sees when it follows a session reference down to the
    messages: the value of the session at one moment. *)
Module Snapshot.
Record t : Type := Build {
  id : string;
  title : string;
  messages : list ChatMessage.t;
  createdAt : Date;
  updatedAt : Date;
  mode : SearchMode
}.
End Snapshot.

(** [PerplexityMessage] *)
Record PerplexityMessage : Type := {
  pm_role : Role;
  pm_content : string
}.

(** The part of a streamed [PerplexityResponse] that [sendMessage]
    reads: [choices[0].delta.content] and [citations].  Every link of
    that chain may be missing. *)
Record Delta : Type := { delta_content : option string }.
Record Choice : Type := { delta : option Delta }.
Record Chunk : Type := {
  choices : option (list Choice);
  chunk_citations : option (list string)
}.

(** A thrown value: an [Error] with its message, or anything else. *)
Inductive Thrown : Type :=
  | ErrorObj (message : string)
  | NonError.

(** One finite run of the asynchronous generator
    [streamChatCompletion]: the chunks it yields, then either its return
    (the [data: [DONE]] frame or the end of the body) or the error it
    throws. *)
Inductive Stream : Type :=
  | Yield (chunk : Chunk) (rest : Stream)
  | Done
  | Raise (error : Thrown).

(** ** The persisted blob

    The value stored under ['perplexityChat.sessions'] is the JSON image
    of an array of sessions.  [loadSessions] reads it as [any[]], so every
    property may be missing ([None]); a date is stored as its ISO-8601
    string, represented here by the time value that string denotes. *)
Record MessageData : Type := {
  md_id : option string;
  md_role : option Role;
  md_content : option string;
  md_timestamp : option Date;
  md_citations : option (list string);
  md_mode : option SearchMode;
  md_streaming : option bool
}.

Record SessionData : Type := {
  sd_id : option string;
  sd_title : option string;
  sd_messages : option (list MessageData);
  sd_createdAt : option Date;
  sd_updatedAt : option Date;
  sd_mode : option SearchMode
}.

(** Truthiness of an optional string property. *)
Definition truthy (s : option string) : bool :=
  match s with
  | Some (String _ _) => true
  | _ => false
  end.

(** [s || dflt] for an optional string. *)
Definition or_default (s : option string) (dflt : string) : string :=
  match s with
  | Some (String c r) => String c r
  | _ => dflt
  end.

(** ** The world: heaps, the manager's fields, and its collaborators *)

Record World : Type := mkWorld {
  objs : list ChatSession.t;          (* heap of session objects *)
  arrs : list (list loc);             (* heap of message arrays *)
  msgs : list ChatMessage.t;          (* heap of message objects *)
  sessions : list (string * loc);     (* this.sessions, insertion order *)
  currentSessionId : option string;   (* this.currentSessionId *)
  globalState : option (list SessionData);
                                      (* context.globalState, one key *)
  fired : list (option loc);          (* arguments of eventEmitter.fire *)
  uuid_count : nat;                   (* calls of uuidv4 so far *)
  clock_count : nat                   (* calls of new Date() so far *)
}.

Definition with_objs (x : list ChatSession.t) (w : World) : World :=
  mkWorld x (arrs w) (msgs w) (sessions w) (currentSessionId w)
          (globalState w) (fired w) (uuid_count w) (clock_count w).
Definition with_arrs (x : list (list loc)) (w : World) : World :=
  mkWorld (objs w) x (msgs w) (sessions w) (currentSessionId w)
          (globalState w) (fired w) (uuid_count w) (clock_count w).
Definition with_msgs (x : list ChatMessage.t) (w : World) : World :=
  mkWorld (objs w) (arrs w) x (sessions w) (currentSessionId w)
          (globalState w) (fired w) (uuid_count w) (clock_count w).
Definition with_sessions (x : list (string * loc)) (w : World) : World :=
  mkWorld (objs w) (arrs w) (msgs w) x (currentSessionId w)
          (globalState w) (fired w) (uuid_count w) (clock_count w).
Definition with_current (x : option string) (w : World) : World :=
  mkWorld (objs w) (arrs w) (msgs w) (sessions w) x
          (globalState w) (fired w) (uuid_count w) (clock_count w).
Definition with_globalState (x : option (list SessionData)) (w : World)
  : World :=
  mkWorld (objs w) (arrs w) (msgs w) (sessions w) (currentSessionId w)
          x (fired w) (uuid_count w) (clock_count w).
Definition with_fired (x : list (option loc)) (w : World) : World :=
  mkWorld (objs w) (arrs w) (msgs w) (sessions w) (currentSessionId w)
          (globalState w) x (uuid_count w) (clock_count w).
Definition with_uuid_count (x : nat) (w : World) : World :=
  mkWorld (objs w) (arrs w) (msgs w) (sessions w) (currentSessionId w)
          (globalState w) (fired w) x (clock_count w).
Definition with_clock_count (x : nat) (w : World) : World :=
  mkWorld (objs w) (arrs w) (msgs w) (sessions w) (currentSessionId w)
          (globalState w) (fired w) (uuid_count w) x.

(** The world of a fresh [ChatManager] before its constructor loads the
    sessions. *)
Definition initial (blob : option (list SessionData)) : World :=
  mkWorld [] [] [] [] None blob [] 0 0.

(** ** JavaScript [Map] from session id to session object *)

Fixpoint map_get (k : string) (m : list (string * loc)) : option loc :=
  match m with
  | [] => None
  | (k', v) :: m' => if decide (k = k') then Some v else map_get k m'
  end.

Definition map_has (k : string) (m : list (string * loc)) : bool :=
  match map_get k m with Some _ => true | None => false end.

(** [m.set(k, v)]: a key that is present keeps its place. *)
Fixpoint map_set (k : string) (v : loc) (m : list (string * loc))
  : list (string * loc) :=
  match m with
  | [] => [(k, v)]
  | (k', v') :: m' =>
      if decide (k = k') then (k, v) :: m' else (k', v') :: map_set k v m'
  end.

Definition map_delete (k : string) (m : list (string * loc))
  : list (string * loc) :=
  filter (λ e, e.1 ≠ k) m.

Definition map_values (m : list (string * loc)) : list loc := m.*2.

(** ** Reading the heaps *)

(** The message objects an array refers to. *)
Definition deref_all (w : World) (a : list loc) : list ChatMessage.t :=
  omap (λ m, msgs w !! m) a.

(** The array [session.messages]. *)
Definition messages_of (w : World) (session : loc) : list loc :=
  default [] (o ← objs w !! session; arrs w !! ChatSession.messages o).

Definition id_of (w : World) (m : loc) : option string :=
  ChatMessage.id <$> msgs w !! m.

(** The value of a session as a reader sees it through reference
    [session]. *)
Definition snapshot (w : World) (session : loc) : option Snapshot.t :=
  o ← objs w !! session;
  a ← arrs w !! ChatSession.messages o;
  ms ← mapM (λ m, msgs w !! m) a;
  Some (Snapshot.Build (ChatSession.id o) (ChatSession.title o) ms
          (ChatSession.createdAt o) (ChatSession.updatedAt o)
          (ChatSession.mode o)).

(** The manager's internal session state: each key of the map with the
    value of its session. *)
Definition store (w : World) : list (string * option Snapshot.t) :=
  (λ e, (e.1, snapshot w e.2)) <$> sessions w.

(** ** Computations: state passing with JavaScript exceptions *)

Inductive Result (A : Type) : Type :=
  | Ok (a : A)
  | Throw (e : Thrown).
Arguments Ok {A} a.
Arguments Throw {A} e.

Definition M (A : Type) : Type := World → Result A * World.

Definition ret {A} (a : A) : M A := λ w, (Ok a, w).

Definition bind {A B} (m : M A) (k : A → M B) : M B :=
  λ w, match m w with
       | (Ok a, w') => k a w'
       | (Throw e, w') => (Throw e, w')
       end.

Definition throw {A} (e : Thrown) : M A := λ w, (Throw e, w).

(** [try { body } catch (e) { handler }]: the handler runs in the world
    the body left behind. *)
Definition try_catch {A} (body : M A) (handler : Thrown → M A) : M A :=
  λ w, match body w with
       | (Ok a, w') => (Ok a, w')
       | (Throw e, w') => handler e w'
       end.

Definition gets {A} (f : World → A) : M A := λ w, (Ok (f w), w).
Definition modify (f : World → World) : M unit := λ w, (Ok tt, f w).

Notation "x <- c1 ;; c2" := (bind c1 (λ x, c2))
  (at level 100, c1 at next level, right associativity).
Notation "c1 ;; c2" := (bind c1 (λ _, c2))
  (at level 100, right associativity).

(** Allocation: a new object gets the next free location. *)
Definition alloc_obj (o : ChatSession.t) : M loc :=
  λ w, (Ok (length (objs w)), with_objs (objs w ++ [o]) w).
Definition alloc_arr (a : list loc) : M loc :=
  λ w, (Ok (length (arrs w)), with_arrs (arrs w ++ [a]) w).
Definition alloc_msg (m : ChatMessage.t) : M loc :=
  λ w, (Ok (length (msgs w)), with_msgs (msgs w ++ [m]) w).

(** Assignment to properties of a session or message object. *)
Definition update_obj (session : loc) (f : ChatSession.t → ChatSession.t)
  : M unit :=
  modify (λ w, with_objs (alter f session (objs w)) w).
Definition update_msg (m : loc) (f : ChatMessage.t → ChatMessage.t)
  : M unit :=
  modify (λ w, with_msgs (alter f m (msgs w)) w).

(** [session.messages.push(m)]: the array is changed in place. *)
Definition push_message (session m : loc) : M unit :=
  modify (λ w,
    match objs w !! session with
    | Some o =>
        with_arrs (alter (λ a, a ++ [m]) (ChatSession.messages o) (arrs w)) w
    | None => w
    end).

(** [this.eventEmitter.fire(x)] *)
Definition fire (x : option loc) : M unit :=
  modify (λ w, with_fired (fired w ++ [x]) w).

(** ** Sorting

    [Array.prototype.sort] is stable; with the comparator
    [b.updatedAt.getTime() - a.updatedAt.getTime()] it puts later dates
    first and keeps the order of equal ones. *)
Fixpoint insert_desc (key : loc → Z) (x : loc) (l : list loc) : list loc :=
  match l with
  | [] => [x]
  | y :: l' =>
      if (key x <? key y)%Z then y :: insert_desc key x l' else x :: y :: l'
  end.

Definition sort_desc (key : loc → Z) (l : list loc) : list loc :=
  foldr (insert_desc key) [] l.

Definition updatedAt_of (w : World) (session : loc) : Z :=
  default 0%Z (ChatSession.updatedAt <$> objs w !! session).

(** [ChatManager.getAllSessions] *)
Definition getAllSessions (w : World) : list loc :=
  sort_desc (updatedAt_of w) (map_values (sessions w)).

(** [ChatManager.getSystemMessage] *)
Definition getSystemMessage (mode : SearchMode) : option string :=
  match mode with
  | general => Some "You are a helpful AI assistant. Provide accurate, concise, and well-structured responses."
  | debug => Some "You are an expert code debugger. Help identify issues, explain problems clearly, and suggest specific fixes."
  | explain => Some "You are a code explanation expert. Break down code into understandable parts and explain concepts clearly."
  | optimize => Some "You are a code optimization expert. Focus on performance improvements, best practices, and cleaner code structure."
  | test => Some "You are a testing expert. Generate comprehensive, well-structured unit tests with good coverage."
  | research => Some "You are a research assistant. Provide thorough, well-cited information with reliable sources."
  end.

(** [ChatManager.prepareMessagesForAPI] *)
Definition prepareMessagesForAPI (w : World) (messages : list loc)
    (mode : SearchMode) : list PerplexityMessage :=
  (λ m, {| pm_role := ChatMessage.role m;
           pm_content := ChatMessage.content m |})
  <$> filter (λ m, ChatMessage.is_streaming m = false
                   ∧ trim (ChatMessage.content m) ≠ EmptyString)
        (deref_all w messages).

(** ** Persistence *)

(** The JSON image of a message; [undefined] properties are left out. *)
Definition json_of_message (m : ChatMessage.t) : MessageData :=
  {| md_id := Some (ChatMessage.id m);
     md_role := Some (ChatMessage.role m);
     md_content := Some (ChatMessage.content m);
     md_timestamp := Some (ChatMessage.timestamp m);
     md_citations := ChatMessage.citations m;
     md_mode := ChatMessage.mode m;
     md_streaming := ChatMessage.streaming m |}.

(** One round of the loop of [saveSessions] over [this.sessions.entries()]:
    the entry is skipped when the session or the key is falsy or the
    messages are not an array. *)
Definition save_entry (w : World) (e : string * loc) : list SessionData :=
  match objs w !! e.2 with
  | None => []
  | Some session =>
      if decide (e.1 = EmptyString) then []
      else
        match arrs w !! ChatSession.messages session with
        | None => []
        | Some a =>
            let validMessages := deref_all w a in
            [ {| sd_id := Some (ChatSession.id session);
                 sd_title :=
                   Some (or_default (Some (ChatSession.title session))
                           "Untitled");
                 sd_messages := Some (json_of_message <$> validMessages);
                 sd_createdAt := Some (ChatSession.createdAt session);
                 sd_updatedAt := Some (ChatSession.updatedAt session);
                 sd_mode := Some (ChatSession.mode session) |} ]
        end
  end.

(** [ChatManager.saveSessions]; the update of the key-value store is
    taken to succeed. *)
Definition saveSessions : M unit :=
  modify (λ w,
    with_globalState (Some (flat_map (save_entry w) (sessions w))) w).

(** ** The operations of [ChatManager] *)

Section Manager.

(** The collaborators that produce fresh values: the [n]-th call of
    [uuidv4()] and the [n]-th call of [new Date()]. *)
Variable uuid_src : nat → string.
Variable clock : nat → Date.

Definition uuidv4 : M string :=
  λ w, (Ok (uuid_src (uuid_count w)),
        with_uuid_count (S (uuid_count w)) w).

Definition new_Date : M Date :=
  λ w, (Ok (clock (clock_count w)),
        with_clock_count (S (clock_count w)) w).

(** [x ? new Date(x) : new Date()] *)
Definition date_or_now (x : option Date) : M Date :=
  match x with
  | Some t => ret t
  | None => new_Date
  end.

(** [ChatManager.createNewSession] *)
Definition createNewSession (title : option string) (mode : SearchMode)
  : M string :=
  sessionId <- uuidv4 ;;
  messages <- alloc_arr [] ;;
  createdAt <- new_Date ;;
  updatedAt <- new_Date ;;
  session <- alloc_obj
    (ChatSession.Build sessionId (or_default title "New Chat") messages
       createdAt updatedAt mode) ;;
  let systemMessage := getSystemMessage mode in
  (if truthy systemMessage then
     id <- uuidv4 ;;
     timestamp <- new_Date ;;
     m <- alloc_msg
       (ChatMessage.Build id system (or_default systemMessage EmptyString)
          timestamp None None None) ;;
     push_message session m
   else ret tt) ;;
  modify (λ w, with_sessions (map_set sessionId session (sessions w)) w) ;;
  modify (with_current (Some sessionId)) ;;
  saveSessions ;;
  fire (Some session) ;;
  ret sessionId.

(** [session ? { ...session } : null]: a new object with the same
    property values, so the same array of messages. *)
Definition spread (session : loc) : M (option loc) :=
  o <- gets (λ w, objs w !! session) ;;
  match o with
  | Some v => c <- alloc_obj v ;; ret (Some c)
  | None => ret None
  end.

(** [ChatManager.getSession] *)
Definition getSession (sessionId : string) : M (option loc) :=
  session <- gets (λ w, map_get sessionId (sessions w)) ;;
  match session with
  | Some s => spread s
  | None => ret None
  end.

(** [ChatManager.getCurrentSession] *)
Definition getCurrentSession : M (option loc) :=
  current <- gets currentSessionId ;;
  if truthy current then getSession (or_default current EmptyString)
  else ret None.

(** [ChatManager.switchToSession] *)
Definition switchToSession (sessionId : string) : M unit :=
  if decide (sessionId = EmptyString) then
    throw (ErrorObj "Session ID must be a non-empty string")
  else
    session <- gets (λ w, s ← map_get sessionId (sessions w); objs w !! s) ;;
    match session with
    | None => throw (ErrorObj ("Session not found: " +:+ sessionId))
    | Some session =>
        id <- (if truthy (Some (ChatSession.id session))
               then ret (ChatSession.id session) else uuidv4) ;;
        validSession <- alloc_obj
          (ChatSession.Build id
             (or_default (Some (ChatSession.title session)) "Untitled")
             (ChatSession.messages session)
             (ChatSession.createdAt session)
             (ChatSession.updatedAt session)
             (ChatSession.mode session)) ;;
        modify (with_current (Some id)) ;;
        fire (Some validSession)
    end.

(** [ChatManager.deleteSession] *)
Definition deleteSession (sessionId : string) : M unit :=
  has <- gets (λ w, map_has sessionId (sessions w)) ;;
  if bool_decide (sessionId = EmptyString) || negb has then ret tt
  else
    sessionToDelete <-
      gets (λ w, s ← map_get sessionId (sessions w); objs w !! s) ;;
    match sessionToDelete with
    | None => ret tt
    | Some _ =>
        modify (λ w, with_sessions (map_delete sessionId (sessions w)) w) ;;
        current <- gets currentSessionId ;;
        (if decide (current = Some sessionId) then
           first <- gets (λ w, head (getAllSessions w) ≫= (objs w !!.)) ;;
           modify (with_current (ChatSession.id <$> first))
         else ret tt) ;;
        saveSessions ;;
        currentSession <- getCurrentSession ;;
        match currentSession with
        | Some c => c' <- spread c ;; fire c'
        | None => fire None
        end
    end.

(** [ChatManager.clearAllSessions] *)
Definition clearAllSessions : M unit :=
  modify (with_sessions []) ;;
  modify (with_current None) ;;
  saveSessions ;;
  fire None.

(** *** Loading *)

(** The guard [msg && msg.id && msg.role && msg.content] of
    [loadSessions], giving the three properties when it passes. *)
Definition loadable (md : MessageData) : option (string * Role * string) :=
  if truthy (md_id md) && truthy (md_content md) then
    r ← md_role md;
    Some (or_default (md_id md) EmptyString, r,
          or_default (md_content md) EmptyString)
  else None.

(** The [filter] and [map] over [sessionData.messages]: one new message
    object for each stored message that passes the guard. *)
Fixpoint load_messages (mds : list MessageData) : M (list loc) :=
  match mds with
  | [] => ret []
  | md :: rest =>
      match loadable md with
      | Some (id, role, content) =>
          timestamp <- date_or_now (md_timestamp md) ;;
          m <- alloc_msg
            (ChatMessage.Build id role content timestamp
               (Some (default [] (md_citations md)))
               (Some (default general (md_mode md)))
               (Some (default false (md_streaming md)))) ;;
          ms <- load_messages rest ;;
          ret (m :: ms)
      | None => load_messages rest
      end
  end.

(** One round of the loop of [loadSessions] over the stored array. *)
Definition load_session (sd : SessionData) : M unit :=
  if truthy (sd_id sd) then
    ms <- match sd_messages sd with
          | Some mds => load_messages mds
          | None => ret []
          end ;;
    messages <- alloc_arr ms ;;
    createdAt <- date_or_now (sd_createdAt sd) ;;
    updatedAt <- date_or_now (sd_updatedAt sd) ;;
    let id := or_default (sd_id sd) EmptyString in
    session <- alloc_obj
      (ChatSession.Build id (or_default (sd_title sd) "Untitled") messages
         createdAt updatedAt (default general (sd_mode sd))) ;;
    modify (λ w, with_sessions (map_set id session (sessions w)) w)
  else ret tt.

Fixpoint load_all (sds : list SessionData) : M unit :=
  match sds with
  | [] => ret tt
  | sd :: rest => load_session sd ;; load_all rest
  end.

(** [ChatManager.loadSessions] *)
Definition loadSessions : M unit :=
  sessionsData <- gets (λ w, default [] (globalState w)) ;;
  modify (with_sessions []) ;;
  load_all sessionsData ;;
  first <- gets (λ w, head (getAllSessions w) ≫= (objs w !!.)) ;;
  match first with
  | Some s => modify (with_current (Some (ChatSession.id s)))
  | None => ret tt
  end.

(** The constructor of [ChatManager], started on the stored blob. *)
Definition construct (blob : option (list SessionData)) : World :=
  (loadSessions (initial blob)).2.

(** *** Sending a message *)

(** [chunk.choices && chunk.choices[0]] and then [delta?.content],
    when it is truthy. *)
Definition chunk_content (chunk : Chunk) : option string :=
  match choices chunk with
  | Some (c :: _) =>
      match delta c ≫= delta_content with
      | Some (String a s) => Some (String a s)
      | _ => None
      end
  | _ => None
  end.

(** The [for await] loop of [sendMessage] over the chunks of the
    stream, with its local variables [fullContent] and [citations]. *)
Fixpoint stream_loop (session assistantMessage : loc) (stream : Stream)
    (fullContent : string) (citations : list string)
  : M (string * list string) :=
  match stream with
  | Done => ret (fullContent, citations)
  | Raise error => throw error
  | Yield chunk rest =>
      fullContent' <-
        match chunk_content chunk with
        | Some c =>
            let fullContent' := fullContent +:+ c in
            update_msg assistantMessage
              (ChatMessage.set_content fullContent') ;;
            update_msg assistantMessage (ChatMessage.set_streaming true) ;;
            fire (Some session) ;;
            ret fullContent'
        | None => ret fullContent
        end ;;
      let citations' :=
        match chunk_citations chunk with
        | Some cs => citations ++ cs
        | None => citations
        end in
      stream_loop session assistantMessage rest fullContent' citations'
  end.

(** The first statement of [sendMessage]: without a current session
    one is created. *)
Definition ensure_session (mode : SearchMode) : M unit :=
  current <- gets currentSessionId ;;
  if truthy current then ret tt
  else createNewSession (Some "New Chat") mode ;; ret tt.

(** From the lookup of the session to the [fire] before the loop: the
    user message and the placeholder are pushed.  The result is the
    session, the placeholder and the messages for the API. *)
Definition sendMessage_push (content : string) (mode : SearchMode)
  : M (loc * loc * list PerplexityMessage) :=
  session <- gets (λ w,
    k ← currentSessionId w; s ← map_get k (sessions w);
    _ ← objs w !! s; Some s) ;;
  match session with
  | None => throw (ErrorObj "No active session found")
  | Some session =>
      id <- uuidv4 ;;
      timestamp <- new_Date ;;
      userMessage <- alloc_msg
        (ChatMessage.Build id user content timestamp None (Some mode)
           None) ;;
      push_message session userMessage ;;
      now <- new_Date ;;
      update_obj session (ChatSession.set_updatedAt now) ;;
      update_obj session (ChatSession.set_mode mode) ;;
      users <- gets (λ w,
        filter (λ m, ChatMessage.role m = user)
          (deref_all w (messages_of w session))) ;;
      (if decide (length users = 1) then
         update_obj session
           (ChatSession.set_title (generateSessionTitle content))
       else ret tt) ;;
      apiMessages <- gets (λ w,
        prepareMessagesForAPI w (messages_of w session) mode) ;;
      id <- uuidv4 ;;
      timestamp <- new_Date ;;
      assistantMessage <- alloc_msg
        (ChatMessage.Build id assistant EmptyString timestamp None None
           (Some true)) ;;
      push_message session assistantMessage ;;
      fire (Some session) ;;
      ret (session, assistantMessage, apiMessages)
  end.

(** The statements of [sendMessage] before the loop.  Control first
    leaves [sendMessage] when the loop awaits the first chunk, so
    another call may start in the world this leaves. *)
Definition sendMessage_start (content : string) (mode : SearchMode)
  : M (loc * loc * list PerplexityMessage) :=
  ensure_session mode ;; sendMessage_push content mode.

(** The statements after the loop. *)
Definition sendMessage_finalize (session assistantMessage : loc)
    (fullContent : string) (citations : list string) : M loc :=
  update_msg assistantMessage (ChatMessage.set_content fullContent) ;;
  update_msg assistantMessage
    (ChatMessage.set_citations
       (if (0 <? length citations)%nat then Some (Set_from citations)
        else None)) ;;
  update_msg assistantMessage (ChatMessage.set_streaming false) ;;
  now <- new_Date ;;
  update_obj session (ChatSession.set_updatedAt now) ;;
  saveSessions ;;
  fire (Some session) ;;
  ret assistantMessage.

(** The text [error instanceof Error ? error.message : '...']. *)
Definition error_text (error : Thrown) : string :=
  match error with
  | ErrorObj message => message
  | NonError => "Unknown error occurred"
  end.

(** The [catch] block of [sendMessage]. *)
Definition sendMessage_catch (session : loc) (error : Thrown) : M loc :=
  messages <- gets (λ w, messages_of w session) ;;
  lastId <- gets (λ w, last messages ≫= id_of w) ;;
  match lastId with
  | Some lastId =>
      kept <- gets (λ w, filter (λ m, id_of w m ≠ Some lastId) messages) ;;
      a <- alloc_arr kept ;;
      update_obj session (ChatSession.set_messages a)
  | None => ret tt
  end ;;
  id <- uuidv4 ;;
  timestamp <- new_Date ;;
  errorMessage <- alloc_msg
    (ChatMessage.Build id assistant ("Error: " +:+ error_text error)
       timestamp None None None) ;;
  push_message session errorMessage ;;
  fire (Some session) ;;
  throw error.

(** The loop and what follows it, once the stream is known. *)
Definition sendMessage_stream (session assistantMessage : loc)
    (stream : Stream) : M loc :=
  try_catch
    (r <- stream_loop session assistantMessage stream EmptyString [] ;;
     sendMessage_finalize session assistantMessage r.1 r.2)
    (sendMessage_catch session).

(** [ChatManager.sendMessage], run to its end against a transport
    whose answer to the API messages is [streamChatCompletion]. *)
Definition sendMessage
    (streamChatCompletion : list PerplexityMessage → Stream)
    (content : string) (mode : SearchMode) : M loc :=
  started <- sendMessage_start content mode ;;
  let '(session, assistantMessage, apiMessages) := started in
  sendMessage_stream session assistantMessage
    (streamChatCompletion apiMessages).

End Manager.

(** ** Vocabulary of the properties *)

(** A world is well formed when no reference dangles and the sessions of
    the map are separate: each key is the id of its session and occurs
    once, every session object refers to an array, every array lists each
    of its message objects once, the current session is a key of the map,
    and no two sessions of the map share an array. *)
Record wf (w : World) : Prop := {
  wf_sessions :
    Forall (λ e, ChatSession.id <$> objs w !! e.2 = Some e.1) (sessions w);
  wf_keys : NoDup (sessions w).*1;
  wf_objs :
    Forall (λ o, ChatSession.messages o < length (arrs w)) (objs w);
  wf_arrs :
    Forall (λ a, NoDup a ∧ Forall (λ m, m < length (msgs w)) a) (arrs w);
  wf_current : ∀ k, currentSessionId w = Some k → truthy (Some k) = true →
    is_Some (map_get k (sessions w));
  wf_unshared :
    NoDup (omap (λ e, ChatSession.messages <$> objs w !! e.2) (sessions w))
}.

(** Session [s] is the current session of [w]: object [o] with the array
    [a] of messages. *)
Definition active (w : World) (s : loc) (o : ChatSession.t) (a : list loc)
  : Prop :=
  (∃ k, currentSessionId w = Some k ∧ map_get k (sessions w) = Some s)
  ∧ objs w !! s = Some o
  ∧ arrs w !! ChatSession.messages o = Some a.

(** The stream that yields [chunks] and then goes on as [rest]. *)
Definition of_chunks (chunks : list Chunk) (rest : Stream) : Stream :=
  foldr Yield rest chunks.

(** The content a delta carries, empty when it carries none. *)
Definition delta_text (chunk : Chunk) : string :=
  match choices chunk with
  | Some (c :: _) => default EmptyString (delta c ≫= delta_content)
  | _ => EmptyString
  end.

(** The concatenation of the contents of the deltas, in order. *)
Definition concat_deltas (chunks : list Chunk) : string :=
  foldr (λ c rest, delta_text c +:+ rest) EmptyString chunks.

(** The citation URLs received with the chunks, in order. *)
Definition received_citations (chunks : list Chunk) : list string :=
  chunks ≫= λ c, default [] (chunk_citations c).

(** The messages of session [s] as a reader sees them. *)
Definition messages_in (w : World) (s : loc) : list ChatMessage.t :=
  deref_all w (messages_of w s).

(** What the transcript of session [s] shows: role, content and
    [streaming] of each message. *)
Definition transcript (w : World) (s : loc)
  : list (Role * string * option bool) :=
  (λ m, (ChatMessage.role m, ChatMessage.content m, ChatMessage.streaming m))
  <$> messages_in w s.

(** The number of messages of session [s] with [streaming = true]. *)
Definition streaming_count (w : World) (s : loc) : nat :=
  length (filter (λ m, ChatMessage.is_streaming m = true) (messages_in w s)).

Section Objects.
Variable uuid_src : nat → string.
Variable clock : nat → Date.

(** The session object and the system message that [createNewSession]
    makes in world [w]. *)
Definition created_session (title : option string) (mode : SearchMode)
    (w : World) : ChatSession.t :=
  ChatSession.Build (uuid_src (uuid_count w)) (or_default title "New Chat")
    (length (arrs w)) (clock (clock_count w)) (clock (S (clock_count w)))
    mode.

Definition created_message (mode : SearchMode) (w : World)
  : ChatMessage.t :=
  ChatMessage.Build (uuid_src (S (uuid_count w))) system
    (or_default (getSystemMessage mode) EmptyString)
    (clock (S (S (clock_count w)))) None None None.

(** The user message and the placeholder that [sendMessage] makes in
    world [w], and the session object [o] after they are pushed. *)
Definition user_message (content : string) (mode : SearchMode) (w : World)
  : ChatMessage.t :=
  ChatMessage.Build (uuid_src (uuid_count w)) user content
    (clock (clock_count w)) None (Some mode) None.

Definition placeholder (w : World) : ChatMessage.t :=
  ChatMessage.Build (uuid_src (S (uuid_count w))) assistant EmptyString
    (clock (S (S (clock_count w)))) None None (Some true).

Definition pushed_session (content : string) (mode : SearchMode)
    (w : World) (o : ChatSession.t) (a : list loc) : ChatSession.t :=
  ChatSession.Build (ChatSession.id o)
    (if decide (length (filter (λ m, ChatMessage.role m = user)
                          (deref_all w a ++ [user_message content mode w]))
                = 1)
     then generateSessionTitle content else ChatSession.title o)
    (ChatSession.messages o) (ChatSession.createdAt o)
    (clock (S (clock_count w))) mode.

(** The world in which the loop of [sendMessage] starts, when [s] is
    the current session of [w]. *)
Definition pushed (content : string) (mode : SearchMode) (w : World)
    (s : loc) (o : ChatSession.t) (a : list loc) : World :=
  mkWorld (<[s := pushed_session content mode w o a]> (objs w))
    (<[ChatSession.messages o :=
         a ++ [length (msgs w); S (length (msgs w))]]> (arrs w))
    (msgs w ++ [user_message content mode w; placeholder w])
    (sessions w) (currentSessionId w) (globalState w)
    (fired w ++ [Some s]) (S (S (uuid_count w)))
    (S (S (S (clock_count w)))).

(** The error message that the [catch] block of [sendMessage] makes in
    world [w]. *)
Definition error_message (error : Thrown) (w : World) : ChatMessage.t :=
  ChatMessage.Build (uuid_src (uuid_count w)) assistant
    ("Error: " +:+ error_text error) (clock (clock_count w))
    None None None.

(** The messages for the API that a call of [sendMessage] in world [w]
    passes to the transport. *)
Definition api_messages (content : string) (mode : SearchMode) (w : World)
  : list PerplexityMessage :=
  match sendMessage_start uuid_src clock content mode w with
  | (Ok (_, _, api), _) => api
  | _ => []
  end.
End Objects.

Section Runs.
Variable uuid_src : nat → string.
Variable clock : nat → Date.

(** The world after the first statement of [sendMessage]. *)
Definition ensured (mode : SearchMode) (w : World) : World :=
  (ensure_session uuid_src clock mode w).2.

(** The session object the current session id refers to. *)
Definition current_session (w : World) : option loc :=
  k ← currentSessionId w; map_get k (sessions w).

(** [sendMessage] up to the moment when it has received [chunks] and
    awaits the next one: the result is the session and the
    placeholder. *)
Definition sendMessage_partial (content : string) (mode : SearchMode)
    (chunks : list Chunk) : M (loc * loc) :=
  started <- sendMessage_start uuid_src clock content mode ;;
  stream_loop started.1.1 started.1.2 (of_chunks chunks Done)
    EmptyString [] ;;
  ret started.1.

(** The rest of a [sendMessage] that awaited its stream with
    [fullContent] and [citations] received so far, once the rest of the
    stream arrives: the loop goes on, then the statements after it, or
    the [catch] block. *)
Definition sendMessage_resume (session assistantMessage : loc)
    (fullContent : string) (citations : list string) (rest : Stream)
  : M loc :=
  try_catch
    (r <- stream_loop session assistantMessage rest fullContent citations ;;
     sendMessage_finalize clock session assistantMessage r.1 r.2)
    (sendMessage_catch uuid_src clock session).
End Runs.

(** The world after the loop of [sendMessage] has received [chunks],
    started in world [w] with placeholder [p] of value [x]. *)
Definition streamed (s p : loc) (x : ChatMessage.t) (chunks : list Chunk)
    (w : World) : World :=
  with_fired
    (fired w ++ replicate
       (length (filter (λ c, delta_text c ≠ EmptyString) chunks)) (Some s))
    (with_msgs
       (<[p := ChatMessage.set_content (concat_deltas chunks) x]> (msgs w))
       w).

(** The placeholder when the stream has ended. *)
Definition finalized_message (fullContent : string) (citations : list string)
    (x : ChatMessage.t) : ChatMessage.t :=
  ChatMessage.set_streaming false
    (ChatMessage.set_citations
       (if (0 <? length citations)%nat then Some (Set_from citations)
        else None)
       (ChatMessage.set_content fullContent x)).

(** The chunks a stream yields and the way it ends. *)
Fixpoint stream_chunks (stream : Stream) : list Chunk :=
  match stream with
  | Yield c rest => c :: stream_chunks rest
  | _ => []
  end.

Fixpoint stream_error (stream : Stream) : option Thrown :=
  match stream with
  | Yield _ rest => stream_error rest
  | Done => None
  | Raise e => Some e
  end.

Section Outcomes.
Variable uuid_src : nat → string.
Variable clock : nat → Date.

(** The world [sendMessage] leaves when the stream ends after [chunks]:
    the loop started in world [w] with session [s] of value [o] and
    placeholder [p] of value [x], and [blob] was saved. *)
Definition finalized (s p : loc) (o : ChatSession.t) (x : ChatMessage.t)
    (chunks : list Chunk) (blob : list SessionData) (w : World) : World :=
  mkWorld
    (<[s := ChatSession.set_updatedAt (clock (clock_count w)) o]> (objs w))
    (arrs w)
    (<[p := finalized_message (concat_deltas chunks)
              (received_citations chunks) x]> (msgs w))
    (sessions w) (currentSessionId w) (Some blob)
    (fired (streamed s p x chunks w) ++ [Some s])
    (uuid_count w) (S (clock_count w)).

(** The world [sendMessage] leaves when the stream throws [error] after
    [chunks]; [a] is the array of the session when the loop started. *)
Definition recovered (s p : loc) (o : ChatSession.t) (x : ChatMessage.t)
    (a : list loc) (chunks : list Chunk) (error : Thrown) (w : World)
  : World :=
  mkWorld
    (<[s := ChatSession.set_messages (length (arrs w)) o]> (objs w))
    (arrs w ++
       [filter (λ m, id_of w m ≠ Some (ChatMessage.id x)) a
        ++ [length (msgs w)]])
    (<[p := ChatMessage.set_content (concat_deltas chunks) x]> (msgs w)
     ++ [error_message uuid_src clock error w])
    (sessions w) (currentSessionId w) (globalState w)
    (fired (streamed s p x chunks w) ++ [Some s])
    (S (uuid_count w)) (S (clock_count w)).
End Outcomes.

(** ** Saving and loading *)

(** A message after a save and a load: the optional properties have
    their defaults. *)
Definition normalize_message (m : ChatMessage.t) : ChatMessage.t :=
  ChatMessage.Build (ChatMessage.id m) (ChatMessage.role m)
    (ChatMessage.content m) (ChatMessage.timestamp m)
    (Some (default [] (ChatMessage.citations m)))
    (Some (default general (ChatMessage.mode m)))
    (Some (default false (ChatMessage.streaming m))).

(** A stored message passes the guard of [loadSessions] when its id and
    its content are not empty. *)
Definition survives_load (m : ChatMessage.t) : Prop :=
  ChatMessage.id m ≠ EmptyString ∧ ChatMessage.content m ≠ EmptyString.

Global Instance survives_load_dec m : Decision (survives_load m).
Proof. unfold survives_load. apply _. Defined.

(** The JSON image of a session as [saveSessions] stores it. *)
Definition session_data (v : Snapshot.t) : SessionData :=
  {| sd_id := Some (Snapshot.id v);
     sd_title := Some (or_default (Some (Snapshot.title v)) "Untitled");
     sd_messages := Some (json_of_message <$> Snapshot.messages v);
     sd_createdAt := Some (Snapshot.createdAt v);
     sd_updatedAt := Some (Snapshot.updatedAt v);
     sd_mode := Some (Snapshot.mode v) |}.

(** The value of a session after a save and a load. *)
Definition reloaded (v : Snapshot.t) : Snapshot.t :=
  Snapshot.Build (Snapshot.id v)
    (or_default (Some (Snapshot.title v)) "Untitled")
    (normalize_message <$> filter survives_load (Snapshot.messages v))
    (Snapshot.createdAt v) (Snapshot.updatedAt v) (Snapshot.mode v).

(** The session set after a save and a restart of the manager. *)
Definition save_then_load (clock : nat → Date) (w : World) : World :=
  construct clock (globalState ((saveSessions w).2)).

(** The same session with every message normalized. *)
Definition normalized (v : Snapshot.t) : Snapshot.t :=
  Snapshot.Build (Snapshot.id v) (Snapshot.title v)
    (normalize_message <$> Snapshot.messages v)
    (Snapshot.createdAt v) (Snapshot.updatedAt v) (Snapshot.mode v).

(** A store with [f] applied to the value of each session. *)
Definition map_store (f : Snapshot.t → Snapshot.t)
    (st : list (string * option Snapshot.t))
  : list (string * option Snapshot.t) :=
  (λ e : string * option Snapshot.t, (e.1, f <$> e.2)) <$> st.

(** A session whose title and messages a save and a load keep. *)
Definition well_stored (v : Snapshot.t) : Prop :=
  Snapshot.title v ≠ EmptyString ∧ Forall survives_load (Snapshot.messages v).

Global Instance well_stored_dec v : Decision (well_stored v).
Proof. unfold well_stored. apply _. Defined.

Global Instance from_option_well_stored_dec (o : option Snapshot.t) :
  Decision (from_option well_stored True o).
Proof. destruct o; apply _. Defined.

(** The ids of the messages of each session of a store, in order. *)
Definition message_ids (st : list (string * option Snapshot.t))
  : list (string * list string) :=
  (λ e : string * option Snapshot.t,
     (e.1, default [] ((λ v, ChatMessage.id <$> Snapshot.messages v) <$> e.2)))
  <$> st.

(** Well-formedness as a computation. *)
Definition wf_check (w : World) : bool :=
  bool_decide
    (Forall (λ e, ChatSession.id <$> objs w !! e.2 = Some e.1) (sessions w))
  && bool_decide (NoDup (sessions w).*1)
  && bool_decide
       (Forall (λ o, ChatSession.messages o < length (arrs w)) (objs w))
  && bool_decide
       (Forall (λ a, NoDup a ∧ Forall (λ m, m < length (msgs w)) a) (arrs w))
  && match currentSessionId w with
     | Some k => implb (truthy (Some k)) (map_has k (sessions w))
     | None => true
     end
  && bool_decide
       (NoDup (omap (λ e, ChatSession.messages <$> objs w !! e.2)
                 (sessions w))).

(** The value a computation threw, if it threw. *)
Definition thrown_by {A} (r : Result A * World) : option Thrown :=
  match r.1 with
  | Ok _ => None
  | Throw e => Some e
  end.

(** ** Scenarios *)

Module Scenario.
(** A generator of distinct ids and a clock that ticks. *)
Definition uuid (n : nat) : string :=
  String (ascii_of_nat (48 + n)) "-uuid".
Definition clock (n : nat) : Date := (1000 + Z.of_nat n)%Z.

Definition text (s : string) (urls : option (list string)) : Chunk :=
  {| choices := Some [ {| delta := Some {| delta_content := Some s |} |} ];
     chunk_citations := urls |}.

(** Three deltas, two of them with citations. *)
Definition hello_chunks : list Chunk :=
  [ text "Hel" (Some ["a.com"; "b.com"]);
    text "lo" (Some ["a.com"]);
    text " world" None ].
Definition hello (_ : list PerplexityMessage) : Stream :=
  of_chunks hello_chunks Done.

(** One delta and then a server error. *)
Definition server_error : Thrown :=
  ErrorObj "Perplexity server error. Please try again later.".
Definition failing (_ : list PerplexityMessage) : Stream :=
  of_chunks [text "Par" None] (Raise server_error).

(** A stream that ends without a delta. *)
Definition silent (_ : list PerplexityMessage) : Stream := Done.

(** The manager on a fresh installation. *)
Definition fresh : World := construct clock None.

(** After one complete exchange. *)
Definition greeted : World :=
  (sendMessage uuid clock hello "Say hello" general fresh).2.

(** A first [sendMessage] that awaits its stream. *)
Definition in_flight : World :=
  (sendMessage_start uuid clock "first question" general fresh).2.

(** A second [sendMessage] started before the first one has ended. *)
Definition overlapped : World :=
  (sendMessage_start uuid clock "second question" general in_flight).2.

(** A [sendMessage] whose stream has delivered the delta ['Par'] and
    has not ended; another [sendMessage] started then; the stream of the
    first one failing then, and the second one ending after that. *)
Definition explaining : Result (loc * loc) * World :=
  sendMessage_partial uuid clock "explain this" explain [text "Par" None]
    fresh.
Definition interrupted : Result (loc * loc * list PerplexityMessage) * World :=
  sendMessage_start uuid clock "second question" explain explaining.2.
Definition failed_first : Result loc * World :=
  sendMessage_resume uuid clock 0 2 "Par" [] (Raise server_error)
    interrupted.2.
Definition ended_second : Result loc * World :=
  sendMessage_resume uuid clock 0 4 EmptyString [] (hello []) failed_first.2.

(** A failing [sendMessage] run from start to end while another one
    awaits its stream. *)
Definition failed_second : Result loc * World :=
  sendMessage uuid clock failing "explain this" explain in_flight.

(** After an exchange whose answer was empty. *)
Definition unanswered : World :=
  (sendMessage uuid clock silent "Hi" general fresh).2.


(** Two sessions; the second one, the later, is current. *)
Definition two_sessions : World :=
  (createNewSession uuid clock (Some "B") debug
     (createNewSession uuid clock (Some "A") general fresh).2).2.
End Scenario.

(** ** Observation points *)

(** No message of a session of the map is streaming. *)
Definition quiet (w : World) : Prop :=
  ∀ e m x, e ∈ sessions w → m ∈ messages_of w e.2 → msgs w !! m = Some x →
    ChatMessage.is_streaming x = false.

(** No message of a session of the map is streaming but [p]. *)
Definition streaming_only (p : loc) (w : World) : Prop :=
  ∀ e m x, e ∈ sessions w → m ∈ messages_of w e.2 → msgs w !! m = Some x →
    ChatMessage.is_streaming x = true → m = p.

(** No stored message is marked as streaming. *)
Definition blob_quiet (blob : option (list SessionData)) : Prop :=
  Forall (λ sd, Forall (λ md, md_streaming md ≠ Some true)
                  (default [] (sd_messages sd)))
    (default [] blob).

(** The blob that [saveSessions] stores in world [w]. *)
Definition saved (w : World) : list SessionData :=
  flat_map (save_entry w) (sessions w).

(** What holds between two operations: the world is well formed, no
    message is streaming, in memory or in the stored blob. *)
Definition settled (w : World) : Prop :=
  wf w ∧ quiet w ∧ blob_quiet (globalState w).

Section Reachable.
Variable uuid_src : nat → string.
Variable clock : nat → Date.

(** A restart of the extension: a new manager loads the stored blob; the
    collaborators go on from where they were. *)
Definition restart (w : World) : World :=
  (loadSessions clock
     (mkWorld [] [] [] [] None (globalState w) [] (uuid_count w)
        (clock_count w))).2.

(** The worlds between two public operations, when every operation runs
    to its end before the next one starts. *)
Inductive quiescent : World → Prop :=
  | q_install : quiescent (construct clock None)
  | q_restart w : quiescent w → quiescent (restart w)
  | q_create w title mode :
      quiescent w → quiescent (createNewSession uuid_src clock title mode w).2
  | q_send w respond content mode :
      quiescent w →
      quiescent (sendMessage uuid_src clock respond content mode w).2
  | q_switch w k : quiescent w → quiescent (switchToSession uuid_src k w).2
  | q_delete w k : quiescent w → quiescent (deleteSession k w).2
  | q_clear w : quiescent w → quiescent (clearAllSessions w).2
  | q_current w : quiescent w → quiescent (getCurrentSession w).2
  | q_get w k : quiescent w → quiescent (getSession k w).2.

(** The observation points: the worlds between two operations and the
    worlds in which a [sendMessage] awaits the next chunk of its
    stream. *)
Inductive observable : World → Prop :=
  | obs_quiescent w : quiescent w → observable w
  | obs_streaming w content mode chunks :
      quiescent w →
      observable (sendMessage_partial uuid_src clock content mode chunks w).2.
End Reachable.

(** * The configuration and the client of the Perplexity API *)

(** ** Numbers

    The settings [temperature] and [maxTokens] are JavaScript numbers.
    The model takes the finite ones, as rationals: every finite double
    is a rational, and [Math.min], [Math.max] and the comparisons, the
    only operations the code applies to them, are exact. *)

(** ** [ConfigManager] *)

Module Theme.
Inductive t : Type := auto | dark | light.
End Theme.

(** The [WorkspaceConfiguration] of the section ['perplexityChat']: the
    value of each setting, [None] when [get] finds none. *)
Record WorkspaceConfiguration : Type := {
  cfg_apiKey : option string;
  cfg_model : option string;
  cfg_temperature : option Q;
  cfg_maxTokens : option Q;
  cfg_enableVoice : option bool;
  cfg_autoSave : option bool;
  cfg_theme : option Theme.t
}.

Module ConfigManager.

(** [a < b] on numbers *)
Definition lt (a b : Q) : bool := negb (Qle_bool b a).

Record Settings : Type := {
  apiKey : string;
  model : string;
  temperature : Q;
  maxTokens : Q;
  enableVoice : bool;
  autoSave : bool;
  theme : Theme.t
}.

Record Validation : Type := { valid : bool; errors : list string }.

Section Config.
Variable config : WorkspaceConfiguration.

(** [this.config.get<string>('apiKey', '')] *)
Definition getApiKey : string := default EmptyString (cfg_apiKey config).

Definition getModel : string :=
  default "llama-3.1-sonar-small-128k-online" (cfg_model config).

(** [Math.max(0, Math.min(2, temp))] *)
Definition getTemperature : Q :=
  Qmax 0 (Qmin 2 (default (2 # 10)%Q (cfg_temperature config))).

(** [Math.max(1, Math.min(128000, maxTokens))] *)
Definition getMaxTokens : Q :=
  Qmax 1 (Qmin 128000 (default 4096%Q (cfg_maxTokens config))).

Definition isVoiceEnabled : bool := default true (cfg_enableVoice config).
Definition isAutoSaveEnabled : bool := default true (cfg_autoSave config).
Definition getTheme : Theme.t := default Theme.auto (cfg_theme config).

Definition getAllSettings : Settings :=
  {| apiKey := if truthy (Some getApiKey) then "***" else EmptyString;
     model := getModel;
     temperature := getTemperature;
     maxTokens := getMaxTokens;
     enableVoice := isVoiceEnabled;
     autoSave := isAutoSaveEnabled;
     theme := getTheme |}.

(** [ConfigManager.validateConfiguration]: the three checks push their
    messages in this order. *)
Definition validateConfiguration : Validation :=
  let errors1 :=
    if truthy (Some getApiKey) then [] else ["API key is required"] in
  let errors2 :=
    match cfg_temperature config with
    | Some temp =>
        if lt temp 0 || lt 2 temp
        then errors1 ++ ["Temperature must be between 0 and 2"]
        else errors1
    | None => errors1
    end in
  let errors3 :=
    match cfg_maxTokens config with
    | Some maxTokens =>
        if lt maxTokens 1 || lt 128000 maxTokens
        then errors2 ++ ["Max tokens must be between 1 and 128000"]
        else errors2
    | None => errors2
    end in
  {| valid := (length errors3 =? 0)%nat; errors := errors3 |}.
End Config.
End ConfigManager.

(** ** [PerplexityClient] *)

(** What the client reads of a rejection of the HTTP layer:
    [error.response] with its [status] and [data.error.message],
    [error.code] and [error.message].  A property that is missing is
    [None]. *)
Record ErrorResponse : Type := {
  status : N;
  data_error_message : option string
}.

Record HttpError : Type := {
  response : option ErrorResponse;
  code : option string;
  message : option string
}.

(** The body of a streamed response: the pieces of text
    [chunk.toString()], one for each round of
    [for await (const chunk of stream)], and then the end of the body or
    its failure. *)
Inductive Body : Type :=
  | BodyData (chunk : string) (rest : Body)
  | BodyEnd
  | BodyFail (error : HttpError).

(** A chunk as the network delivers it: the bytes of a [Buffer]. *)
Definition Buffer : Type := list Byte.byte.

(** The body as the network delivers it: the chunks, and then the end
    of the body or its failure. *)
Inductive RawBody : Type :=
  | RawData (chunk : Buffer) (rest : RawBody)
  | RawEnd
  | RawFail (error : HttpError).

(** The pieces of text that [buffer += chunk.toString()] appends: each
    chunk is decoded on its own, whatever the chunk before it ended
    with. *)
Fixpoint decoded (toString : Buffer → string) (raw : RawBody) : Body :=
  match raw with
  | RawData chunk rest => BodyData (toString chunk) (decoded toString rest)
  | RawEnd => BodyEnd
  | RawFail error => BodyFail error
  end.

(** The outcome of [httpClient.post] with [responseType: 'stream']. *)
Inductive Response : Type :=
  | Rejected (error : HttpError)
  | Streaming (body : Body).

Module Recency.
Inductive t : Type := month | week | day | hour.
End Recency.

(** [ChatCompletionRequest] *)
Record ChatCompletionRequest : Type := {
  req_model : string;
  req_messages : list PerplexityMessage;
  req_temperature : Q;
  req_max_tokens : Q;
  req_stream : bool;
  req_search_domain_filter : option (list string);
  req_search_recency_filter : option Recency.t
}.

(** [Partial<ChatCompletionRequest>]: each property is there or not. *)
Record RequestOptions : Type := {
  opt_model : option string;
  opt_messages : option (list PerplexityMessage);
  opt_temperature : option Q;
  opt_max_tokens : option Q;
  opt_stream : option bool;
  opt_search_domain_filter : option (list string);
  opt_search_recency_filter : option Recency.t
}.

(** The default [options = {}] *)
Definition no_options : RequestOptions :=
  {| opt_model := None; opt_messages := None; opt_temperature := None;
     opt_max_tokens := None; opt_stream := None;
     opt_search_domain_filter := None;
     opt_search_recency_filter := None |}.

(** [`${n}`] for a status code *)
Definition number_text (n : N) : string :=
  NilZero.string_of_uint (N.to_uint n).

(** [s.split('\n')] *)
Definition LF : ascii := ascii_of_nat 10.

Fixpoint split_lines (s : string) : list string :=
  match s with
  | EmptyString => [EmptyString]
  | String c s' =>
      if decide (c = LF) then EmptyString :: split_lines s'
      else
        match split_lines s' with
        | l :: ls => String c l :: ls
        | [] => [String c EmptyString]
        end
  end.

(** [s.slice(n)] *)
Fixpoint slice (n : nat) (s : string) : string :=
  match n, s with
  | S n', String _ s' => slice n' s'
  | _, _ => s
  end.

Module PerplexityClient.

(** [PerplexityClient.handleApiError] *)
Definition handleApiError (error : HttpError) : Thrown :=
  match response error with
  | Some r =>
      if decide (status r = 401%N) then
        ErrorObj "Invalid API key. Please check your Perplexity API key in settings."
      else if decide (status r = 429%N) then
        ErrorObj "Rate limit exceeded. Please try again later."
      else if decide (status r = 500%N) then
        ErrorObj "Perplexity server error. Please try again later."
      else
        ErrorObj ("API error (" +:+ number_text (status r) +:+ "): "
                  +:+ or_default (data_error_message r) "Unknown error")
  | None =>
      if decide (code error = Some "ECONNABORTED") then
        ErrorObj "Request timeout. Please check your internet connection."
      else
        ErrorObj ("Connection error: "
                  +:+ default "undefined" (message error))
  end.

(** [PerplexityClient.getModels] *)
Definition getModels : list string :=
  [ "llama-3.1-sonar-small-128k-online";
    "llama-3.1-sonar-large-128k-online";
    "llama-3.1-sonar-huge-128k-online";
    "llama-3.1-sonar-small-128k-chat";
    "llama-3.1-sonar-large-128k-chat" ].

Section Client.
Variable config : WorkspaceConfiguration.

(** The object literal [{ model: ..., messages, temperature: ...,
    max_tokens: ..., stream, ...options }] that [chatCompletion]
    ([stream: false]) and [streamChatCompletion] ([stream: true]) send:
    the spread comes last, so a property of [options] replaces the one
    written before it. *)
Definition request (stream : bool) (messages : list PerplexityMessage)
    (options : RequestOptions) : ChatCompletionRequest :=
  {| req_model :=
       default (or_default (opt_model options)
                  (ConfigManager.getModel config))
         (opt_model options);
     req_messages := default messages (opt_messages options);
     req_temperature :=
       default (default (ConfigManager.getTemperature config)
                  (opt_temperature options))
         (opt_temperature options);
     req_max_tokens :=
       default (default (ConfigManager.getMaxTokens config)
                  (opt_max_tokens options))
         (opt_max_tokens options);
     req_stream := default stream (opt_stream options);
     req_search_domain_filter := opt_search_domain_filter options;
     req_search_recency_filter := opt_search_recency_filter options |}.

(** [JSON.parse(data)] read as a [PerplexityResponse], [None] when it
    throws. *)
Variable JSON_parse : string → option Chunk.

(** The loop [for (const line of lines)]: [next] is what the generator
    does once the lines are exhausted. *)
Fixpoint for_lines (lines : list string) (next : Stream) : Stream :=
  match lines with
  | [] => next
  | line :: rest =>
      if String.prefix "data: " line then
        let data := slice 6 line in
        if decide (data = "[DONE]") then Done
        else
          match JSON_parse data with
          | Some parsed => Yield parsed (for_lines rest next)
          | None => for_lines rest next
          end
      else for_lines rest next
  end.

(** The loop [for await (const chunk of stream)] with its variable
    [buffer]. *)
Fixpoint for_chunks (body : Body) (buffer : string) : Stream :=
  match body with
  | BodyEnd => Done
  | BodyFail error => Raise (handleApiError error)
  | BodyData chunk rest =>
      let buffer := buffer +:+ chunk in
      let lines := split_lines buffer in
      let buffer := or_default (last lines) EmptyString in
      for_lines (take (length lines - 1) lines) (for_chunks rest buffer)
  end.

(** [PerplexityClient.streamChatCompletion] over an HTTP layer [post]
    that answers a request. *)
Definition streamChatCompletion (post : ChatCompletionRequest → Response)
    (messages : list PerplexityMessage) (options : RequestOptions)
  : Stream :=
  match post (request true messages options) with
  | Rejected error => Raise (handleApiError error)
  | Streaming body => for_chunks body EmptyString
  end.
End Client.
End PerplexityClient.

(** * [ChatProvider]: the requests of the webview *)

Module ChatProvider.

(** What [serializeSession] makes of a message and of a session; the
    dates are ISO strings. *)
Record SerializedMessage : Type := {
  sm_id : string;
  sm_role : Role;
  sm_content : string;
  sm_timestamp : string;
  sm_citations : option (list string);
  sm_streaming : option bool
}.

Record SerializedSession : Type := {
  ss_id : string;
  ss_title : string;
  ss_messages : list SerializedMessage;
  ss_createdAt : string;
  ss_updatedAt : string;
  ss_mode : SearchMode
}.

(** The [config] of a ['configUpdate'] *)
Record ConfigView : Type := {
  cv_theme : Theme.t;
  cv_enableVoice : bool;
  cv_model : string;
  cv_temperature : Q;
  cv_maxTokens : Q
}.

(** The messages for the webview, by their [type]. *)
Inductive Outgoing : Type :=
  | sessionUpdate (session : option SerializedSession)
  | sessionsUpdate (sessions : list SerializedSession)
  | configUpdate (config : ConfigView)
  | error (message : string).

(** A message of the webview: [data.type], [data.content], [data.mode]
    and [data.sessionId], [None] when the property is missing. *)
Record Incoming : Type := {
  type : string;
  content : option string;
  mode : option SearchMode;
  sessionId : option string
}.

(** The provider: whether [resolveWebviewView] has set [this.webview],
    and the messages that [handleWebviewMessage] and the methods it
    calls have posted.  The ['sessionUpdate'] that the subscriber of
    [onSessionChanged] posts for each notification of the manager is
    not in this list: the notifications are the [fired] of the world. *)
Record Provider : Type := {
  webview : bool;
  posted : list Outgoing
}.

Section Provider.
Variable uuid_src : nat → string.
Variable clock : nat → Date.

(** [Date.prototype.toISOString] *)
Variable toISOString : Date → string.

(** [vscode.workspace.getConfiguration('perplexityChat')] *)
Variable config : WorkspaceConfiguration.

(** The transport under [chatManager.sendMessage] *)
Variable streamChatCompletion : list PerplexityMessage → Stream.

Definition serializeMessage (msg : ChatMessage.t) : SerializedMessage :=
  {| sm_id := ChatMessage.id msg;
     sm_role := ChatMessage.role msg;
     sm_content := ChatMessage.content msg;
     sm_timestamp := toISOString (ChatMessage.timestamp msg);
     sm_citations := ChatMessage.citations msg;
     sm_streaming := ChatMessage.streaming msg |}.

(** [ChatProvider.serializeSession]; a reference of the program always
    has its object, [None] is for a location the heaps do not hold. *)
Definition serializeSession (w : World) (session : loc)
  : option SerializedSession :=
  v ← snapshot w session;
  Some {| ss_id := Snapshot.id v;
          ss_title := Snapshot.title v;
          ss_messages := serializeMessage <$> Snapshot.messages v;
          ss_createdAt := toISOString (Snapshot.createdAt v);
          ss_updatedAt := toISOString (Snapshot.updatedAt v);
          ss_mode := Snapshot.mode v |}.

(** [ChatProvider.sendToWebview] *)
Definition sendToWebview (message : Outgoing) (p : Provider) : Provider :=
  if webview p then {| webview := true; posted := posted p ++ [message] |}
  else p.

(** [ChatProvider.sendSessionsList] *)
Definition sendSessionsList (w : World) (p : Provider) : Provider :=
  sendToWebview
    (sessionsUpdate (omap (serializeSession w) (getAllSessions w))) p.

(** [ChatProvider.sendConfiguration] *)
Definition sendConfiguration (p : Provider) : Provider :=
  sendToWebview
    (configUpdate
       {| cv_theme := default Theme.auto (cfg_theme config);
          cv_enableVoice := default true (cfg_enableVoice config);
          cv_model :=
            default "llama-3.1-sonar-small-128k-online" (cfg_model config);
          cv_temperature := default (2 # 10)%Q (cfg_temperature config);
          cv_maxTokens := default 4096%Q (cfg_maxTokens config) |}) p.

(** [ChatProvider.sendInitialData]; its [catch] only logs. *)
Definition sendInitialData (p : Provider) (w : World) : Provider * World :=
  match getCurrentSession w with
  | (Ok currentSession, w1) =>
      let p1 :=
        sendToWebview
          (sessionUpdate (currentSession ≫= serializeSession w1)) p in
      (sendConfiguration (sendSessionsList w1 p1), w1)
  | (Throw _, w1) => (p, w1)
  end.

(** The [try] block of [handleWebviewMessage]. *)
Definition dispatch (data : Incoming) (p : Provider) (w : World)
  : Result unit * (Provider * World) :=
  if decide (type data = "initialize") then
    (Ok tt, sendInitialData p w)
  else if decide (type data = "sendMessage") then
    if truthy (content data) then
      match sendMessage uuid_src clock streamChatCompletion
              (or_default (content data) EmptyString)
              (default general (mode data)) w with
      | (Ok _, w') => (Ok tt, (p, w'))
      | (Throw e, w') => (Throw e, (p, w'))
      end
    else (Ok tt, (p, w))
  else if decide (type data = "newSession") then
    match createNewSession uuid_src clock None
            (default general (mode data)) w with
    | (Ok _, w') => (Ok tt, (p, w'))
    | (Throw e, w') => (Throw e, (p, w'))
    end
  else if decide (type data = "switchSession") then
    if truthy (sessionId data) then
      match switchToSession uuid_src
              (or_default (sessionId data) EmptyString) w with
      | (Ok _, w') => (Ok tt, (p, w'))
      | (Throw e, w') => (Throw e, (p, w'))
      end
    else (Ok tt, (p, w))
  else if decide (type data = "deleteSession") then
    if truthy (sessionId data) then
      match deleteSession (or_default (sessionId data) EmptyString) w with
      | (Ok _, w') => (Ok tt, (sendSessionsList w' p, w'))
      | (Throw e, w') => (Throw e, (p, w'))
      end
    else (Ok tt, (p, w))
  else if decide (type data = "clearAllSessions") then
    match clearAllSessions w with
    | (Ok _, w') => (Ok tt, (sendSessionsList w' p, w'))
    | (Throw e, w') => (Throw e, (p, w'))
    end
  else (Ok tt, (p, w)).

(** [ChatProvider.handleWebviewMessage]: what the [try] block throws is
    reported to the webview. *)
Definition handleWebviewMessage (data : Incoming) (p : Provider) (w : World)
  : Provider * World :=
  match dispatch data p w with
  | (Ok _, s) => s
  | (Throw e, (p', w')) => (sendToWebview (error (error_text e)) p', w')
  end.
End Provider.
End ChatProvider.

(** * The webview: what [App] makes of the messages of the extension *)

Module Webview.

(** [Session] on the side of the webview is what [serializeSession]
    posted. *)
Abbreviation Session := ChatProvider.SerializedSession (only parsing).

(** [event.data] by its [type]; [other] is a type without a case in the
    handler, ['error'] among them. *)
Inductive Message : Type :=
  | sessionUpdate (session : option Session)
  | sessionsUpdate (sessions : list Session)
  | configUpdate (config : ChatProvider.ConfigView)
  | streamingUpdate (session : option Session)
  | other (type : string).

(** The message as the webview receives it. *)
Definition receive (message : ChatProvider.Outgoing) : Message :=
  match message with
  | ChatProvider.sessionUpdate session => sessionUpdate session
  | ChatProvider.sessionsUpdate sessions => sessionsUpdate sessions
  | ChatProvider.configUpdate config => configUpdate config
  | ChatProvider.error _ => other "error"
  end.

(** The state the handler of the messages writes: [sessions],
    [currentSession] and [theme]. *)
Record State : Type := {
  sessions : list Session;
  currentSession : option Session;
  theme : Theme.t
}.

(** [prev.findIndex(s => s.id === updatedSession.id)], [None] for -1 *)
Definition findIndex (id : string) (prev : list Session) : option nat :=
  fst <$> list_find (λ s, ChatProvider.ss_id s = id) prev.

(** The function that [updateSessionInList] passes to [setSessions]. *)
Definition updateSessionInList (updatedSession : Session)
    (prev : list Session) : list Session :=
  match findIndex (ChatProvider.ss_id updatedSession) prev with
  | Some index => <[index := updatedSession]> prev
  | None => updatedSession :: prev
  end.

(** [messageHandler] *)
Definition messageHandler (message : Message) (st : State) : State :=
  match message with
  | sessionUpdate (Some session) =>
      {| sessions := updateSessionInList session (sessions st);
         currentSession := Some session;
         theme := theme st |}
  | sessionUpdate None => st
  | sessionsUpdate sessions =>
      {| sessions := sessions;
         currentSession := currentSession st;
         theme := theme st |}
  | configUpdate config =>
      {| sessions := sessions st;
         currentSession := currentSession st;
         theme :=
           match ChatProvider.cv_theme config with
           | Theme.auto => Theme.dark
           | t => t
           end |}
  | streamingUpdate (Some session) =>
      {| sessions := sessions st;
         currentSession := Some session;
         theme := theme st |}
  | streamingUpdate None => st
  | other _ => st
  end.

(** The state after a sequence of messages. *)
Definition after (messages : list Message) (st : State) : State :=
  foldl (λ st message, messageHandler message st) st messages.

(** The state [sendMessage] reads and writes: the text of the input,
    [isLoading] and the mode selected. *)
Record Composer : Type := {
  inputMessage : string;
  isLoading : bool;
  searchMode : SearchMode
}.

(** The callback [sendMessage] of the send button and of the Enter key:
    the new state and the message posted to the extension, if any. *)
Definition sendMessage (c : Composer)
  : Composer * option ChatProvider.Incoming :=
  if bool_decide (trim (inputMessage c) = EmptyString) || isLoading c
  then (c, None)
  else
    let message := trim (inputMessage c) in
    ({| inputMessage := EmptyString;
        isLoading := true;
        searchMode := searchMode c |},
     Some {| ChatProvider.type := "sendMessage";
             ChatProvider.content := Some message;
             ChatProvider.mode := Some (searchMode c);
             ChatProvider.sessionId := None |}).
End Webview.

(** * The commands of the extension *)

Module Extension.

(** The four commands on the selected code. *)
Inductive Command : Type :=
  explainCode | debugCode | optimizeCode | generateTests.

(** What a command reads of [vscode.window.activeTextEditor]: the
    language of the document and the text of the selection. *)
Record Editor : Type := {
  languageId : string;
  selectedText : string
}.

(** The line feed of the template literals *)
Definition n : string := String LF EmptyString.

(** The template literal of each command *)
Definition prompt (command : Command) (language selectedText : string)
  : string :=
  match command with
  | explainCode =>
      "Explain this " +:+ language +:+ " code:" +:+ n +:+ n +:+ "```"
      +:+ language +:+ n +:+ selectedText +:+ n +:+ "```"
  | debugCode =>
      "Help me debug this " +:+ language
      +:+ " code. Identify potential issues and suggest fixes:" +:+ n +:+ n
      +:+ "```" +:+ language +:+ n +:+ selectedText +:+ n +:+ "```"
  | optimizeCode =>
      "Optimize this " +:+ language
      +:+ " code for better performance and readability:" +:+ n +:+ n
      +:+ "```" +:+ language +:+ n +:+ selectedText +:+ n +:+ "```"
  | generateTests =>
      "Generate comprehensive unit tests for this " +:+ language
      +:+ " code:" +:+ n +:+ n +:+ "```" +:+ language +:+ n
      +:+ selectedText +:+ n +:+ "```"
  end.

(** The mode each command passes to [sendMessage] *)
Definition mode (command : Command) : SearchMode :=
  match command with
  | explainCode => explain
  | debugCode => debug
  | optimizeCode => optimize
  | generateTests => test
  end.

(** The warning of each command for an empty selection *)
Definition select_warning (command : Command) : string :=
  match command with
  | explainCode => "Please select code to explain"
  | debugCode => "Please select code to debug"
  | optimizeCode => "Please select code to optimize"
  | generateTests => "Please select code to generate tests for"
  end.

(** How a command ends: with a warning shown, or with the result of
    [chatManager.sendMessage]. *)
Inductive Outcome : Type :=
  | Warned (message : string)
  | Asked (result : Result loc).

Section Commands.
Variable uuid_src : nat → string.
Variable clock : nat → Date.
Variable streamChatCompletion : list PerplexityMessage → Stream.

(** The handler registered for a command on the selected code, up to
    the focus it gives to the chat view after [sendMessage] returned; a
    rejection of [sendMessage] rejects the handler. *)
Definition run (command : Command) (editor : option Editor) (w : World)
  : Outcome * World :=
  match editor with
  | None => (Warned "No active editor found", w)
  | Some editor =>
      if decide (selectedText editor = EmptyString) then
        (Warned (select_warning command), w)
      else
        let r :=
          sendMessage uuid_src clock streamChatCompletion
            (prompt command (languageId editor) (selectedText editor))
            (mode command) w in
        (Asked r.1, r.2)
  end.
End Commands.
End Extension.

(** ** More vocabulary *)

(** The ids of the stored sessions that [loadSessions] accepts: the
    entries with a truthy [id], in the order of the blob. *)
Definition stored_ids (blob : option (list SessionData)) : list string :=
  omap (λ sd, if truthy (sd_id sd) then sd_id sd else None)
    (default [] blob).

(** The session with the latest [updatedAt] is current, or none when
    the store is empty. *)
Definition latest_is_current (w : World) : Prop :=
  match sessions w with
  | [] => currentSessionId w = None
  | _ :: _ =>
      ∃ k s, (k, s) ∈ sessions w
        ∧ currentSessionId w = Some k
        ∧ ∀ e, e ∈ sessions w →
            (updatedAt_of w e.2 ≤ updatedAt_of w s)%Z
  end.

(** *** The text of a streamed body *)

(** All the text a body delivers, whatever the pieces it comes in. *)
Fixpoint body_text (body : Body) : string :=
  match body with
  | BodyData chunk rest => chunk +:+ body_text rest
  | _ => EmptyString
  end.

(** How a body ends: [None] for its end, the error for its failure. *)
Fixpoint body_failure (body : Body) : option HttpError :=
  match body with
  | BodyData _ rest => body_failure rest
  | BodyEnd => None
  | BodyFail error => Some error
  end.

(** All the bytes of a body, whatever the chunks they come in, and how
    the body ends. *)
Fixpoint raw_bytes (raw : RawBody) : Buffer :=
  match raw with
  | RawData chunk rest => chunk ++ raw_bytes rest
  | _ => []
  end.

Fixpoint raw_failure (raw : RawBody) : option HttpError :=
  match raw with
  | RawData _ rest => raw_failure rest
  | RawEnd => None
  | RawFail error => Some error
  end.

(** Every chunk ends where a character ends: decoding the chunks one by
    one gives the text of the whole body. *)
Definition splits_at_characters (toString : Buffer → string) (raw : RawBody)
  : Prop :=
  body_text (decoded toString raw) = toString (raw_bytes raw).

(** The complete lines of a text: those that end with a line feed. *)
Definition complete_lines (text : string) : list string :=
  take (length (split_lines text) - 1) (split_lines text).

(** The lines before the first line [data: [DONE]]. *)
Fixpoint before_done (lines : list string) : list string :=
  match lines with
  | [] => []
  | line :: rest =>
      if decide (line = "data: [DONE]") then [] else line :: before_done rest
  end.

(** The value a line delivers: the parsed data of a line [data: ...]
    that parses. *)
Definition line_event (JSON_parse : string → option Chunk) (line : string)
  : option Chunk :=
  if String.prefix "data: " line then JSON_parse (slice 6 line) else None.

(** *** Configurations *)

(** [lo ≤ x ≤ hi] on numbers *)
Definition between (lo hi x : Q) : Prop := (lo <= x)%Q ∧ (x <= hi)%Q.

(** The first five words of the prompt of a command, followed by three
    dots. *)
Definition command_title (command : Extension.Command) (language : string)
  : string :=
  match command with
  | Extension.explainCode =>
      "Explain this " +:+ language +:+ " code: ```" +:+ language +:+ "..."
  | Extension.debugCode => "Help me debug this " +:+ language +:+ "..."
  | Extension.optimizeCode =>
      "Optimize this " +:+ language +:+ " code for..."
  | Extension.generateTests => "Generate comprehensive unit tests for..."
  end.

(** *** More scenarios *)

Module Cases.
(** A stand-in for [JSON.parse]: the data is the content of the delta;
    empty data does not parse. *)
Definition parse (data : string) : option Chunk :=
  if decide (data = EmptyString) then None
  else Some (Scenario.text data None).

(** No setting is set. *)
Definition defaults : WorkspaceConfiguration :=
  {| cfg_apiKey := None; cfg_model := None; cfg_temperature := None;
     cfg_maxTokens := None; cfg_enableVoice := None; cfg_autoSave := None;
     cfg_theme := None |}.

(** The API refuses the key. *)
Definition unauthorized : HttpError :=
  {| response := Some {| status := 401; data_error_message := None |};
     code := Some "ERR_BAD_REQUEST";
     message := Some "Request failed with status code 401" |}.

Definition refusing (_ : ChatCompletionRequest) : Response :=
  Rejected unauthorized.

(** A stand-in for [Buffer.prototype.toString]: UTF-8 for the
    characters below 256.  A byte below 128 is its character; the byte
    194 or 195 with a continuation byte after it is the character from
    128 on that the two encode; every other byte gives ['?'], which
    stands for the replacement character. *)
Fixpoint utf8 (bytes : Buffer) : string :=
  match bytes with
  | [] => EmptyString
  | b :: rest =>
      let n := Byte.to_nat b in
      if (n <? 128)%nat then String (ascii_of_nat n) (utf8 rest)
      else
        match rest with
        | c :: rest' =>
            let m := Byte.to_nat c in
            if ((n =? 194)%nat || (n =? 195)%nat)
               && (128 <=? m)%nat && (m <? 192)%nat
            then String (ascii_of_nat ((n - 194) * 64 + m)) (utf8 rest')
            else String "?" (utf8 rest)
        | [] => "?"
        end
  end.

(** Two events and the end of the stream, in one chunk and in three. *)
Definition whole : RawBody :=
  RawData
    (list_byte_of_string
       ("data: Hel" +:+ String LF ("data: lo" +:+ String LF
        ("data: [DONE]" +:+ String LF EmptyString)))) RawEnd.

Definition pieces : RawBody :=
  RawData (list_byte_of_string "data: H")
    (RawData
       (list_byte_of_string
          ("el" +:+ String LF ("data: lo" +:+ String LF "da")))
       (RawData
          (list_byte_of_string ("ta: [DONE]" +:+ String LF EmptyString))
          RawEnd)).

(** An event with the two bytes of a character beyond 127, in one chunk
    and in two chunks that part the character. *)
Definition accented : RawBody :=
  RawData
    (list_byte_of_string "data: caf" ++ [Byte.xc3; Byte.xa9]
     ++ list_byte_of_string (String LF EmptyString)) RawEnd.

Definition parted : RawBody :=
  RawData (list_byte_of_string "data: caf" ++ [Byte.xc3])
    (RawData (Byte.xa9 :: list_byte_of_string (String LF EmptyString))
       RawEnd).

(** A body whose last line is not terminated, and the same body
    without that line. *)
Definition terminated : Body :=
  BodyData ("data: Hel" +:+ String LF EmptyString) BodyEnd.

Definition unterminated : Body :=
  BodyData ("data: Hel" +:+ String LF "data: lo") BodyEnd.

(** A stand-in for [toISOString]: the time value in decimal. *)
Definition iso (d : Date) : string := NilZero.string_of_int (Z.to_int d).

(** The provider once the view is resolved, before any message. *)
Definition panel : ChatProvider.Provider :=
  {| ChatProvider.webview := true; ChatProvider.posted := [] |}.

(** Requests of the webview. *)
Definition ask (type : string) (content sessionId : option string)
  : ChatProvider.Incoming :=
  {| ChatProvider.type := type;
     ChatProvider.content := content;
     ChatProvider.mode := None;
     ChatProvider.sessionId := sessionId |}.

(** An editor with a selection in a TypeScript file. *)
Definition editor : Extension.Editor :=
  {| Extension.languageId := "typescript";
     Extension.selectedText := "const total = prices.reduce(add, 0);" |}.

(** A session as the webview holds it, and a webview that shows it. *)
Definition shown (id title : string) : ChatProvider.SerializedSession :=
  {| ChatProvider.ss_id := id;
     ChatProvider.ss_title := title;
     ChatProvider.ss_messages := [];
     ChatProvider.ss_createdAt := "1000";
     ChatProvider.ss_updatedAt := "1001";
     ChatProvider.ss_mode := general |}.

Definition showing : Webview.State :=
  {| Webview.sessions := [shown "a" "First"; shown "b" "Second"];
     Webview.currentSession := Some (shown "b" "Second");
     Webview.theme := Theme.dark |}.
End Cases.

(** * Properties of the string functions *)

Lemma trimStart_no_space s : starts_with_space (trimStart s) = false.
Proof.
  induction s as [|c s IH]; simpl; [done|].
  destruct (is_space c) eqn:E; [done|]. simpl. by rewrite E.
Qed.

Lemma trimEnd_head s :
  trimEnd s ≠ EmptyString →
  starts_with_space (trimEnd s) = starts_with_space s.
Proof.
  destruct s as [|c s]; simpl; [done|].
  destruct (trimEnd s); [destruct (is_space c) eqn:E|]; simpl; congruence.
Qed.

Lemma trimEnd_idem s : trimEnd (trimEnd s) = trimEnd s.
Proof.
  induction s as [|c s IH]; simpl; [done|].
  destruct (trimEnd s) as [|d t] eqn:E.
  - destruct (is_space c) eqn:Ec; simpl; by rewrite ?Ec.
  - simpl in *. by rewrite IH.
Qed.

Lemma words_of_trimStart s : words_of (trimStart s) = words_of s.
Proof.
  induction s as [|c s IH]; simpl; [done|].
  destruct (is_space c) eqn:E; [done|]. simpl. by rewrite E.
Qed.

Lemma words_of_trimEnd s : words_of (trimEnd s) = words_of s.
Proof.
  induction s as [|c s IH]; simpl; [done|].
  pose proof (trimEnd_head s) as Hh.
  destruct (trimEnd s) as [|d t] eqn:E.
  - simpl in IH. destruct (is_space c) eqn:Ec; simpl; rewrite ?Ec; [done|].
    rewrite <- IH. by destruct (starts_with_space s).
  - remember (String d t) as u eqn:Hu. cbn [words_of].
    rewrite IH, Hh by (by rewrite Hu). done.
Qed.

Lemma words_of_trim s : words_of (trim s) = words_of s.
Proof. unfold trim. by rewrite words_of_trimEnd, words_of_trimStart. Qed.

Lemma words_of_nil s : words_of s = [] → trim s = EmptyString.
Proof.
  unfold trim. induction s as [|c s IH]; simpl; [done|].
  destruct (is_space c) eqn:E; [done|].
  destruct (starts_with_space s); [done|]. by destruct (words_of s).
Qed.

(** On a string without trailing white space, [split] gives the words,
    after an empty piece when the string starts with white space. *)
Lemma split_ws_words t :
  trimEnd t = t → t ≠ EmptyString →
  split_ws t =
    if starts_with_space t then EmptyString :: words_of t else words_of t.
Proof.
  induction t as [|c t IH]; [done|]. intros Ht _.
  simpl in Ht. cbn [split_ws words_of starts_with_space].
  destruct (trimEnd t) as [|d u] eqn:E.
  - destruct (is_space c) eqn:Ec; [done|].
    injection Ht as <-. done.
  - injection Ht as Ht. rewrite Ht in E.
    rewrite IH by (by rewrite ?E, <- ?Ht).
    destruct (is_space c) eqn:Ec; destruct (starts_with_space t); done.
Qed.

Lemma split_ws_trim s :
  split_ws (trim s) =
    match words_of s with [] => [EmptyString] | ws => ws end.
Proof.
  destruct (decide (trim s = EmptyString)) as [E|E].
  - rewrite E. rewrite <- (words_of_trim s), E. done.
  - rewrite split_ws_words; [| apply trimEnd_idem | done].
    unfold trim at 1. rewrite trimEnd_head by done.
    rewrite trimStart_no_space, words_of_trim.
    destruct (words_of s) eqn:Ew; [|done].
    by apply words_of_nil in Ew.
Qed.

Lemma generateSessionTitle_spec message :
  generateSessionTitle message = spec_title message.
Proof.
  unfold generateSessionTitle, spec_title. rewrite split_ws_trim.
  destruct (words_of message) as [|w ws] eqn:E; [done|].
  destruct (Nat.leb_spec (length (w :: ws)) 5) as [H|H];
    destruct (Nat.ltb_spec 5 (length (w :: ws))) as [H'|H']; try lia; done.
Qed.

(** A word is not empty and holds no white space. *)
Definition is_word (s : string) : Prop :=
  s ≠ EmptyString ∧ ∀ c, In c (list_ascii_of_string s) → is_space c = false.

Lemma words_of_are_words s : Forall is_word (words_of s).
Proof.
  induction s as [|c s IH]; simpl; [constructor|].
  destruct (is_space c) eqn:E; [done|].
  assert (is_word (String c EmptyString)) as Hc.
  { split; [done|]. simpl. intros ? [<-|[]]. done. }
  destruct (starts_with_space s); [by constructor|].
  destruct (words_of s) as [|w ws]; [by constructor|].
  inversion_clear IH as [|?? [Hw1 Hw2] Hws]. constructor; [|done].
  split; [done|]. simpl. intros ? [<-|?]; auto.
Qed.

(** * Properties of [Set_from] *)

Lemma foldl_Set_add acc xs :
  foldl Set_add acc xs = acc ++ filter (λ y, y ∉ acc) (first_occurrences xs).
Proof.
  revert acc. induction xs as [|x xs IH]; intros acc; simpl.
  - by rewrite app_nil_r.
  - rewrite IH. unfold Set_add. rewrite filter_cons.
    rewrite list_filter_filter. case_bool_decide as Hx.
    + rewrite decide_False by (intros H; by apply H).
      f_equal. apply list_filter_iff. intros y. split; [|tauto].
      intros Hy. split; [done|]. intros ->. done.
    + rewrite decide_True by done. rewrite <- app_assoc. simpl. do 2 f_equal.
      apply list_filter_iff. intros y. rewrite not_elem_of_app.
      rewrite list_elem_of_singleton. tauto.
Qed.

Lemma Set_from_first_occurrences xs : Set_from xs = first_occurrences xs.
Proof.
  unfold Set_from. rewrite foldl_Set_add. simpl.
  induction (first_occurrences xs) as [|y l IH]; [done|].
  rewrite filter_cons. rewrite decide_True by apply not_elem_of_nil.
  by rewrite IH.
Qed.

Lemma first_occurrences_elem x xs : x ∈ first_occurrences xs ↔ x ∈ xs.
Proof.
  induction xs as [|y xs IH]; simpl; [done|].
  rewrite !elem_of_cons, list_elem_of_filter, IH.
  destruct (decide (x = y)); tauto.
Qed.

Lemma first_occurrences_NoDup xs : NoDup (first_occurrences xs).
Proof.
  induction xs as [|y xs IH]; simpl; constructor.
  - rewrite list_elem_of_filter. tauto.
  - by apply NoDup_filter.
Qed.

(** * The heaps *)

Lemma string_app_cons c (s t : string) :
  String c s +:+ t = String c (s +:+ t).
Proof. reflexivity. Qed.

Lemma string_app_nil_l (s : string) : EmptyString +:+ s = s.
Proof. reflexivity. Qed.

Lemma string_app_nil_r (s : string) : s +:+ EmptyString = s.
Proof.
  induction s as [|c s IH]; [done|]. by rewrite string_app_cons, IH.
Qed.

Lemma string_app_assoc (a b c : string) : (a +:+ b) +:+ c = a +:+ (b +:+ c).
Proof.
  induction a as [|x a IH]; [done|]. by rewrite !string_app_cons, IH.
Qed.

Lemma concat_deltas_cons c chunks :
  concat_deltas (c :: chunks) = delta_text c +:+ concat_deltas chunks.
Proof. reflexivity. Qed.

Lemma concat_deltas_app cs cs' :
  concat_deltas (cs ++ cs') = concat_deltas cs +:+ concat_deltas cs'.
Proof.
  induction cs as [|c cs IH]; [done|].
  rewrite <- app_comm_cons, !concat_deltas_cons, IH.
  by rewrite string_app_assoc.
Qed.

Lemma chunk_content_text c :
  chunk_content c =
    match delta_text c with EmptyString => None | t => Some t end.
Proof.
  unfold chunk_content, delta_text.
  destruct (choices c) as [[|ch ?]|]; try done.
  by destruct (delta ch ≫= delta_content) as [[|??]|].
Qed.

Lemma list_alter_insert {A} (f : A → A) (l : list A) i x :
  l !! i = Some x → alter f i l = <[i := f x]> l.
Proof.
  revert i. induction l as [|y l IH]; intros [|i] H; simplify_eq/=; [done|].
  f_equal. by apply IH.
Qed.

Lemma set_streaming_true_id x :
  ChatMessage.streaming x = Some true → ChatMessage.set_streaming true x = x.
Proof. destruct x; simpl; by intros ->. Qed.

Lemma set_content_id x : ChatMessage.set_content (ChatMessage.content x) x = x.
Proof. by destruct x. Qed.

(** The loop changes nothing but the placeholder, whose content grows by
    the text of each delta, and notifies once for each delta with text. *)
Lemma received_citations_cons c chunks :
  received_citations (c :: chunks)
  = default [] (chunk_citations c) ++ received_citations chunks.
Proof. reflexivity. Qed.

Lemma stream_loop_chunks s p chunks rest fc cits w x :
  msgs w !! p = Some x →
  ChatMessage.content x = fc →
  ChatMessage.streaming x = Some true →
  stream_loop s p (of_chunks chunks rest) fc cits w =
  stream_loop s p rest (fc +:+ concat_deltas chunks)
    (cits ++ received_citations chunks)
    (with_fired
       (fired w ++ replicate
          (length (filter (λ c, delta_text c ≠ EmptyString) chunks)) (Some s))
       (with_msgs
          (<[p := ChatMessage.set_content (fc +:+ concat_deltas chunks) x]>
             (msgs w)) w)).
Proof.
  revert fc cits w x. induction chunks as [|c chunks IH];
    intros fc cits w x Hp Hc Hs.
  - simpl. unfold concat_deltas. simpl.
    rewrite string_app_nil_r, !app_nil_r, <- Hc, set_content_id.
    rewrite list_insert_id by done. by destruct w.
  - cbn [of_chunks foldr stream_loop]. fold (of_chunks chunks rest).
    assert (match chunk_citations c with
            | Some cs => cits ++ cs
            | None => cits
            end = cits ++ default [] (chunk_citations c)) as ->.
    { destruct (chunk_citations c); simpl; by rewrite ?app_nil_r. }
    unfold bind at 1.
    rewrite chunk_content_text, concat_deltas_cons, received_citations_cons.
    rewrite filter_cons, app_assoc.
    destruct (delta_text c) as [|a t] eqn:Et.
    + unfold ret at 1. rewrite (IH _ _ _ x) by done.
      rewrite decide_False by (by intros []).
      by rewrite string_app_nil_l.
    + cbv [bind update_msg modify fire ret].
      rewrite decide_True by done. cbn [msgs with_msgs with_fired fired].
      set (x1 := ChatMessage.set_content (fc +:+ String a t) x).
      rewrite (list_alter_insert (ChatMessage.set_content _) _ _ x) by done.
      rewrite (list_alter_insert _ _ _ x1)
        by (apply list_lookup_insert_eq; by eapply lookup_lt_Some).
      rewrite set_streaming_true_id by done.
      rewrite list_insert_insert_eq.
      rewrite (IH _ _ _ x1); cycle 1.
      { cbn. apply list_lookup_insert_eq. by eapply lookup_lt_Some. }
      { done. }
      { done. }
      cbn. rewrite list_insert_insert_eq.
      rewrite <- !app_assoc, string_app_assoc. done.
Qed.

(** Symbolic execution of the monadic code. *)
Ltac run :=
  cbv [bind ret gets modify throw try_catch uuidv4 new_Date date_or_now
       alloc_obj alloc_arr alloc_msg update_obj update_msg push_message fire
       saveSessions];
  cbn [objs arrs msgs sessions currentSessionId globalState fired uuid_count
       clock_count with_objs with_arrs with_msgs with_sessions with_current
       with_globalState with_fired with_uuid_count with_clock_count
       fst snd].

(** Reduction of the projections of an explicit world. *)
Ltac projs :=
  cbn [objs arrs msgs sessions currentSessionId globalState fired uuid_count
       clock_count] in *.

(** Extending or updating a heap beyond the references of an array does
    not change what the array refers to. *)
Lemma omap_lookup_ext {A} (ms ms' : list A) (a : list loc) :
  (∀ m, m ∈ a → ms' !! m = ms !! m) →
  omap (λ m, ms' !! m) a = omap (λ m, ms !! m) a.
Proof.
  induction a as [|m a IH]; intros H; [done|]. cbn.
  rewrite H by apply list_elem_of_here.
  rewrite IH; [done|]. intros m' Hm'. apply H. by apply list_elem_of_further.
Qed.

Lemma omap_lookup_app {A} (ms ext : list A) (a : list loc) :
  (∀ m, m ∈ a → m < length ms) →
  omap (λ m, (ms ++ ext) !! m) a = omap (λ m, ms !! m) a.
Proof.
  intros H. apply omap_lookup_ext. intros m Hm. apply lookup_app_l. auto.
Qed.

Lemma mapM_lookup_ext {A} (ms ms' : list A) (a : list loc) :
  (∀ m, m ∈ a → ms' !! m = ms !! m) →
  mapM (λ m, ms' !! m) a = mapM (λ m, ms !! m) a.
Proof.
  intros H. apply Forall_mapM_ext, Forall_forall. intros m Hm. by apply H.
Qed.

Lemma lookup_snoc {A} (l : list A) x : (l ++ [x]) !! length l = Some x.
Proof. by rewrite lookup_app_r, Nat.sub_diag. Qed.

Lemma lookup_snoc2 {A} (l : list A) x y :
  (l ++ [x; y]) !! S (length l) = Some y.
Proof.
  rewrite lookup_app_r by lia. by replace (S (length l) - length l) with 1 by lia.
Qed.

(** * The map of sessions *)

Lemma map_get_elem k s m : map_get k m = Some s → (k, s) ∈ m.
Proof.
  induction m as [|[k' v] m IH]; simpl; [done|].
  case_decide; intros ?; simplify_eq; [left|right; auto].
Qed.

Lemma map_get_None k m : map_get k m = None ↔ k ∉ m.*1.
Proof.
  induction m as [|[k' v] m IH]; simpl.
  - split; [intros _; apply not_elem_of_nil|done].
  - rewrite not_elem_of_cons. case_decide; subst; [|tauto].
    split; [done|]. by intros [? _].
Qed.

Lemma map_get_NoDup k s m : NoDup m.*1 → (k, s) ∈ m → map_get k m = Some s.
Proof.
  induction m as [|[k' v] m IH]; simpl; intros Hnd Hin.
  - by apply elem_of_nil in Hin.
  - apply NoDup_cons in Hnd as [Hk Hnd]. apply elem_of_cons in Hin as [?|Hin].
    + simplify_eq. by rewrite decide_True.
    + case_decide; [|auto]. subst. exfalso. apply Hk.
      apply list_elem_of_fmap. by exists (k', s).
Qed.

Lemma map_get_set_eq k v m : map_get k (map_set k v m) = Some v.
Proof.
  induction m as [|[k' v'] m IH]; simpl; [by rewrite decide_True|].
  case_decide; simpl; [by rewrite decide_True|]. by rewrite decide_False.
Qed.

Lemma map_get_set_ne k k' v m :
  k ≠ k' → map_get k' (map_set k v m) = map_get k' m.
Proof.
  intros Hne. induction m as [|[k'' v'] m IH]; simpl.
  - by rewrite decide_False.
  - case_decide; simpl; [subst; by rewrite !decide_False|].
    by rewrite IH.
Qed.

Lemma map_get_set_is_Some k k' v m :
  is_Some (map_get k' m) → is_Some (map_get k' (map_set k v m)).
Proof.
  destruct (decide (k = k')) as [->|Hne].
  - rewrite map_get_set_eq. eauto.
  - by rewrite map_get_set_ne.
Qed.

Lemma Forall_map_set (P : string * loc → Prop) k v m :
  P (k, v) → Forall P m → Forall P (map_set k v m).
Proof.
  intros Hkv. induction 1 as [|[k' v'] m HP Hm IH]; simpl.
  - by constructor.
  - case_decide; by constructor.
Qed.

Lemma map_set_keys_in k v m : k ∈ m.*1 → (map_set k v m).*1 = m.*1.
Proof.
  induction m as [|[k' v'] m IH]; simpl; intros Hin.
  - by apply elem_of_nil in Hin.
  - case_decide as Hk; simpl; [by subst|].
    apply elem_of_cons in Hin as [?|?]; [done|]. f_equal. by apply IH.
Qed.

Lemma map_set_keys_notin k v m :
  k ∉ m.*1 → (map_set k v m).*1 = m.*1 ++ [k].
Proof.
  induction m as [|[k' v'] m IH]; simpl; intros Hin; [done|].
  apply not_elem_of_cons in Hin as [??].
  rewrite decide_False by done. simpl. f_equal. by apply IH.
Qed.

Lemma map_set_NoDup k v m : NoDup m.*1 → NoDup (map_set k v m).*1.
Proof.
  intros Hnd. destruct (decide (k ∈ m.*1)).
  - by rewrite map_set_keys_in.
  - rewrite map_set_keys_notin by done.
    apply NoDup_app. split_and!; [done| |apply NoDup_singleton].
    intros x Hx. rewrite list_elem_of_singleton. by intros ->.
Qed.

Lemma omap_map_set_elem {B} (f : string * loc → option B) k v m x y :
  f (k, v) = Some x → y ∈ omap f (map_set k v m) → y = x ∨ y ∈ omap f m.
Proof.
  intros Hf. induction m as [|[k' v'] m IH]; simpl.
  - rewrite Hf, list_elem_of_singleton. auto.
  - case_decide as Hk; simpl.
    + rewrite Hf, elem_of_cons. intros [?|?]; [by left|right].
      destruct (f (k', v')); [by right|done].
    + destruct (f (k', v')); [|done].
      rewrite !elem_of_cons. intros [?|?]; [by right; left|].
      destruct IH; auto.
Qed.

(** The values of the map after [set]: the new one takes the place of
    the old one for the key, or comes last. *)
Lemma omap_map_set_NoDup {B} (f : string * loc → option B) k v m x :
  f (k, v) = Some x → x ∉ omap f m → NoDup (omap f m) →
  NoDup (omap f (map_set k v m)).
Proof.
  intros Hf. induction m as [|[k' v'] m IH]; simpl; intros Hx Hnd.
  - rewrite Hf. apply NoDup_singleton.
  - case_decide as Hk; simpl.
    + rewrite Hf. destruct (f (k', v')) as [y|].
      * apply not_elem_of_cons in Hx as [_ Hx].
        apply NoDup_cons in Hnd as [_ Hnd]. by constructor.
      * by constructor.
    + destruct (f (k', v')) as [y|]; [|auto].
      apply not_elem_of_cons in Hx as [Hxy Hx].
      apply NoDup_cons in Hnd as [Hy Hnd]. constructor; [|auto].
      intros Hin. eapply omap_map_set_elem in Hin as [?|?]; [|done|done].
      congruence.
Qed.

Lemma map_delete_elem e k m : e ∈ map_delete k m ↔ e ∈ m ∧ e.1 ≠ k.
Proof. unfold map_delete. rewrite list_elem_of_filter. tauto. Qed.

Lemma map_get_delete_ne k k' m :
  k ≠ k' → map_get k' (map_delete k m) = map_get k' m.
Proof.
  intros Hne. unfold map_delete.
  induction m as [|[k'' v] m IH]; simpl; [done|].
  rewrite filter_cons. simpl. destruct (decide (k'' ≠ k)) as [H|H]; simpl.
  - by rewrite IH.
  - apply dec_stable in H. subst. by rewrite decide_False.
Qed.

Lemma map_delete_absent k m : map_get k m = None → map_delete k m = m.
Proof.
  unfold map_delete. induction m as [|[k' v] m IH]; simpl; [done|].
  case_decide; [done|]. intros H'. rewrite filter_cons. simpl.
  rewrite decide_True by done. by rewrite IH.
Qed.

Lemma map_has_get k m : map_has k m = true ↔ is_Some (map_get k m).
Proof.
  unfold map_has. destruct (map_get k m); split; try done; eauto.
Qed.

Lemma elem_of_map_set e k v m : e ∈ map_set k v m → e = (k, v) ∨ e ∈ m.
Proof.
  induction m as [|[k' v'] m IH]; simpl.
  - rewrite list_elem_of_singleton. auto.
  - case_decide; rewrite !elem_of_cons; intros [?|?]; auto.
    destruct IH; auto.
Qed.

(** * Creating a session *)

Lemma alter_snoc {A} (f : A → A) (l : list A) x :
  alter f (length l) (l ++ [x]) = l ++ [f x].
Proof. induction l as [|y l IH]; simpl; [done|]. f_equal. apply IH. Qed.

Lemma getSystemMessage_truthy mode : truthy (getSystemMessage mode) = true.
Proof. by destruct mode. Qed.

Section Create.
Variable uuid_src : nat → string.
Variable clock : nat → Date.

Lemma createNewSession_spec title mode w :
  ∃ blob,
    createNewSession uuid_src clock title mode w =
      (Ok (uuid_src (uuid_count w)),
       mkWorld (objs w ++ [created_session uuid_src clock title mode w])
         (arrs w ++ [[length (msgs w)]])
         (msgs w ++ [created_message uuid_src clock mode w])
         (map_set (uuid_src (uuid_count w)) (length (objs w)) (sessions w))
         (Some (uuid_src (uuid_count w))) (Some blob)
         (fired w ++ [Some (length (objs w))])
         (S (S (uuid_count w))) (S (S (S (clock_count w))))).
Proof.
  destruct w as [os ars ms ss cur gs fs uc cc].
  unfold createNewSession, created_session, created_message. run.
  rewrite getSystemMessage_truthy. run.
  rewrite lookup_snoc. run. cbn. rewrite alter_snoc. cbn.
  eexists. reflexivity.
Qed.
End Create.

(** * Well-formed worlds *)

Lemma omap_ext_elem {A B} (f g : A → option B) (l : list A) :
  (∀ x, x ∈ l → f x = g x) → omap f l = omap g l.
Proof.
  induction l as [|x l IH]; intros H; [done|]. cbn.
  rewrite H by apply list_elem_of_here.
  rewrite IH; [done|]. intros y Hy. apply H. by apply list_elem_of_further.
Qed.

Lemma wf_session_obj w e :
  wf w → e ∈ sessions w →
  ∃ o, objs w !! e.2 = Some o ∧ ChatSession.id o = e.1
       ∧ ChatSession.messages o < length (arrs w).
Proof.
  intros Hwf He. pose proof (wf_sessions _ Hwf) as Hs.
  rewrite Forall_forall in Hs. specialize (Hs _ He).
  destruct (objs w !! e.2) as [o|] eqn:Ho; [|done]. simplify_eq/=.
  exists o. split_and!; [done..|].
  pose proof (wf_objs _ Hwf) as Hb. rewrite Forall_forall in Hb.
  apply Hb. by eapply list_elem_of_lookup_2.
Qed.

Lemma wf_array w a ms :
  wf w → arrs w !! a = Some ms → NoDup ms ∧ ∀ m, m ∈ ms → m < length (msgs w).
Proof.
  intros Hwf Ha. pose proof (wf_arrs _ Hwf) as Hc.
  rewrite Forall_forall in Hc.
  destruct (Hc ms) as [Hnd Hv]; [by eapply list_elem_of_lookup_2|].
  split; [done|]. by rewrite Forall_forall in Hv.
Qed.

Section WfCreate.
Variable uuid_src : nat → string.
Variable clock : nat → Date.

Lemma wf_created title mode w blob :
  wf w →
  wf (mkWorld (objs w ++ [created_session uuid_src clock title mode w])
        (arrs w ++ [[length (msgs w)]])
        (msgs w ++ [created_message uuid_src clock mode w])
        (map_set (uuid_src (uuid_count w)) (length (objs w)) (sessions w))
        (Some (uuid_src (uuid_count w))) blob
        (fired w ++ [Some (length (objs w))])
        (S (S (uuid_count w))) (S (S (S (clock_count w))))).
Proof.
  intros Hwf. split; projs.
  - apply Forall_map_set; cbn.
    + by rewrite lookup_snoc.
    + apply Forall_forall. intros e He.
      destruct (wf_session_obj _ _ Hwf He) as (o & Ho & Hid & _).
      by rewrite (lookup_app_l_Some _ _ _ _ Ho), <- Hid.
  - apply map_set_NoDup, Hwf.
  - rewrite length_app. apply Forall_app. split.
    + eapply Forall_impl; [apply Hwf|]. cbn. intros; lia.
    + apply Forall_singleton. cbn. lia.
  - rewrite length_app. apply Forall_app. split.
    + eapply Forall_impl; [apply Hwf|]. cbn. intros a [Hnd Ha].
      split; [done|]. eapply Forall_impl; [done|]. cbn. intros; lia.
    + apply Forall_singleton. split; [apply NoDup_singleton|].
      apply Forall_singleton. cbn. lia.
  - intros k [= <-] _. rewrite map_get_set_eq. eauto.
  - assert (∀ e, e ∈ sessions w →
      ChatSession.messages <$>
        (objs w ++ [created_session uuid_src clock title mode w]) !! e.2
      = ChatSession.messages <$> objs w !! e.2) as Hext.
    { intros e He. destruct (wf_session_obj _ _ Hwf He) as (o & Ho & _).
      by rewrite (lookup_app_l_Some _ _ _ _ Ho), Ho. }
    eapply (omap_map_set_NoDup _ _ _ _ (length (arrs w))).
    + cbn. by rewrite lookup_snoc.
    + rewrite (omap_ext_elem _ _ _ Hext). intros Hin.
      apply list_elem_of_omap in Hin as (e & He & Hx).
      destruct (wf_session_obj _ _ Hwf He) as (o & Ho & _ & Hlt).
      rewrite Ho in Hx. simplify_eq/=. lia.
    + rewrite (omap_ext_elem _ _ _ Hext). apply Hwf.
Qed.
End WfCreate.

Lemma fmap_lookup_insert_same {A B} (f : A → B) (l : list A) i x y j :
  l !! i = Some x → f y = f x → f <$> (<[i:=y]> l) !! j = f <$> l !! j.
Proof.
  intros Hi Hf. destruct (decide (i = j)) as [->|Hne].
  - rewrite list_lookup_insert_eq by (by eapply lookup_lt_Some).
    rewrite Hi. cbn. by rewrite Hf.
  - by rewrite list_lookup_insert_ne.
Qed.

(** A change of the heaps that keeps the id and the array of every
    session object keeps the world well formed, provided the arrays stay
    valid. *)
Lemma wf_frame w w' :
  wf w →
  sessions w' = sessions w →
  currentSessionId w' = currentSessionId w →
  (∀ j, ChatSession.id <$> objs w' !! j = ChatSession.id <$> objs w !! j) →
  (∀ j, ChatSession.messages <$> objs w' !! j
        = ChatSession.messages <$> objs w !! j) →
  length (arrs w) ≤ length (arrs w') →
  Forall (λ a, NoDup a ∧ Forall (λ m, m < length (msgs w')) a) (arrs w') →
  wf w'.
Proof.
  intros Hwf Hss Hcur Hid Hmsgs Hlen Harrs. split.
  - rewrite Hss. eapply Forall_impl; [apply Hwf|]. cbn. intros e He.
    by rewrite Hid.
  - rewrite Hss. apply Hwf.
  - apply Forall_forall. intros o' Ho'.
    apply list_elem_of_lookup_1 in Ho' as [j Hj].
    specialize (Hmsgs j). rewrite Hj in Hmsgs. cbn in Hmsgs.
    destruct (objs w !! j) as [o|] eqn:Ho; [|done]. simplify_eq/=.
    pose proof (wf_objs _ Hwf) as Hb. rewrite Forall_forall in Hb.
    rewrite Hmsgs. eapply Nat.lt_le_trans; [|done].
    apply Hb. by eapply list_elem_of_lookup_2.
  - done.
  - rewrite Hss, Hcur. apply Hwf.
  - rewrite Hss. erewrite omap_ext_elem; [apply Hwf|].
    intros e _. cbn. apply Hmsgs.
Qed.

Section WfSend.
Variable uuid_src : nat → string.
Variable clock : nat → Date.

Lemma wf_pushed content mode w s o a :
  wf w → active w s o a →
  wf (pushed uuid_src clock content mode w s o a).
Proof.
  intros Hwf (_ & Hobj & Harr).
  destruct (wf_array _ _ _ Hwf Harr) as [Hnd Hv].
  apply (wf_frame w); [done..| | | |]; unfold pushed; projs.
  - intros j. by apply (fmap_lookup_insert_same _ _ _ o).
  - intros j. by apply (fmap_lookup_insert_same _ _ _ o).
  - by rewrite length_insert.
  - rewrite length_app. cbn [length]. apply Forall_insert.
    + eapply Forall_impl; [apply Hwf|]. cbn. intros b [Hb1 Hb2].
      split; [done|]. eapply Forall_impl; [done|]. cbn. intros; lia.
    + split.
      * apply NoDup_app. split_and!; [done| |].
        -- intros m Hm Hin. apply Hv in Hm.
           apply elem_of_cons in Hin as [->|Hin]; [lia|].
           apply list_elem_of_singleton in Hin. lia.
        -- apply NoDup_cons. split; [|apply NoDup_singleton].
           rewrite list_elem_of_singleton. lia.
      * apply Forall_app. split.
        -- apply Forall_forall. intros m Hm. apply Hv in Hm. lia.
        -- repeat constructor; lia.
Qed.
End WfSend.

Lemma wf_check_sound w : wf_check w = true → wf w.
Proof.
  unfold wf_check. rewrite !andb_true_iff, !bool_decide_eq_true.
  intros [[[[[H1 H2] H3] H4] H5] H6]. split; [done..| |done].
  intros k Hk Ht. rewrite Hk, Ht in H5. cbn in H5.
  by apply map_has_get.
Qed.

Lemma wf_initial blob : wf (initial blob).
Proof. by apply wf_check_sound. Qed.

(** * Sending a message *)

Section Send.
Variable uuid_src : nat → string.
Variable clock : nat → Date.

Lemma sendMessage_push_spec content mode w s o a :
  active w s o a →
  (∀ m, m ∈ a → m < length (msgs w)) →
  ∃ api,
    sendMessage_push uuid_src clock content mode w =
      (Ok (s, S (length (msgs w)), api),
       pushed uuid_src clock content mode w s o a).
Proof.
intros [[k [Hcur Hget]] [Hobj Harr]] Hvalid.
unfold pushed, pushed_session, user_message, placeholder.
set (U := ChatMessage.Build _ user _ _ _ _ _).
destruct w as [os ars ms ss cur gs fs uc cc]. projs.
pose proof (lookup_lt_Some _ _ _ Hobj) as Hs.
pose proof (lookup_lt_Some _ _ _ Harr) as Ha.
unfold sendMessage_push. run. rewrite Hcur. cbn. rewrite Hget. cbn.
rewrite Hobj. cbn. run. rewrite Hobj. run.
rewrite (list_alter_insert _ _ _ a) by done.
rewrite (list_alter_insert (ChatSession.set_updatedAt _) _ _ o) by done.
erewrite (list_alter_insert (ChatSession.set_mode _))
  by (by apply list_lookup_insert_eq).
rewrite list_insert_insert_eq.
unfold deref_all, messages_of. cbn.
rewrite list_lookup_insert_eq by done. cbn.
rewrite list_lookup_insert_eq by done. cbn.
rewrite omap_app, omap_lookup_app by done. cbn.
rewrite lookup_snoc. fold U. unfold deref_all. cbn.
destruct (decide (length (filter (λ m, ChatMessage.role m = user)
                            (omap (λ m, ms !! m) a ++ [U])) = 1)) as [E|E];
  cbn.
- erewrite (list_alter_insert (ChatSession.set_title _))
    by (by apply list_lookup_insert_eq).
  rewrite list_insert_insert_eq.
  rewrite list_lookup_insert_eq by done. cbn.
  rewrite list_lookup_insert_eq by done. cbn.
  erewrite list_alter_insert by (by apply list_lookup_insert_eq).
  rewrite list_insert_insert_eq.
  eexists. rewrite length_app, Nat.add_1_r, <- !app_assoc. cbn. reflexivity.
- rewrite list_lookup_insert_eq by done. cbn.
  rewrite list_lookup_insert_eq by done. cbn.
  erewrite list_alter_insert by (by apply list_lookup_insert_eq).
  rewrite list_insert_insert_eq.
  eexists. rewrite length_app, Nat.add_1_r, <- !app_assoc. cbn. reflexivity.
Qed.

Lemma sendMessage_finalize_spec s p fc cits w o x :
  objs w !! s = Some o →
  msgs w !! p = Some x →
  ∃ blob,
    sendMessage_finalize clock s p fc cits w =
      (Ok p,
       mkWorld
         (<[s := ChatSession.set_updatedAt (clock (clock_count w)) o]>
            (objs w))
         (arrs w)
         (<[p := ChatMessage.set_streaming false
                   (ChatMessage.set_citations
                      (if (0 <? length cits)%nat then Some (Set_from cits)
                       else None)
                      (ChatMessage.set_content fc x))]> (msgs w))
         (sessions w) (currentSessionId w) (Some blob)
         (fired w ++ [Some s]) (uuid_count w) (S (clock_count w))).
Proof.
  intros Hobj Hmsg. destruct w as [os ars ms ss cur gs fs uc cc].
  projs. pose proof (lookup_lt_Some _ _ _ Hmsg) as Hp.
  unfold sendMessage_finalize. run.
  rewrite (list_alter_insert (ChatMessage.set_content _) _ _ x) by done.
  erewrite (list_alter_insert (ChatMessage.set_citations _))
    by (by apply list_lookup_insert_eq).
  rewrite list_insert_insert_eq.
  erewrite (list_alter_insert (ChatMessage.set_streaming _))
    by (by apply list_lookup_insert_eq).
  rewrite list_insert_insert_eq.
  rewrite (list_alter_insert _ _ _ o) by done.
  cbn. eexists. reflexivity.
Qed.

Lemma sendMessage_catch_spec s error w o a l x :
  objs w !! s = Some o →
  arrs w !! ChatSession.messages o = Some a →
  last a = Some l →
  msgs w !! l = Some x →
  sendMessage_catch uuid_src clock s error w =
    (Throw error,
     mkWorld
       (<[s := ChatSession.set_messages (length (arrs w)) o]> (objs w))
       (arrs w ++
          [filter (λ m, id_of w m ≠ Some (ChatMessage.id x)) a
           ++ [length (msgs w)]])
       (msgs w ++ [error_message uuid_src clock error w])
       (sessions w) (currentSessionId w) (globalState w)
       (fired w ++ [Some s]) (S (uuid_count w)) (S (clock_count w))).
Proof.
  intros Hobj Harr Hlast Hmsg. destruct w as [os ars ms ss cur gs fs uc cc].
  projs. pose proof (lookup_lt_Some _ _ _ Hobj) as Hs.
  unfold sendMessage_catch, error_message, messages_of. run.
  rewrite Hobj. simpl. rewrite Harr. simpl. rewrite Hlast. simpl.
  unfold id_of at 1. simpl. rewrite Hmsg. simpl. run.
  rewrite (list_alter_insert _ _ _ o) by done.
  rewrite list_lookup_insert_eq by done. cbn.
  rewrite alter_snoc. done.
Qed.

End Send.

Section Ensure.
Variable uuid_src : nat → string.
Variable clock : nat → Date.

Lemma wf_active w k :
  wf w → currentSessionId w = Some k → is_Some (map_get k (sessions w)) →
  ∃ s o a, active w s o a.
Proof.
  intros Hwf Hcur [s Hs].
  destruct (wf_session_obj w (k, s) Hwf) as (o & Ho & _ & Hlt);
    [by apply map_get_elem|].
  destruct (lookup_lt_is_Some_2 _ _ Hlt) as [a Ha].
  exists s, o, a. split_and!; eauto.
Qed.

Lemma ensure_session_spec mode w :
  wf w →
  ensure_session uuid_src clock mode w = (Ok tt, ensured uuid_src clock mode w)
  ∧ wf (ensured uuid_src clock mode w)
  ∧ ∃ s o a, active (ensured uuid_src clock mode w) s o a.
Proof.
  intros Hwf. unfold ensured, ensure_session. run.
  destruct (truthy (currentSessionId w)) eqn:Ht.
  - cbn. split_and!; [done..|].
    destruct (currentSessionId w) as [k|] eqn:Hcur; [|done].
    eapply wf_active; [done..|]. by eapply wf_current.
  - destruct (createNewSession_spec uuid_src clock (Some "New Chat") mode w)
      as [blob ->]. cbn. split_and!; [done|by apply wf_created|].
    eapply wf_active; [by apply wf_created|done|]. cbn.
    rewrite map_get_set_eq. eauto.
Qed.

Lemma sendMessage_start_spec content mode w :
  wf w →
  ∃ s o a api,
    active (ensured uuid_src clock mode w) s o a ∧
    sendMessage_start uuid_src clock content mode w =
      (Ok (s, S (length (msgs (ensured uuid_src clock mode w))), api),
       pushed uuid_src clock content mode
         (ensured uuid_src clock mode w) s o a).
Proof.
  intros Hwf.
  destruct (ensure_session_spec mode w Hwf) as (He & Hwf0 & s & o & a & Hact).
  destruct (sendMessage_push_spec uuid_src clock content mode _ s o a Hact)
    as [api Hpush].
  { destruct Hact as (_ & _ & Ha). by apply (wf_array _ _ _ Hwf0 Ha). }
  exists s, o, a, api. split; [done|].
  unfold sendMessage_start, bind. by rewrite He.
Qed.
End Ensure.

Lemma stream_split stream :
  stream = of_chunks (stream_chunks stream)
             (match stream_error stream with
              | None => Done
              | Some e => Raise e
              end).
Proof. induction stream as [c rest IH| |e]; simpl; congruence. Qed.

Lemma stream_chunks_of_chunks chunks rest :
  stream_chunks (of_chunks chunks rest) = chunks ++ stream_chunks rest.
Proof. induction chunks as [|c chunks IH]; simpl; congruence. Qed.

Section Outcome.
Variable uuid_src : nat → string.
Variable clock : nat → Date.

Lemma stream_loop_streamed s p chunks rest w x :
  msgs w !! p = Some x →
  ChatMessage.content x = EmptyString →
  ChatMessage.streaming x = Some true →
  stream_loop s p (of_chunks chunks rest) EmptyString [] w =
  stream_loop s p rest (concat_deltas chunks) (received_citations chunks)
    (streamed s p x chunks w).
Proof. intros. by rewrite (stream_loop_chunks _ _ _ _ _ _ _ x). Qed.

Lemma sendMessage_stream_done s p chunks w o x :
  objs w !! s = Some o →
  msgs w !! p = Some x →
  ChatMessage.content x = EmptyString →
  ChatMessage.streaming x = Some true →
  ∃ blob,
    sendMessage_stream uuid_src clock s p (of_chunks chunks Done) w =
      (Ok p, finalized clock s p o x chunks blob w).
Proof.
  intros Hobj Hmsg Hc Hs. unfold sendMessage_stream, try_catch, bind.
  rewrite (stream_loop_streamed _ _ _ _ _ x) by done. cbn [stream_loop ret].
  cbn [fst snd].
  edestruct (sendMessage_finalize_spec clock s p (concat_deltas chunks)
               (received_citations chunks) (streamed s p x chunks w) o)
    as [blob ->].
  { done. }
  { cbn. apply list_lookup_insert_eq. by eapply lookup_lt_Some. }
  exists blob. f_equal. unfold finalized, finalized_message. cbn.
  rewrite list_insert_insert_eq. by destruct x.
Qed.

Lemma sendMessage_stream_raise s p chunks error w o a x :
  objs w !! s = Some o →
  arrs w !! ChatSession.messages o = Some a →
  last a = Some p →
  msgs w !! p = Some x →
  ChatMessage.content x = EmptyString →
  ChatMessage.streaming x = Some true →
  sendMessage_stream uuid_src clock s p (of_chunks chunks (Raise error)) w =
    (Throw error, recovered uuid_src clock s p o x a chunks error w).
Proof.
  intros Hobj Harr Hlast Hmsg Hc Hs.
  unfold sendMessage_stream, try_catch, bind.
  rewrite (stream_loop_streamed _ _ _ _ _ x) by done.
  cbn [stream_loop throw].
  erewrite (sendMessage_catch_spec uuid_src clock s error
              (streamed s p x chunks w) o a p); [|done..|]; cycle 1.
  { cbn. apply list_lookup_insert_eq. by eapply lookup_lt_Some. }
  unfold recovered. cbn. rewrite length_insert. do 2 f_equal.
  f_equal. f_equal. f_equal. apply list_filter_iff. intros m. unfold id_of. cbn.
  by rewrite (fmap_lookup_insert_same _ _ _ x).
Qed.
End Outcome.

Section Pushed.
Variable uuid_src : nat → string.
Variable clock : nat → Date.

Lemma pushed_facts content mode w s o a :
  active w s o a →
  let w1 := pushed uuid_src clock content mode w s o a in
  let n := length (msgs w) in
  objs w1 !! s = Some (pushed_session uuid_src clock content mode w o a)
  ∧ arrs w1 !! ChatSession.messages o = Some (a ++ [n; S n])
  ∧ msgs w1 !! n = Some (user_message uuid_src clock content mode w)
  ∧ msgs w1 !! S n = Some (placeholder uuid_src clock w)
  ∧ current_session w1 = current_session w.
Proof.
  intros (_ & Hobj & Harr). unfold pushed. cbn. split_and!.
  - apply list_lookup_insert_eq. by eapply lookup_lt_Some.
  - apply list_lookup_insert_eq. by eapply lookup_lt_Some.
  - by rewrite lookup_app_r, Nat.sub_diag.
  - apply lookup_snoc2.
  - done.
Qed.

Lemma active_current w s o a : active w s o a → current_session w = Some s.
Proof.
  intros ([k [Hcur Hget]] & _). unfold current_session.
  rewrite Hcur. cbn. done.
Qed.
End Pushed.

(** ** C5: the deltas accumulate in receipt order *)

Section Accumulate.
Variable uuid_src : nat → string.
Variable clock : nat → Date.

Lemma sendMessage_partial_spec content mode chunks w s o a api :
  let w0 := ensured uuid_src clock mode w in
  active w0 s o a →
  sendMessage_start uuid_src clock content mode w =
    (Ok (s, S (length (msgs w0)), api),
     pushed uuid_src clock content mode w0 s o a) →
  sendMessage_partial uuid_src clock content mode chunks w =
    (Ok (s, S (length (msgs w0))),
     streamed s (S (length (msgs w0))) (placeholder uuid_src clock w0)
       chunks (pushed uuid_src clock content mode w0 s o a)).
Proof.
  intros w0 Hact Hstart.
  destruct (pushed_facts uuid_src clock content mode w0 s o a Hact)
    as (_ & _ & _ & Hp & _).
  unfold sendMessage_partial, bind. rewrite Hstart. cbn [fst snd].
  rewrite (stream_loop_streamed _ _ _ _ _ _ Hp) by done.
  done.
Qed.

Lemma sendMessage_done_spec respond content mode chunks w :
  wf w →
  respond (api_messages uuid_src clock content mode w)
    = of_chunks chunks Done →
  let w0 := ensured uuid_src clock mode w in
  let p := S (length (msgs w0)) in
  ∃ s o a blob,
    active w0 s o a ∧
    sendMessage_partial uuid_src clock content mode chunks w =
      (Ok (s, p),
       streamed s p (placeholder uuid_src clock w0) chunks
         (pushed uuid_src clock content mode w0 s o a)) ∧
    sendMessage uuid_src clock respond content mode w =
      (Ok p,
       finalized clock s p (pushed_session uuid_src clock content mode w0 o a)
         (placeholder uuid_src clock w0) chunks blob
         (pushed uuid_src clock content mode w0 s o a)).
Proof.
  intros Hwf Hresp w0 p.
  destruct (sendMessage_start_spec uuid_src clock content mode w Hwf)
    as (s & o & a & api & Hact & Hstart).
  destruct (pushed_facts uuid_src clock content mode _ s o a Hact)
    as (Hobj & _ & _ & Hp & _).
  unfold api_messages in Hresp. rewrite Hstart in Hresp.
  edestruct (sendMessage_stream_done uuid_src clock s p chunks _ _ _
               Hobj Hp) as [blob Hdone]; [done..|].
  exists s, o, a, blob. split_and!; [done| |].
  - by eapply sendMessage_partial_spec.
  - unfold sendMessage, bind. rewrite Hstart, Hresp. apply Hdone.
Qed.

Lemma sendMessage_raise_spec respond content mode chunks error w :
  wf w →
  respond (api_messages uuid_src clock content mode w)
    = of_chunks chunks (Raise error) →
  let w0 := ensured uuid_src clock mode w in
  let p := S (length (msgs w0)) in
  ∃ s o a,
    active w0 s o a ∧
    sendMessage uuid_src clock respond content mode w =
      (Throw error,
       recovered uuid_src clock s p
         (pushed_session uuid_src clock content mode w0 o a)
         (placeholder uuid_src clock w0)
         (a ++ [length (msgs w0); p]) chunks error
         (pushed uuid_src clock content mode w0 s o a)).
Proof.
  intros Hwf Hresp w0 p.
  destruct (sendMessage_start_spec uuid_src clock content mode w Hwf)
    as (s & o & a & api & Hact & Hstart).
  destruct (pushed_facts uuid_src clock content mode _ s o a Hact)
    as (Hobj & Harr & _ & Hp & _).
  unfold api_messages in Hresp. rewrite Hstart in Hresp.
  exists s, o, a. split; [done|].
  unfold sendMessage, bind. rewrite Hstart, Hresp.
  eapply sendMessage_stream_raise; [done|done| |done..].
  by rewrite last_app_cons.
Qed.
End Accumulate.

Lemma concat_deltas_take_S chunks n c :
  chunks !! n = Some c →
  concat_deltas (take (S n) chunks)
  = concat_deltas (take n chunks) +:+ delta_text c.
Proof.
  intros Hc. erewrite take_S_r by done.
  rewrite concat_deltas_app. unfold concat_deltas at 2. simpl.
  by rewrite string_app_nil_r.
Qed.

(** C5 - For every finite sequence of stream deltas, [sendMessage] folds
    the content of each delta into the placeholder by appending it in
    receipt order: when it has received the first [n] deltas the
    placeholder holds the concatenation of their contents and is still
    streaming, and after the end of the stream the assistant message it
    returns is the last message of the session, holds the concatenation
    of all contents and has [streaming = false]. *)
Theorem sendMessage_accumulates_deltas
    uuid_src clock respond content mode chunks w :
  wf w →
  respond (api_messages uuid_src clock content mode w)
    = of_chunks chunks Done →
  ∃ s p w' m,
    sendMessage uuid_src clock respond content mode w = (Ok p, w')
    ∧ current_session w' = Some s
    ∧ last (messages_of w' s) = Some p
    ∧ msgs w' !! p = Some m
    ∧ ChatMessage.role m = assistant
    ∧ ChatMessage.content m = concat_deltas chunks
    ∧ ChatMessage.streaming m = Some false
    ∧ ∀ n, n ≤ length chunks →
        ∃ wn mn,
          sendMessage_partial uuid_src clock content mode (take n chunks) w
            = (Ok (s, p), wn)
          ∧ msgs wn !! p = Some mn
          ∧ ChatMessage.content mn = concat_deltas (take n chunks)
          ∧ ChatMessage.streaming mn = Some true.
Proof.
  intros Hwf Hresp.
  destruct (sendMessage_done_spec uuid_src clock respond content mode chunks
              w Hwf Hresp) as (s & o & a & blob & Hact & _ & Hsend).
  destruct (sendMessage_start_spec uuid_src clock content mode w Hwf)
    as (s' & o' & a' & api & Hact' & Hstart).
  assert (s' = s) as ->.
  { apply active_current in Hact, Hact'. congruence. }
  destruct Hact as (Hk & Hobj & Harr), Hact' as (_ & Hobj' & Harr').
  assert (o' = o) as -> by congruence. assert (a' = a) as -> by congruence.
  set (w0 := ensured uuid_src clock mode w) in *.
  destruct (pushed_facts uuid_src clock content mode w0 s o a)
    as (Hobj1 & Harr1 & _ & Hp & Hcur); [done|].
  pose proof (lookup_lt_Some _ _ _ Hobj1) as Hs.
  pose proof (lookup_lt_Some _ _ _ Hp) as Hlt.
  eexists s, _, _, _. split; [exact Hsend|]. split_and!.
  - unfold finalized, current_session. cbn.
    by apply (active_current w0 s o a).
  - unfold finalized, messages_of. cbn -[pushed].
    rewrite list_lookup_insert_eq by done. cbn -[pushed].
    rewrite Harr1. cbn. by rewrite last_app_cons.
  - unfold finalized. cbn -[pushed]. by apply list_lookup_insert_eq.
  - done.
  - done.
  - done.
  - intros n Hn. eexists _, _. split.
    + eapply sendMessage_partial_spec; [split_and!|]; done.
    + split_and!.
      * unfold streamed. cbn -[pushed]. by apply list_lookup_insert_eq.
      * done.
      * done.
Qed.

Lemma filter_all {A} (P : A → Prop) `{∀ x, Decision (P x)} (l : list A) :
  (∀ x, x ∈ l → P x) → filter P l = l.
Proof.
  induction l as [|x l IH]; intros Hl; [done|].
  rewrite filter_cons, decide_True by (apply Hl; left).
  f_equal. apply IH. intros y Hy. apply Hl. by right.
Qed.

Lemma filter_none {A} (P : A → Prop) `{∀ x, Decision (P x)} (l : list A) :
  length (filter P l) = 0 → ∀ x, x ∈ l → ¬ P x.
Proof.
  intros Hlen x Hx HP.
  assert (x ∈ filter P l) as Hin by (by apply list_elem_of_filter).
  destruct (filter P l); [by apply elem_of_nil in Hin|done].
Qed.

Lemma messages_in_eq w s o a :
  objs w !! s = Some o → arrs w !! ChatSession.messages o = Some a →
  messages_in w s = omap (λ m, msgs w !! m) a.
Proof.
  intros Ho Ha. unfold messages_in, deref_all, messages_of.
  rewrite Ho. cbn. by rewrite Ha.
Qed.

(** ** C8: the citations of the finalized message *)

(** C8 - On stream completion the citations of the finalized assistant
    message are the citation URLs received with the chunks, each kept
    once at its first occurrence, and the field is absent when none was
    received. *)
Theorem sendMessage_finalizes_citations
    uuid_src clock respond content mode chunks w :
  wf w →
  respond (api_messages uuid_src clock content mode w)
    = of_chunks chunks Done →
  ∃ p w' m,
    sendMessage uuid_src clock respond content mode w = (Ok p, w')
    ∧ msgs w' !! p = Some m
    ∧ ChatMessage.citations m =
        match received_citations chunks with
        | [] => None
        | urls => Some (first_occurrences urls)
        end
    ∧ ∀ urls, ChatMessage.citations m = Some urls →
        NoDup urls ∧ ∀ u, u ∈ urls ↔ u ∈ received_citations chunks.
Proof.
  intros Hwf Hresp.
  destruct (sendMessage_done_spec uuid_src clock respond content mode chunks
              w Hwf Hresp) as (s & o & a & blob & Hact & _ & Hsend).
  set (w0 := ensured uuid_src clock mode w) in *.
  destruct (pushed_facts uuid_src clock content mode w0 s o a)
    as (_ & _ & _ & Hp & _); [done|].
  pose proof (lookup_lt_Some _ _ _ Hp) as Hlt.
  assert (ChatMessage.citations
            (finalized_message (concat_deltas chunks)
               (received_citations chunks) (placeholder uuid_src clock w0))
          = match received_citations chunks with
            | [] => None
            | urls => Some (first_occurrences urls)
            end) as Hcit.
  { unfold finalized_message. cbn. rewrite Set_from_first_occurrences.
    by destruct (received_citations chunks). }
  eexists _, _, _. split; [exact Hsend|]. split_and!.
  - unfold finalized. cbn -[pushed]. by apply list_lookup_insert_eq.
  - done.
  - intros urls. rewrite Hcit.
    destruct (received_citations chunks) as [|u us] eqn:E; [done|].
    intros [= <-]. split; [apply (first_occurrences_NoDup (u :: us))|].
    intros v. apply (first_occurrences_elem v (u :: us)).
Qed.

(** ** C1: recovery from a failure in the stream *)

(** C1 (amended) - If [sendMessage] is called on a session that holds
    no streaming message, so that no other [sendMessage] is in flight on
    it, and no message with the id drawn for the placeholder, and it
    runs to its end before another operation starts, then, when the
    transport stream fails after the user message and the streaming
    placeholder were appended, the placeholder is removed, exactly one
    assistant message with the error text is appended after the user
    message, which stays as it was, no message is left streaming, and the
    failure is thrown to the caller. *)
Theorem sendMessage_recovers_from_failure
    uuid_src clock respond content mode chunks error w s :
  let w0 := ensured uuid_src clock mode w in
  wf w →
  current_session w0 = Some s →
  streaming_count w0 s = 0 →
  uuid_src (S (uuid_count w0)) ∉
    ChatMessage.id <$>
      (messages_in w0 s ++ [user_message uuid_src clock content mode w0]) →
  respond (api_messages uuid_src clock content mode w)
    = of_chunks chunks (Raise error) →
  ∃ w' e,
    sendMessage uuid_src clock respond content mode w = (Throw error, w')
    ∧ current_session w' = Some s
    ∧ messages_in w' s =
        messages_in w0 s ++ [user_message uuid_src clock content mode w0; e]
    ∧ ChatMessage.role e = assistant
    ∧ ChatMessage.content e = "Error: " +:+ error_text error
    ∧ ChatMessage.streaming e = None
    ∧ streaming_count w' s = 0.
Proof.
  intros w0 Hwf Hcur Hquiet Hfresh Hresp.
  destruct (sendMessage_raise_spec uuid_src clock respond content mode chunks
              error w Hwf Hresp) as (s' & o & a & Hact & Hsend).
  fold w0 in Hact, Hsend.
  assert (s' = s) as ->.
  { apply active_current in Hact. congruence. }
  destruct (ensure_session_spec uuid_src clock mode w Hwf) as (_ & Hwf0 & _).
  fold w0 in Hwf0.
  destruct (pushed_facts uuid_src clock content mode w0 s o a Hact)
    as (Hobj1 & Harr1 & Hu & Hp & _).
  destruct Hact as (Hk & Hobj & Harr).
  destruct (wf_array _ _ _ Hwf0 Harr) as [_ Hvalid].
  pose proof (messages_in_eq _ _ _ _ Hobj Harr) as Hin0.
  set (n := length (msgs w0)) in *.
  set (U := user_message uuid_src clock content mode w0) in *.
  set (P := placeholder uuid_src clock w0) in *.
  set (w1 := pushed uuid_src clock content mode w0 s o a) in *.
  assert (msgs w1 = msgs w0 ++ [U; P]) as Hmsgs1 by done.
  assert (length (arrs w1) = length (arrs w0)) as Hlen1.
  { unfold w1, pushed. cbn. by rewrite length_insert. }
  (* the array after the filter *)
  assert (filter (λ m, id_of w1 m ≠ Some (uuid_src (S (uuid_count w0))))
            (a ++ [n; S n]) = a ++ [n]) as Hfilter.
  { rewrite filter_app, filter_all.
    - f_equal. rewrite filter_cons, decide_True.
      + rewrite filter_cons, decide_False; [done|].
        unfold id_of. rewrite Hp. cbn. by intros [].
      + unfold id_of. rewrite Hu. cbn. intros [= Hid]. apply Hfresh.
        rewrite fmap_app. apply elem_of_app. right. cbn. rewrite Hid. left.
    - intros m Hm. unfold id_of. rewrite Hmsgs1.
      rewrite lookup_app_l by auto.
      destruct (msgs w0 !! m) as [x|] eqn:Hx; [|done]. cbn.
      intros [= Hid]. apply Hfresh.
      rewrite fmap_app. apply elem_of_app. left. rewrite Hin0.
      apply list_elem_of_fmap. exists x. split; [done|].
      apply list_elem_of_omap. eauto. }
  set (w' := recovered _ _ _ _ _ _ _ _ _ _) in Hsend.
  assert (messages_in w' s =
            messages_in w0 s ++ [U; error_message uuid_src clock error w1])
    as Hfinal.
  { unfold w'. erewrite (messages_in_eq (recovered _ _ _ _ _ _ _ _ _ _)); cycle 1.
    + unfold recovered. cbn -[pushed w1].
      apply list_lookup_insert_eq. by eapply lookup_lt_Some.
    + unfold recovered. cbn -[pushed w1]. apply lookup_snoc.
    + fold w1. rewrite Hfilter. unfold recovered. cbn -[pushed w1].
      fold w1. rewrite Hmsgs1, Hin0.
      rewrite <- !app_assoc, !omap_app. f_equal.
      * apply omap_lookup_ext. intros m Hm. apply Hvalid in Hm.
        rewrite lookup_app_l by (rewrite length_insert, length_app; lia).
        rewrite list_lookup_insert_ne by (fold n; lia).
        by rewrite lookup_app_l.
      * cbn. rewrite lookup_app_l
          by (rewrite length_insert, length_app; cbn; lia).
        rewrite list_lookup_insert_ne by lia.
        rewrite lookup_app_r, Nat.sub_diag by done. cbn.
        rewrite length_app. cbn.
        replace (length (msgs w0) + 2) with
          (length (<[S n := ChatMessage.set_content (concat_deltas chunks) P]>
                     (msgs w0 ++ [U; P])))
          by (rewrite length_insert, length_app; done).
        by rewrite lookup_snoc. }
  exists w', (error_message uuid_src clock error w1).
  split_and!; [done..|].
  unfold streaming_count in *. rewrite Hfinal, filter_app, length_app.
  rewrite Hquiet. done.
Qed.

Lemma ensured_truthy uuid_src clock mode w :
  truthy (currentSessionId w) = true → ensured uuid_src clock mode w = w.
Proof. intros Ht. unfold ensured, ensure_session. run. by rewrite Ht. Qed.

Lemma messages_in_pushed uuid_src clock content mode w s o a :
  wf w → active w s o a →
  messages_in (pushed uuid_src clock content mode w s o a) s =
    messages_in w s
    ++ [user_message uuid_src clock content mode w;
        placeholder uuid_src clock w].
Proof.
  intros Hwf Hact.
  destruct (pushed_facts uuid_src clock content mode w s o a Hact)
    as (Hobj1 & Harr1 & _ & _ & _).
  destruct Hact as (_ & Hobj & Harr).
  destruct (wf_array _ _ _ Hwf Harr) as [_ Hvalid].
  rewrite (messages_in_eq _ _ _ _ Hobj1 Harr1), (messages_in_eq _ _ _ _ Hobj Harr).
  unfold pushed. cbn. rewrite omap_app, omap_lookup_app by done.
  f_equal. cbn. rewrite lookup_app_r, Nat.sub_diag by done. cbn.
  by rewrite lookup_snoc2.
Qed.

(** ** C4: a send while a stream is in flight *)

(** C4 (amended) - If [sendMessage] is called while the current session
    already contains a message with [streaming = true], the call is not
    rejected: it appends the user message and one more streaming
    placeholder to the session and goes on to the transport. *)
Theorem sendMessage_start_while_streaming
    uuid_src clock content mode w s :
  wf w →
  truthy (currentSessionId w) = true →
  current_session w = Some s →
  0 < streaming_count w s →
  ∃ p api w',
    sendMessage_start uuid_src clock content mode w = (Ok (s, p, api), w')
    ∧ messages_in w' s =
        messages_in w s
        ++ [user_message uuid_src clock content mode w;
            placeholder uuid_src clock w]
    ∧ streaming_count w' s = S (streaming_count w s).
Proof.
  intros Hwf Ht Hcur _.
  destruct (sendMessage_start_spec uuid_src clock content mode w Hwf)
    as (s' & o & a & api & Hact & Hstart).
  rewrite ensured_truthy in Hact, Hstart by done.
  assert (s' = s) as ->.
  { apply active_current in Hact. congruence. }
  eexists _, _, _. split; [exact Hstart|].
  rewrite messages_in_pushed by done. split; [done|].
  unfold streaming_count. rewrite messages_in_pushed by done.
  rewrite filter_app, length_app.
  rewrite filter_cons, decide_False by done.
  rewrite filter_cons, decide_True by done. cbn. lia.
Qed.

(** ** C7: the title of a session *)

Lemma filter_nil_Forall {A} (P : A → Prop) `{∀ x, Decision (P x)}
    (l : list A) :
  Forall (λ x, ¬ P x) l → filter P l = [].
Proof.
  induction 1 as [|x l Hx Hl IH]; [done|].
  by rewrite filter_cons, decide_False.
Qed.

(** C7 - For every first user message of a session, [sendMessage] sets
    the title of the session to the first five white-space separated
    words of the message joined by single spaces and followed by ["..."]
    when the message has more than five words, and to the message itself
    otherwise; the title stays so whether the stream ends or fails. *)
Theorem first_message_sets_title
    uuid_src clock respond content mode w s :
  let w0 := ensured uuid_src clock mode w in
  wf w →
  current_session w0 = Some s →
  Forall (λ m, ChatMessage.role m ≠ user) (messages_in w0 s) →
  ∃ r w' o',
    sendMessage uuid_src clock respond content mode w = (r, w')
    ∧ objs w' !! s = Some o'
    ∧ ChatSession.title o' =
        if (5 <? length (words_of content))%nat
        then join " " (take 5 (words_of content)) +:+ "..."
        else content.
Proof.
  intros w0 Hwf Hcur Hnone.
  set (stream := respond (api_messages uuid_src clock content mode w)).
  pose proof (stream_split stream) as Hsplit.
  assert (∀ o a, active w0 s o a →
    ChatSession.title (pushed_session uuid_src clock content mode w0 o a)
    = spec_title content) as Htitle.
  { intros o a (_ & Hobj & Harr). unfold pushed_session. cbn.
    rewrite <- generateSessionTitle_spec.
    rewrite decide_True; [done|].
    rewrite filter_app, length_app.
    assert (messages_in w0 s = deref_all w0 a) as <-.
    { unfold messages_in, messages_of. rewrite Hobj. cbn. by rewrite Harr. }
    replace (filter (λ m, ChatMessage.role m = user) (messages_in w0 s))
      with (@nil ChatMessage.t); [done|].
    symmetry. by apply filter_nil_Forall. }
  destruct (ensure_session_spec uuid_src clock mode w Hwf) as (_ & Hwf0 & _).
  destruct (stream_error stream) as [e|] eqn:Hend.
  - destruct (sendMessage_raise_spec uuid_src clock respond content mode
                (stream_chunks stream) e w Hwf Hsplit)
      as (s' & o & a & Hact & Hsend).
    assert (s' = s) as ->.
    { apply active_current in Hact. fold w0 in Hact. congruence. }
    destruct (pushed_facts uuid_src clock content mode _ s o a Hact)
      as (Hobj1 & _).
    eexists _, _, _. split; [exact Hsend|]. split.
    + unfold recovered. cbn -[pushed]. apply list_lookup_insert_eq.
      by eapply lookup_lt_Some.
    + cbn -[spec_title]. by apply Htitle.
  - destruct (sendMessage_done_spec uuid_src clock respond content mode
                (stream_chunks stream) w Hwf Hsplit)
      as (s' & o & a & blob & Hact & _ & Hsend).
    assert (s' = s) as ->.
    { apply active_current in Hact. fold w0 in Hact. congruence. }
    destruct (pushed_facts uuid_src clock content mode _ s o a Hact)
      as (Hobj1 & _).
    eexists _, _, _. split; [exact Hsend|]. split.
    + unfold finalized. cbn -[pushed]. apply list_lookup_insert_eq.
      by eapply lookup_lt_Some.
    + cbn -[spec_title]. by apply Htitle.
Qed.

(** * Sorting and deleting *)

Lemma insert_desc_head key x l :
  head (insert_desc key x l) =
    Some (match head l with
          | Some y => if (key x <? key y)%Z then y else x
          | None => x
          end).
Proof. destruct l as [|y l]; simpl; [done|]. by destruct (_ <? _)%Z. Qed.

Lemma insert_desc_Permutation key x l : insert_desc key x l ≡ₚ x :: l.
Proof.
  induction l as [|y l IH]; simpl; [done|].
  destruct (_ <? _)%Z; [|done]. rewrite IH. apply Permutation_swap.
Qed.

Lemma sort_desc_Permutation key l : sort_desc key l ≡ₚ l.
Proof.
  induction l as [|x l IH]; simpl; [done|].
  by rewrite insert_desc_Permutation, IH.
Qed.

(** The first element of the sorted list has the greatest key. *)
Lemma sort_desc_head key l x :
  head (sort_desc key l) = Some x →
  x ∈ l ∧ ∀ y, y ∈ l → (key y ≤ key x)%Z.
Proof.
  revert x. induction l as [|z l IH]; intros x; simpl; [done|].
  rewrite insert_desc_head. intros [= <-].
  destruct (head (sort_desc key l)) as [y|] eqn:Hy.
  - destruct (IH y eq_refl) as [Hin Hmax].
    destruct (Z.ltb_spec (key z) (key y)).
    + split; [by right|]. intros v [->|Hv]%elem_of_cons; [lia|auto].
    + split; [left|]. intros v [->|Hv]%elem_of_cons; [lia|].
      specialize (Hmax v Hv). lia.
  - split; [left|]. intros v [->|Hv]%elem_of_cons; [lia|].
    assert (sort_desc key l = []) as Hnil by (by destruct (sort_desc key l)).
    pose proof (sort_desc_Permutation key l) as Hp. rewrite Hnil in Hp.
    apply Permutation_nil_l in Hp. subst. by apply elem_of_nil in Hv.
Qed.

Lemma sort_desc_head_None key l : head (sort_desc key l) = None → l = [].
Proof.
  intros H. assert (sort_desc key l = []) as Hnil
    by (by destruct (sort_desc key l)).
  pose proof (sort_desc_Permutation key l) as Hp. rewrite Hnil in Hp.
  by apply Permutation_nil_l in Hp.
Qed.

Lemma insert_desc_sorted key x l :
  StronglySorted (λ a b, (key b ≤ key a)%Z) l →
  StronglySorted (λ a b, (key b ≤ key a)%Z) (insert_desc key x l).
Proof.
  induction 1 as [|y l Hl IH Hy]; simpl.
  - repeat constructor.
  - destruct (Z.ltb_spec (key x) (key y)).
    + constructor; [done|]. rewrite insert_desc_Permutation.
      constructor; [lia|done].
    + constructor; [by constructor|]. constructor; [lia|].
      eapply Forall_impl; [done|]. cbn. intros; lia.
Qed.

(** [getAllSessions] lists the sessions of the map by [updatedAt], latest
    first. *)
Lemma getAllSessions_sorted w :
  getAllSessions w ≡ₚ map_values (sessions w)
  ∧ StronglySorted (λ a b, (updatedAt_of w b ≤ updatedAt_of w a)%Z)
      (getAllSessions w).
Proof.
  unfold getAllSessions. split; [apply sort_desc_Permutation|].
  induction (map_values (sessions w)) as [|x l IH]; simpl; [constructor|].
  by apply insert_desc_sorted.
Qed.


(** The last statements of [deleteSession], which notify the
    subscribers with a copy of the current session, allocate session
    objects and change nothing else. *)
Lemma deleteSession_notify w :
  ∃ w',
    (currentSession <- getCurrentSession ;;
     match currentSession with
     | Some c => c' <- spread c ;; fire c'
     | None => fire None
     end) w = (Ok tt, w')
    ∧ sessions w' = sessions w
    ∧ currentSessionId w' = currentSessionId w
    ∧ globalState w' = globalState w
    ∧ objs w `prefix_of` objs w'
    ∧ arrs w' = arrs w ∧ msgs w' = msgs w
    ∧ objs w' ⊆ objs w.
Proof.
  destruct w as [os ars ms ss cur gs fs uc cc].
  unfold getCurrentSession, getSession, spread. run.
  destruct (truthy cur); run; [|eexists; by split_and!].
  destruct (map_get _ ss) as [s|]; run; [|eexists; by split_and!].
  destruct (os !! s) as [v|] eqn:Hv; run; [|eexists; by split_and!].
  rewrite lookup_snoc. run. eexists. split_and!; try done.
  - cbn. rewrite <- app_assoc. by apply prefix_app_r.
  - cbn. intros x. rewrite !elem_of_app, !list_elem_of_singleton.
    intros [[?| ->]| ->]; [done|by eapply list_elem_of_lookup_2..].
Qed.

(** What [deleteSession] does when the session is in the map. *)
Lemma deleteSession_present k w s o :
  k ≠ EmptyString →
  map_get k (sessions w) = Some s →
  objs w !! s = Some o →
  ∃ w',
    deleteSession k w = (Ok tt, w')
    ∧ sessions w' = map_delete k (sessions w)
    ∧ currentSessionId w' =
        (if decide (currentSessionId w = Some k) then
           ChatSession.id <$>
             (head (getAllSessions
                      (with_sessions (map_delete k (sessions w)) w))
              ≫= (objs w !!.))
         else currentSessionId w)
    ∧ objs w `prefix_of` objs w'
    ∧ arrs w' = arrs w ∧ msgs w' = msgs w
    ∧ objs w' ⊆ objs w
    ∧ globalState w' =
        Some (saved (with_sessions (map_delete k (sessions w)) w)).
Proof.
  intros Hk Hget Hobj. unfold deleteSession.
  unfold bind at 1. unfold gets at 1. unfold map_has. rewrite Hget.
  rewrite bool_decide_eq_false_2 by done. cbn [negb orb].
  unfold bind at 1. unfold gets at 1. rewrite Hget. cbn. rewrite Hobj.
  unfold bind at 1. unfold modify at 1.
  unfold bind at 1. unfold gets at 1. cbn [currentSessionId with_sessions].
  unfold bind at 1.
  destruct (decide (currentSessionId w = Some k)) as [Hc|Hc].
  - unfold bind at 1. unfold gets at 1, modify at 1.
    unfold bind at 1. unfold saveSessions at 1, modify at 1.
    match goal with |- context [bind getCurrentSession _ ?W] =>
      destruct (deleteSession_notify W)
        as (w' & -> & H1 & H2 & H3 & H4 & H5 & H6 & H7)
    end.
    exists w'. split_and!; first [done|rewrite H3; by destruct w].
  - unfold ret at 1.
    unfold bind at 1. unfold saveSessions at 1, modify at 1.
    match goal with |- context [bind getCurrentSession _ ?W] =>
      destruct (deleteSession_notify W)
        as (w' & -> & H1 & H2 & H3 & H4 & H5 & H6 & H7)
    end.
    exists w'. split_and!; first [done|rewrite H3; by destruct w].
Qed.

(** ** C10: deleting an unknown session *)

(** C10 - For every store state and every session id that is not in the
    store, the empty string included, [deleteSession] is a silent no-op:
    it returns without throwing and leaves the map, the current session,
    the persisted blob and the notifications as they were, whereas
    [switchToSession] throws for such an id. *)
Theorem deleteSession_unknown_id uuid_src k w :
  map_get k (sessions w) = None →
  deleteSession k w = (Ok tt, w)
  ∧ ∃ e, switchToSession uuid_src k w = (Throw e, w).
Proof.
  intros Hk. split.
  - unfold deleteSession, bind, gets, map_has. rewrite Hk.
    by rewrite orb_true_r.
  - unfold switchToSession. case_decide; [by eexists|].
    unfold bind, gets. rewrite Hk. by eexists.
Qed.

(** ** C6: deleting a session *)

Lemma updatedAt_of_prefix w w' s :
  objs w `prefix_of` objs w' → s < length (objs w) →
  updatedAt_of w' s = updatedAt_of w s.
Proof.
  intros [ext Hext] Hs. unfold updatedAt_of. rewrite Hext.
  by rewrite lookup_app_l.
Qed.

(** C6 - Deleting the session that is current makes current the remaining
    session with the greatest [updatedAt], or none when no session
    remains; deleting another session leaves the current session as it
    was. *)
Theorem deleteSession_promotes k w :
  wf w →
  k ≠ EmptyString →
  is_Some (map_get k (sessions w)) →
  ∃ w',
    deleteSession k w = (Ok tt, w')
    ∧ sessions w' = map_delete k (sessions w)
    ∧ (currentSessionId w = Some k →
       match sessions w' with
       | [] => currentSessionId w' = None
       | _ :: _ =>
           ∃ k' s', (k', s') ∈ sessions w'
             ∧ currentSessionId w' = Some k'
             ∧ ∀ e, e ∈ sessions w' →
                 (updatedAt_of w' e.2 ≤ updatedAt_of w' s')%Z
       end)
    ∧ (currentSessionId w ≠ Some k →
       currentSessionId w' = currentSessionId w).
Proof.
  intros Hwf Hk [s Hs].
  destruct (wf_session_obj w (k, s) Hwf) as (o & Ho & _);
    [by apply map_get_elem|].
  destruct (deleteSession_present k w s o Hk Hs Ho)
    as (w' & Hdel & Hss & Hcur & Hpre & _ & _).
  exists w'. split_and!; [done..| |].
  - intros Hc. rewrite decide_True in Hcur by done. rewrite Hss.
    unfold getAllSessions in Hcur. cbn [sessions with_sessions] in Hcur.
    set (key := updatedAt_of (with_sessions (map_delete k (sessions w)) w))
      in Hcur.
    destruct (head (sort_desc key (map_values (map_delete k (sessions w)))))
      as [x|] eqn:Hhead.
    + apply sort_desc_head in Hhead as [Hin Hmax].
      apply list_elem_of_fmap in Hin as ([k' x'] & -> & Hin). cbn in *.
      pose proof Hin as Hin'. apply map_delete_elem in Hin' as [Hin' _].
      destruct (wf_session_obj w (k', x') Hwf Hin') as (o' & Ho' & Hid & _).
      cbn in *. rewrite Ho' in Hcur. cbn in Hcur.
      destruct (map_delete k (sessions w)) as [|e0 l] eqn:Hrem;
        [by apply elem_of_nil in Hin|].
      exists k', x'. split_and!; [done|congruence|].
      intros e He. assert (e ∈ sessions w) as He'.
      { rewrite <- Hrem in He. by apply map_delete_elem in He as [? _]. }
      destruct (wf_session_obj w e Hwf He') as (oe & Hoe & _).
      rewrite !(updatedAt_of_prefix w w') by (done || by eapply lookup_lt_Some).
      apply (Hmax e.2). apply list_elem_of_fmap. by exists e.
    + apply sort_desc_head_None in Hhead. unfold map_values in Hhead.
      apply fmap_nil_inv in Hhead. rewrite Hhead. by rewrite Hcur.
  - intros Hc. by rewrite decide_False in Hcur.
Qed.

(** * Reading sessions *)

Lemma store_frame w w' :
  sessions w' = sessions w → arrs w' = arrs w → msgs w' = msgs w →
  (∀ e, e ∈ sessions w → objs w' !! e.2 = objs w !! e.2) →
  store w' = store w.
Proof.
  intros Hss Ha Hm Ho. unfold store. rewrite Hss.
  apply Forall_fmap_ext_1, Forall_forall. intros e He. f_equal.
  unfold snapshot. by rewrite Ho, Ha, Hm.
Qed.


(** ** C9: copies on read *)


(** * Saving and loading *)

Lemma mapM_omap {A B} (f : A → option B) (l : list A) :
  (∀ x, x ∈ l → is_Some (f x)) → mapM f l = Some (omap f l).
Proof.
  induction l as [|x l IH]; intros H; [done|]. cbn.
  destruct (H x) as [y Hy]; [left|]. rewrite Hy. cbn.
  rewrite IH; [done|]. intros z Hz. apply H. by right.
Qed.

Lemma snapshot_wf w e :
  wf w → e ∈ sessions w →
  ∃ o a,
    objs w !! e.2 = Some o ∧ ChatSession.id o = e.1
    ∧ arrs w !! ChatSession.messages o = Some a
    ∧ snapshot w e.2 =
        Some (Snapshot.Build (ChatSession.id o) (ChatSession.title o)
                (deref_all w a) (ChatSession.createdAt o)
                (ChatSession.updatedAt o) (ChatSession.mode o)).
Proof.
  intros Hwf He. destruct (wf_session_obj w e Hwf He) as (o & Ho & Hid & Hlt).
  destruct (lookup_lt_is_Some_2 _ _ Hlt) as [a Ha].
  exists o, a. split_and!; [done..|].
  unfold snapshot. rewrite Ho. cbn. rewrite Ha. cbn.
  rewrite mapM_omap; [done|].
  intros m Hm. apply lookup_lt_is_Some_2. by eapply wf_array.
Qed.

Lemma save_entry_wf w e :
  wf w → e ∈ sessions w →
  ∃ v, snapshot w e.2 = Some v ∧ Snapshot.id v = e.1
       ∧ save_entry w e =
           if decide (e.1 = EmptyString) then [] else [session_data v].
Proof.
  intros Hwf He.
  destruct (snapshot_wf w e Hwf He) as (o & a & Ho & Hid & Ha & Hsnap).
  eexists. split; [exact Hsnap|]. split; [done|].
  unfold save_entry. rewrite Ho. case_decide; [done|]. by rewrite Ha.
Qed.

Lemma snapshot_prefix w w' s v :
  objs w `prefix_of` objs w' → arrs w `prefix_of` arrs w' →
  msgs w `prefix_of` msgs w' →
  snapshot w s = Some v → snapshot w' s = Some v.
Proof.
  intros Ho Ha Hm. unfold snapshot.
  destruct (objs w !! s) as [o|] eqn:Eo; [|done]. cbn.
  rewrite (prefix_lookup_Some _ _ _ _ Eo Ho). cbn.
  destruct (arrs w !! _) as [a|] eqn:Ea; [|done]. cbn.
  rewrite (prefix_lookup_Some _ _ _ _ Ea Ha). cbn.
  destruct (mapM _ a) as [ms|] eqn:Em; [|done]. cbn.
  intros [= <-].
  assert (mapM (λ m, msgs w' !! m) a = Some ms) as ->; [|done].
  apply mapM_Some. apply mapM_Some in Em.
  eapply Forall2_impl; [done|]. cbn. intros m x Hx.
  by eapply prefix_lookup_Some.
Qed.

Section Load.
Variable clock : nat → Date.

Lemma loadable_json m :
  loadable (json_of_message m) =
    if decide (survives_load m)
    then Some (ChatMessage.id m, ChatMessage.role m, ChatMessage.content m)
    else None.
Proof.
  unfold loadable. destruct (decide (survives_load m)) as [[H1 H2]|H].
  - destruct m as [[|??] ? [|??] ????]; cbn in *; done.
  - destruct m as [[|??] ? [|??] ????]; cbn in *; try done.
    exfalso. by apply H.
Qed.

(** Loading the stored messages allocates the surviving ones, in
    order, at the end of the heap. *)
Lemma load_messages_json ms w :
  load_messages clock (json_of_message <$> ms) w =
    let ms' := normalize_message <$> filter survives_load ms in
    (Ok (seq (length (msgs w)) (length ms')), with_msgs (msgs w ++ ms') w).
Proof.
  revert w. induction ms as [|m ms IH]; intros w.
  - cbn. unfold ret. rewrite app_nil_r. by destruct w.
  - cbn [fmap list_fmap load_messages]. rewrite loadable_json.
    rewrite filter_cons. destruct (decide (survives_load m)) as [Hm|Hm].
    + run. cbn [md_timestamp json_of_message]. run. rewrite IH.
      cbn. rewrite length_app. cbn. rewrite Nat.add_1_r, <- app_assoc.
      by destruct m.
    + apply IH.
Qed.

Lemma or_default_empty s : or_default (Some s) EmptyString = s.
Proof. by destruct s. Qed.

Lemma or_default_idem s d :
  or_default (Some (or_default (Some s) d)) d = or_default (Some s) d.
Proof. destruct s; [by destruct d|done]. Qed.

Lemma load_session_data v w :
  Snapshot.id v ≠ EmptyString →
  load_session clock (session_data v) w =
    (Ok tt,
     mkWorld
       (objs w ++
          [ChatSession.Build (Snapshot.id v)
             (or_default (Some (Snapshot.title v)) "Untitled")
             (length (arrs w)) (Snapshot.createdAt v)
             (Snapshot.updatedAt v) (Snapshot.mode v)])
       (arrs w ++
          [seq (length (msgs w))
             (length (filter survives_load (Snapshot.messages v)))])
       (msgs w ++
          (normalize_message <$>
             filter survives_load (Snapshot.messages v)))
       (map_set (Snapshot.id v) (length (objs w)) (sessions w))
       (currentSessionId w) (globalState w) (fired w) (uuid_count w)
       (clock_count w)).
Proof.
  intros Hid. unfold load_session, session_data.
  cbn [sd_id sd_title sd_messages sd_createdAt sd_updatedAt sd_mode].
  assert (truthy (Some (Snapshot.id v)) = true) as ->.
  { by destruct (Snapshot.id v). }
  unfold bind at 1. rewrite load_messages_json. cbn zeta.
  run. rewrite or_default_empty, or_default_idem, length_fmap. cbn.
  by destruct w.
Qed.

Lemma mapM_lookup_seq {A} (l l' : list A) :
  mapM (λ i, (l ++ l') !! i) (seq (length l) (length l')) = Some l'.
Proof.
  revert l. induction l' as [|x l' IH]; intros l; [done|].
  cbn [length seq mapM]. rewrite lookup_app_r, Nat.sub_diag by done. cbn.
  replace (l ++ x :: l') with ((l ++ [x]) ++ l')
    by (by rewrite <- app_assoc).
  replace (S (length l)) with (length (l ++ [x]))
    by (rewrite length_app; cbn; lia).
  by rewrite IH.
Qed.

Lemma map_set_fresh k v m : k ∉ m.*1 → map_set k v m = m ++ [(k, v)].
Proof.
  induction m as [|[k' v'] m IH]; intros Hk; [done|].
  cbn in Hk. apply not_elem_of_cons in Hk as [??].
  cbn. rewrite decide_False by done. f_equal. auto.
Qed.

(** Loading stored sessions with fresh ids appends them to the map and
    leaves the sessions already there as they were. *)
Lemma load_all_spec vs w :
  Forall (λ v, Snapshot.id v ≠ EmptyString) vs →
  NoDup (Snapshot.id <$> vs) →
  (∀ v, v ∈ vs → Snapshot.id v ∉ (sessions w).*1) →
  Forall (λ e, is_Some (snapshot w e.2)) (sessions w) →
  ∃ w',
    load_all clock (session_data <$> vs) w = (Ok tt, w')
    ∧ store w' =
        store w ++ ((λ v, (Snapshot.id v, Some (reloaded v))) <$> vs)
    ∧ currentSessionId w' = currentSessionId w.
Proof.
  revert w. induction vs as [|v vs IH]; intros w Hids Hnd Hfresh Hclosed.
  - exists w. cbn. by rewrite app_nil_r.
  - apply Forall_cons in Hids as [Hid Hids].
    cbn in Hnd. apply NoDup_cons in Hnd as [Hv Hnd].
    cbn [fmap list_fmap load_all]. unfold bind at 1.
    rewrite load_session_data by done.
    set (w1 := mkWorld _ _ _ _ _ _ _ _ _).
    assert (sessions w1 = sessions w ++ [(Snapshot.id v, length (objs w))])
      as Hss.
    { unfold w1. cbn. apply map_set_fresh, Hfresh. left. }
    assert (snapshot w1 (length (objs w)) = Some (reloaded v)) as Hnew.
    { unfold snapshot, w1. cbn. rewrite lookup_snoc. cbn.
      rewrite lookup_snoc. cbn.
      rewrite <- (length_fmap normalize_message
                    (filter survives_load (Snapshot.messages v))).
      by rewrite mapM_lookup_seq. }
    assert (∀ e, e ∈ sessions w → snapshot w1 e.2 = snapshot w e.2) as Hold.
    { intros e He. rewrite Forall_forall in Hclosed.
      destruct (Hclosed e He) as [x Hx]. rewrite Hx.
      eapply snapshot_prefix; [..|done]; unfold w1; cbn;
        by apply prefix_app_r. }
    assert (store w1 = store w ++ [(Snapshot.id v, Some (reloaded v))])
      as Hstore.
    { unfold store. rewrite Hss, fmap_app. cbn. rewrite Hnew. f_equal.
      apply Forall_fmap_ext_1, Forall_forall. intros e He.
      by rewrite Hold. }
    destruct (IH w1) as (w' & Hload & Hst & Hcur); [done|done| |  |].
    + intros v' Hv'. rewrite Hss, fmap_app. cbn.
      rewrite not_elem_of_app. split; [apply Hfresh; by right|].
      rewrite list_elem_of_singleton. intros Heq. apply Hv.
      rewrite <- Heq. apply list_elem_of_fmap. by exists v'.
    + rewrite Hss. apply Forall_app. split.
      * apply Forall_forall. intros e He. rewrite Hold by done.
        rewrite Forall_forall in Hclosed. auto.
      * apply Forall_singleton. cbn. by rewrite Hnew.
    + exists w'. split_and!; [done| |done].
      rewrite Hst, Hstore, <- app_assoc. done.
Qed.
End Load.

Lemma saved_blob w :
  wf w →
  (∀ e, e ∈ sessions w → e.1 ≠ EmptyString) →
  ∃ vs,
    flat_map (save_entry w) (sessions w) = session_data <$> vs
    ∧ store w = (λ v, (Snapshot.id v, Some v)) <$> vs
    ∧ Snapshot.id <$> vs = (sessions w).*1.
Proof.
  intros Hwf Hkeys. unfold store.
  assert (∀ e, e ∈ sessions w →
    ∃ v, snapshot w e.2 = Some v ∧ Snapshot.id v = e.1
         ∧ save_entry w e = [session_data v]) as Hall.
  { intros e He. destruct (save_entry_wf w e Hwf He) as (v & H1 & H2 & H3).
    exists v. split_and!; [done..|]. by rewrite decide_False in H3 by auto. }
  clear Hkeys. induction (sessions w) as [|e ss IH].
  - by exists [].
  - destruct (Hall e) as (v & Hv & Hid & Hsave); [left|].
    destruct IH as (vs & H1 & H2 & H3).
    { intros e' He'. apply Hall. by right. }
    exists (v :: vs). cbn. rewrite Hsave, H1, H2, H3, Hv, Hid. done.
Qed.

Lemma store_with_current w c : store (with_current c w) = store w.
Proof. done. Qed.

Lemma save_then_load_store clock w :
  wf w →
  (∀ e, e ∈ sessions w → e.1 ≠ EmptyString) →
  store (save_then_load clock w) = map_store reloaded (store w).
Proof.
  intros Hwf Hkeys.
  destruct (saved_blob w Hwf Hkeys) as (vs & Hblob & Hstore & Hids).
  unfold save_then_load, saveSessions, modify. cbn [snd globalState with_globalState].
  rewrite Hblob, Hstore. unfold construct, loadSessions.
  unfold bind at 1, gets at 1. cbn [globalState initial default].
  unfold bind at 1, modify at 1. unfold bind at 1. unfold id.
  destruct (load_all_spec clock vs (with_sessions [] (initial (Some (session_data <$> vs)))))
    as (w' & -> & Hst & _).
  - apply Forall_forall. intros v Hv.
    assert (Snapshot.id v ∈ (sessions w).*1) as Hin.
    { rewrite <- Hids. apply list_elem_of_fmap. by exists v. }
    apply list_elem_of_fmap in Hin as (e & -> & He). by apply Hkeys.
  - rewrite Hids. apply Hwf.
  - intros v _. cbn. apply not_elem_of_nil.
  - cbn. constructor.
  - unfold bind, gets, map_store.
    assert (∀ c, store (with_current c w') =
              (λ e : string * option Snapshot.t, (e.1, reloaded <$> e.2)) <$>
                ((λ v, (Snapshot.id v, Some v)) <$> vs)) as Hc.
    { intros c. rewrite store_with_current, Hst. cbn.
      by rewrite <- list_fmap_compose. }
    destruct (head _ ≫= _); cbn; [apply Hc|].
    specialize (Hc (currentSessionId w')). by destruct w'.
Qed.

(** ** C3: saving and loading *)

(** C3 (amended) - For every well-formed session set in which the ids and
    titles of the sessions and the ids and contents of the messages are
    not empty, saving it and loading the saved blob yields the same
    sessions in the same order, with equal ids, titles, modes and dates
    and with the same messages in the same order, equal in id, role,
    content and timestamp, in which an absent [citations], [mode] or
    [streaming] has become [[]], [general] or [false]. *)
Theorem save_then_load_preserves clock w :
  wf w →
  Forall (λ e, e.1 ≠ EmptyString) (sessions w) →
  Forall (λ e, from_option well_stored True e.2) (store w) →
  store (save_then_load clock w) = map_store normalized (store w).
Proof.
  intros Hwf Hkeys Hgood. rewrite Forall_forall in Hkeys.
  rewrite Forall_forall in Hgood.
  rewrite save_then_load_store by done.
  unfold map_store. apply Forall_fmap_ext_1, Forall_forall.
  intros [k [v|]] He; [|done].
  cbn. do 2 f_equal. destruct (Hgood _ He) as [Ht Hm].
  unfold reloaded, normalized. f_equal.
  - by destruct (Snapshot.title v).
  - f_equal. apply filter_all. by apply Forall_forall.
Qed.

(** * Between two operations *)

Lemma NoDup_seq' n k : NoDup (seq n k).
Proof. apply NoDup_ListNoDup, List.seq_NoDup. Qed.

(** A new session object with a new array of new messages, put in the
    map under its id. *)
Lemma wf_alloc_session w o new cur gs fs uc cc :
  wf w →
  ChatSession.messages o = length (arrs w) →
  (cur = currentSessionId w ∨ cur = Some (ChatSession.id o)) →
  wf (mkWorld (objs w ++ [o])
        (arrs w ++ [seq (length (msgs w)) (length new)])
        (msgs w ++ new)
        (map_set (ChatSession.id o) (length (objs w)) (sessions w))
        cur gs fs uc cc).
Proof.
  intros Hwf Hmsgs Hcur. split; projs.
  - apply Forall_map_set; cbn.
    + by rewrite lookup_snoc.
    + apply Forall_forall. intros e He.
      destruct (wf_session_obj _ _ Hwf He) as (o' & Ho & Hid & _).
      by rewrite (lookup_app_l_Some _ _ _ _ Ho), <- Hid.
  - apply map_set_NoDup, Hwf.
  - rewrite length_app. apply Forall_app. split.
    + eapply Forall_impl; [apply Hwf|]. cbn. intros; lia.
    + apply Forall_singleton. cbn. lia.
  - rewrite length_app. apply Forall_app. split.
    + eapply Forall_impl; [apply Hwf|]. cbn. intros a [Hnd Ha].
      split; [done|]. eapply Forall_impl; [done|]. cbn. intros; lia.
    + apply Forall_singleton. split; [apply NoDup_seq'|].
      apply Forall_forall. intros m Hm. apply elem_of_seq in Hm. lia.
  - intros k Hk Ht. destruct Hcur as [->| ->].
    + apply map_get_set_is_Some. by eapply wf_current.
    + simplify_eq. rewrite map_get_set_eq. eauto.
  - assert (∀ e, e ∈ sessions w →
      ChatSession.messages <$> (objs w ++ [o]) !! e.2
      = ChatSession.messages <$> objs w !! e.2) as Hext.
    { intros e He. destruct (wf_session_obj _ _ Hwf He) as (o' & Ho & _).
      by rewrite (lookup_app_l_Some _ _ _ _ Ho), Ho. }
    eapply (omap_map_set_NoDup _ _ _ _ (length (arrs w))).
    + cbn. by rewrite lookup_snoc, <- Hmsgs.
    + rewrite (omap_ext_elem _ _ _ Hext). intros Hin.
      apply list_elem_of_omap in Hin as (e & He & Hx).
      destruct (wf_session_obj _ _ Hwf He) as (o' & Ho & _ & Hlt).
      rewrite Ho in Hx. simplify_eq/=. lia.
    + rewrite (omap_ext_elem _ _ _ Hext). apply Hwf.
Qed.

(** The messages of a session of a well-formed world do not change when
    the heaps are extended. *)
Lemma messages_of_prefix w w' e :
  wf w → e ∈ sessions w →
  objs w `prefix_of` objs w' → arrs w `prefix_of` arrs w' →
  messages_of w' e.2 = messages_of w e.2.
Proof.
  intros Hwf He Ho Ha.
  destruct (snapshot_wf w e Hwf He) as (o & a & Hobj & _ & Harr & _).
  unfold messages_of. rewrite Hobj, (prefix_lookup_Some _ _ _ _ Hobj Ho). cbn.
  by rewrite Harr, (prefix_lookup_Some _ _ _ _ Harr Ha).
Qed.

Lemma messages_of_valid w e m :
  wf w → e ∈ sessions w → m ∈ messages_of w e.2 → m < length (msgs w).
Proof.
  intros Hwf He Hm.
  destruct (snapshot_wf w e Hwf He) as (o & a & Hobj & _ & Harr & _).
  unfold messages_of in Hm. rewrite Hobj in Hm. cbn in Hm.
  rewrite Harr in Hm. cbn in Hm. by eapply wf_array.
Qed.

(** Extending the heaps keeps the sessions of the map quiet. *)
Lemma quiet_prefix w w' :
  wf w → quiet w →
  sessions w' = sessions w →
  objs w `prefix_of` objs w' → arrs w `prefix_of` arrs w' →
  msgs w `prefix_of` msgs w' →
  quiet w'.
Proof.
  intros Hwf Hq Hss Ho Ha Hm e m x He Hin Hx. rewrite Hss in He.
  rewrite (messages_of_prefix w w') in Hin by done.
  pose proof (messages_of_valid w e m Hwf He Hin) as Hlt.
  destruct (lookup_lt_is_Some_2 _ _ Hlt) as [y Hy].
  rewrite (prefix_lookup_Some _ _ _ _ Hy Hm) in Hx. simplify_eq.
  by eapply Hq.
Qed.

(** A new session with new messages that are not streaming keeps the
    map quiet. *)
Lemma quiet_alloc_session w o new cur gs fs uc cc :
  wf w → quiet w →
  ChatSession.messages o = length (arrs w) →
  Forall (λ x, ChatMessage.is_streaming x = false) new →
  quiet (mkWorld (objs w ++ [o])
           (arrs w ++ [seq (length (msgs w)) (length new)])
           (msgs w ++ new)
           (map_set (ChatSession.id o) (length (objs w)) (sessions w))
           cur gs fs uc cc).
Proof.
  intros Hwf Hq Hmsgs Hnew e m x He Hin Hx. projs.
  apply elem_of_map_set in He as [->|He].
  - unfold messages_of in Hin. cbn in Hin. rewrite lookup_snoc in Hin.
    cbn in Hin. rewrite Hmsgs, lookup_snoc in Hin. cbn in Hin.
    apply elem_of_seq in Hin. rewrite lookup_app_r in Hx by lia.
    rewrite Forall_forall in Hnew. apply Hnew.
    by eapply list_elem_of_lookup_2.
  - set (w' := mkWorld _ _ _ _ _ _ _ _ _) in *.
    rewrite (messages_of_prefix w w') in Hin
      by (done || by apply prefix_app_r).
    pose proof (messages_of_valid w e m Hwf He Hin) as Hlt.
    rewrite lookup_app_l in Hx by done. by eapply Hq.
Qed.

Lemma Forall_flat_map {A B} (P : B → Prop) (f : A → list B) (l : list A) :
  (∀ x, x ∈ l → Forall P (f x)) → Forall P (flat_map f l).
Proof.
  induction l as [|x l IH]; intros H; cbn; [constructor|].
  apply Forall_app. split; [apply H; left|].
  apply IH. intros y Hy. apply H. by right.
Qed.

Lemma is_streaming_false x :
  ChatMessage.is_streaming x = false ↔ ChatMessage.streaming x ≠ Some true.
Proof.
  unfold ChatMessage.is_streaming.
  destruct (ChatMessage.streaming x) as [[]|]; split; congruence.
Qed.

(** What a quiet world saves is quiet. *)
Lemma saved_quiet w : quiet w → blob_quiet (Some (saved w)).
Proof.
  intros Hq. unfold blob_quiet, saved. cbn. apply Forall_flat_map.
  intros e He. unfold save_entry.
  destruct (objs w !! e.2) as [o|] eqn:Ho; [|constructor].
  case_decide; [constructor|].
  destruct (arrs w !! ChatSession.messages o) as [a|] eqn:Ha; [|constructor].
  apply Forall_singleton. cbn. apply Forall_fmap, Forall_forall.
  intros x Hx. cbn. apply is_streaming_false.
  apply list_elem_of_omap in Hx as (m & Hm & Hx).
  eapply (Hq e m); [done| |done].
  unfold messages_of. rewrite Ho. cbn. by rewrite Ha.
Qed.

(** [saveSessions] reads the heaps and the map only. *)
Lemma saved_frame w w' :
  objs w' = objs w → arrs w' = arrs w → msgs w' = msgs w →
  sessions w' = sessions w → saved w' = saved w.
Proof.
  intros Ho Ha Hm Hs. unfold saved, save_entry, deref_all.
  by rewrite Ho, Ha, Hm, Hs.
Qed.

Section Settled.
Variable uuid_src : nat → string.
Variable clock : nat → Date.

Lemma createNewSession_saved title mode w :
  let w' := (createNewSession uuid_src clock title mode w).2 in
  globalState w' = Some (saved w').
Proof.
  destruct w as [os ars ms ss cur gs fs uc cc].
  unfold createNewSession. run. rewrite getSystemMessage_truthy. run.
  rewrite lookup_snoc. run. cbn. reflexivity.
Qed.

Lemma settled_createNewSession title mode w :
  settled w → settled (createNewSession uuid_src clock title mode w).2.
Proof.
  intros (Hwf & Hq & _).
  pose proof (createNewSession_saved title mode w) as Hsaved.
  destruct (createNewSession_spec uuid_src clock title mode w) as [blob Hc].
  rewrite Hc in Hsaved |- *. cbn [snd] in *.
  assert (quiet (mkWorld (objs w ++ [created_session uuid_src clock title mode w])
           (arrs w ++ [[length (msgs w)]])
           (msgs w ++ [created_message uuid_src clock mode w])
           (map_set (uuid_src (uuid_count w)) (length (objs w)) (sessions w))
           (Some (uuid_src (uuid_count w))) (Some blob)
           (fired w ++ [Some (length (objs w))])
           (S (S (uuid_count w))) (S (S (S (clock_count w)))))) as Hq'.
  { apply (quiet_alloc_session w (created_session uuid_src clock title mode w)
             [created_message uuid_src clock mode w]); try done.
    by repeat constructor. }
  split_and!.
  - by apply wf_created.
  - done.
  - rewrite Hsaved. by apply saved_quiet.
Qed.
End Settled.

(** From two to one: with a single possible streaming message and arrays
    without repetition, a session has at most one streaming message. *)
Lemma filter_omap_at_most_one {A} (f : nat → option A) (P : A → Prop)
    `{∀ x, Decision (P x)} (p : nat) (a : list nat) :
  NoDup a →
  (∀ m x, m ∈ a → f m = Some x → P x → m = p) →
  length (filter P (omap f a)) ≤ 1.
Proof.
  induction a as [|m a IH]; intros Hnd Hp; [cbn; lia|].
  apply NoDup_cons in Hnd as [Hm Hnd].
  change (omap f (m :: a)) with
    (match f m with Some x => x :: omap f a | None => omap f a end).
  destruct (f m) as [x|] eqn:Hx.
  - rewrite filter_cons. destruct (decide (P x)) as [HP|HP].
    + assert (m = p) as -> by (eapply Hp; [left|done..]).
      rewrite filter_nil_Forall; [done|].
      apply Forall_forall. intros y Hy HPy.
      apply list_elem_of_omap in Hy as (m' & Hm' & Hy).
      assert (m' = p) as -> by (eapply Hp; [by right|done..]). done.
    + apply IH; [done|]. intros m' x' Hm'. apply Hp. by right.
  - apply IH; [done|]. intros m' x' Hm'. apply Hp. by right.
Qed.

Lemma messages_of_NoDup w s : wf w → NoDup (messages_of w s).
Proof.
  intros Hwf. unfold messages_of.
  destruct (objs w !! s) as [o|]; cbn; [|constructor].
  destruct (arrs w !! ChatSession.messages o) as [a|] eqn:Ha; cbn;
    [|constructor].
  by eapply wf_array.
Qed.

Lemma streaming_only_count p w s :
  wf w → streaming_only p w → s ∈ map_values (sessions w) →
  streaming_count w s ≤ 1.
Proof.
  intros Hwf Hp Hs. apply list_elem_of_fmap in Hs as (e & -> & He).
  unfold streaming_count, messages_in, deref_all.
  apply (filter_omap_at_most_one _ _ p); [by apply messages_of_NoDup|].
  intros m x Hm Hx Hstr. by eapply Hp.
Qed.

Lemma quiet_count w s :
  quiet w → s ∈ map_values (sessions w) → streaming_count w s = 0.
Proof.
  intros Hq Hs. apply list_elem_of_fmap in Hs as (e & -> & He).
  unfold streaming_count, messages_in, deref_all.
  rewrite filter_nil_Forall; [done|]. apply Forall_forall.
  intros x Hx. apply list_elem_of_omap in Hx as (m & Hm & Hx).
  rewrite (Hq e m x); done.
Qed.

Section SettledSend.
Variable uuid_src : nat → string.
Variable clock : nat → Date.

Lemma settled_ensured mode w :
  settled w → settled (ensured uuid_src clock mode w).
Proof.
  intros Hs. unfold ensured, ensure_session. run.
  destruct (truthy (currentSessionId w)); [done|].
  destruct (createNewSession uuid_src clock (Some "New Chat") mode w)
    as [[r|r] w'] eqn:Hc; cbn;
    by rewrite (surjective_pairing (createNewSession _ _ _ _ _)) in Hc;
       simplify_eq; apply settled_createNewSession.
Qed.

(** What the arrays of the sessions hold once the user message and the
    placeholder are pushed. *)
Lemma messages_of_pushed content mode w s o a e m :
  wf w → active w s o a → e ∈ sessions w →
  m ∈ messages_of (pushed uuid_src clock content mode w s o a) e.2 →
  m ∈ messages_of w e.2 ∨ m = length (msgs w) ∨ m = S (length (msgs w)).
Proof.
  intros Hwf (_ & Hobj & Harr) He.
  destruct (snapshot_wf w e Hwf He) as (oe & ae & Hoe & _ & Hae & _).
  assert (∃ oe', (<[s := pushed_session uuid_src clock content mode w o a]>
                    (objs w)) !! e.2 = Some oe'
                 ∧ ChatSession.messages oe' = ChatSession.messages oe)
    as (oe' & Hoe' & Href).
  { destruct (decide (s = e.2)) as [->|Hne].
    - eexists. rewrite list_lookup_insert_eq by (by eapply lookup_lt_Some).
      split; [done|]. cbn. congruence.
    - exists oe. by rewrite list_lookup_insert_ne. }
  unfold messages_of, pushed. cbn. rewrite Hoe, Hoe'. cbn.
  rewrite Href, Hae. cbn.
  destruct (decide (ChatSession.messages o = ChatSession.messages oe))
    as [Heq|Hne].
  - rewrite <- Heq, list_lookup_insert_eq by (by eapply lookup_lt_Some). cbn.
    rewrite <- Heq in Hae. simplify_eq.
    rewrite elem_of_app, !elem_of_cons, elem_of_nil. tauto.
  - rewrite list_lookup_insert_ne by done. rewrite Hae. cbn. auto.
Qed.

Lemma streaming_only_pushed content mode w s o a :
  wf w → quiet w → active w s o a →
  streaming_only (S (length (msgs w)))
    (pushed uuid_src clock content mode w s o a).
Proof.
  intros Hwf Hq Hact e m x He Hm Hx Hstr.
  change (sessions (pushed _ _ _ _ _ _ _ _)) with (sessions w) in He.
  apply messages_of_pushed in Hm; [|done..].
  destruct Hm as [Hm|[->| ->]]; [| |done].
  - pose proof (messages_of_valid w e m Hwf He Hm) as Hlt.
    unfold pushed in Hx. cbn in Hx. rewrite lookup_app_l in Hx by done.
    rewrite (Hq e m x) in Hstr; done.
  - unfold pushed in Hx. cbn in Hx.
    rewrite lookup_app_r, Nat.sub_diag in Hx by done. by simplify_eq/=.
Qed.

Lemma messages_of_frame w w' s :
  ChatSession.messages <$> objs w' !! s = ChatSession.messages <$> objs w !! s →
  arrs w' = arrs w →
  messages_of w' s = messages_of w s.
Proof.
  intros Ho Ha. unfold messages_of. rewrite Ha.
  destruct (objs w' !! s) as [o'|], (objs w !! s) as [o|]; simplify_eq/=;
    congruence.
Qed.

Lemma wf_streamed s p x chunks w :
  wf w → wf (streamed s p x chunks w).
Proof.
  intros Hwf. apply (wf_frame w); try done.
  unfold streamed. cbn. rewrite length_insert. apply Hwf.
Qed.

Lemma streaming_only_streamed s p x chunks w :
  streaming_only p w → streaming_only p (streamed s p x chunks w).
Proof.
  intros Hp e m y He Hm Hy Hstr. destruct (decide (m = p)) as [|Hne]; [done|].
  unfold streamed in Hy. cbn in Hy. rewrite list_lookup_insert_ne in Hy by done.
  by eapply (Hp e m y).
Qed.

Lemma sendMessage_finalize_saved s p fc cits w :
  let w' := (sendMessage_finalize clock s p fc cits w).2 in
  globalState w' = Some (saved w').
Proof. destruct w. unfold sendMessage_finalize. run. reflexivity. Qed.

Lemma settled_finalized s p o x chunks blob w :
  wf w → streaming_only p w →
  objs w !! s = Some o →
  wf (finalized clock s p o x chunks blob w)
  ∧ quiet (finalized clock s p o x chunks blob w).
Proof.
  intros Hwf Hp Hobj.
  assert (∀ (B : Type) (f : ChatSession.t → B) j,
    f (ChatSession.set_updatedAt (clock (clock_count w)) o) = f o →
    f <$> objs (finalized clock s p o x chunks blob w) !! j
    = f <$> objs w !! j) as Hsame.
  { intros B f j Hf. unfold finalized. cbn.
    by apply (fmap_lookup_insert_same _ _ _ o). }
  split.
  - apply (wf_frame w); try done.
    + intros j. by apply Hsame.
    + intros j. by apply Hsame.
    + unfold finalized. cbn. rewrite length_insert. apply Hwf.
  - intros e m y He Hm Hy.
    rewrite (messages_of_frame w) in Hm; [|by apply Hsame|done].
    unfold finalized in Hy. cbn in Hy.
    destruct (decide (m = p)) as [->|Hne].
    + destruct (decide (p < length (msgs w))).
      * rewrite list_lookup_insert_eq in Hy by done. by simplify_eq.
      * rewrite list_insert_ge in Hy by lia.
        apply lookup_lt_Some in Hy. lia.
    + rewrite list_lookup_insert_ne in Hy by done.
      destruct (ChatMessage.is_streaming y) eqn:Hstr; [|done].
      exfalso. apply Hne. by eapply (Hp e m y).
Qed.
End SettledSend.

Lemma NoDup_omap_inj {A B} (f : A → option B) (l : list A) x y v :
  NoDup (omap f l) → x ∈ l → y ∈ l → f x = Some v → f y = Some v → x = y.
Proof.
  induction l as [|z l IH]; intros Hnd Hx Hy Hfx Hfy.
  - by apply elem_of_nil in Hx.
  - change (omap f (z :: l)) with
      (match f z with Some u => u :: omap f l | None => omap f l end) in Hnd.
    apply elem_of_cons in Hx as [->|Hx], Hy as [->|Hy]; [done| | |].
    + rewrite Hfx in Hnd. apply NoDup_cons in Hnd as [Hv _].
      exfalso. apply Hv. apply list_elem_of_omap. eauto.
    + rewrite Hfy in Hnd. apply NoDup_cons in Hnd as [Hv _].
      exfalso. apply Hv. apply list_elem_of_omap. eauto.
    + apply IH; [|done..]. destruct (f z); [|done].
      by apply NoDup_cons in Hnd as [_ ?].
Qed.

Lemma omap_fmap_comm {A B C} (f : A → option B) (h : B → C) (l : list A) :
  omap (λ x, h <$> f x) l = h <$> omap f l.
Proof.
  induction l as [|x l IH]; [done|]. cbn. destruct (f x); cbn; by rewrite IH.
Qed.

(** Two sessions of the map do not share an array. *)
Lemma wf_separate w e e' o o' :
  wf w → e ∈ sessions w → e' ∈ sessions w →
  objs w !! e.2 = Some o → objs w !! e'.2 = Some o' →
  ChatSession.messages o = ChatSession.messages o' → e = e'.
Proof.
  intros Hwf He He' Ho Ho' Heq.
  eapply (NoDup_omap_inj _ _ _ _ (ChatSession.messages o));
    [apply (wf_unshared _ Hwf)|done|done| |]; cbn.
  - by rewrite Ho.
  - by rewrite Ho', Heq.
Qed.

Section SettledCatch.
Variable uuid_src : nat → string.
Variable clock : nat → Date.

(** The placeholder is in the array of the current session only. *)
Lemma placeholder_home content mode w s o a e :
  wf w → active w s o a → e ∈ sessions w →
  S (length (msgs w)) ∈
    messages_of (pushed uuid_src clock content mode w s o a) e.2 →
  e.2 = s.
Proof.
  intros Hwf Hact He Hin.
  pose proof Hact as ([k [_ Hk]] & Hobj & Harr).
  apply map_get_elem in Hk.
  destruct (snapshot_wf w e Hwf He) as (oe & ae & Hoe & _ & Hae & _).
  destruct (decide (ChatSession.messages oe = ChatSession.messages o))
    as [Heq|Hne].
  - by rewrite (wf_separate w e (k, s) oe o Hwf He Hk Hoe Hobj Heq).
  - exfalso.
    assert (messages_of (pushed uuid_src clock content mode w s o a) e.2 = ae)
      as Hsame.
    { assert (s ≠ e.2) as Hs by (intros ->; simplify_eq; done).
      unfold messages_of, pushed. cbn.
      rewrite list_lookup_insert_ne by done. rewrite Hoe. cbn.
      rewrite list_lookup_insert_ne by done. by rewrite Hae. }
    rewrite Hsame in Hin.
    destruct (wf_array w _ ae Hwf Hae) as [_ Hv]. apply Hv in Hin. lia.
Qed.

Lemma wf_recovered s p o x a chunks error w k :
  wf w →
  (k, s) ∈ sessions w →
  objs w !! s = Some o → arrs w !! ChatSession.messages o = Some a →
  wf (recovered uuid_src clock s p o x a chunks error w).
Proof.
  intros Hwf Hks Hobj Harr.
  destruct (wf_array w _ a Hwf Harr) as [Hnd Hvalid].
  pose proof (lookup_lt_Some _ _ _ Hobj) as Hs.
  set (c := length (arrs w)).
  set (h := λ v, if decide (v = ChatSession.messages o) then c else v).
  assert (∀ e, e ∈ sessions w →
    ChatSession.messages <$>
      (<[s := ChatSession.set_messages c o]> (objs w)) !! e.2
    = h <$> (ChatSession.messages <$> objs w !! e.2)) as Hh.
  { intros e He. destruct (snapshot_wf w e Hwf He) as (oe & ae & Hoe & _).
    destruct (decide (s = e.2)) as [->|Hne].
    - rewrite list_lookup_insert_eq by done. rewrite Hoe. cbn. simplify_eq.
      unfold h. by rewrite decide_True.
    - rewrite list_lookup_insert_ne by done. rewrite Hoe. cbn.
      unfold h. rewrite decide_False; [done|]. intros Heq. apply Hne.
      by rewrite (wf_separate w e (k, s) oe o Hwf He Hks Hoe Hobj Heq). }
  split; unfold recovered; projs.
  - eapply Forall_impl; [apply Hwf|]. cbn. intros e He.
    by rewrite (fmap_lookup_insert_same _ _ _ o).
  - apply Hwf.
  - rewrite length_app. cbn. apply Forall_insert.
    + eapply Forall_impl; [apply Hwf|]. cbn. intros; lia.
    + cbn. fold c. lia.
  - rewrite length_app, length_insert. cbn. apply Forall_app. split.
    + eapply Forall_impl; [apply Hwf|]. cbn. intros b [Hb1 Hb2].
      split; [done|]. eapply Forall_impl; [done|]. cbn. intros; lia.
    + apply Forall_singleton. split.
      * apply NoDup_app. split_and!; [by apply NoDup_filter| |].
        -- intros m Hm Hin. apply list_elem_of_filter in Hm as [_ Hm].
           apply Hvalid in Hm. apply list_elem_of_singleton in Hin. lia.
        -- apply NoDup_singleton.
      * apply Forall_app. split.
        -- apply Forall_forall. intros m Hm.
           apply list_elem_of_filter in Hm as [_ Hm]. apply Hvalid in Hm. lia.
        -- apply Forall_singleton. lia.
  - apply Hwf.
  - fold c. rewrite (omap_ext_elem _ _ _ Hh), omap_fmap_comm.
    apply NoDup_fmap_2_strong; [|apply Hwf].
    intros v v' Hv Hv' Heq.
    assert (∀ u, u ∈ omap (λ e, ChatSession.messages <$> objs w !! e.2)
                       (sessions w) → u < c) as Hlt.
    { intros u Hu. apply list_elem_of_omap in Hu as (e & He & Hu).
      destruct (wf_session_obj w e Hwf He) as (oe & Hoe & _ & Hl).
      rewrite Hoe in Hu. by simplify_eq/=. }
    apply Hlt in Hv, Hv'. unfold h in Heq.
    repeat case_decide; subst; lia.
Qed.

Lemma quiet_recovered s p o x a chunks error w k :
  wf w → streaming_only p w →
  (∀ e, e ∈ sessions w → p ∈ messages_of w e.2 → e.2 = s) →
  (k, s) ∈ sessions w →
  objs w !! s = Some o → arrs w !! ChatSession.messages o = Some a →
  msgs w !! p = Some x →
  quiet (recovered uuid_src clock s p o x a chunks error w).
Proof.
  intros Hwf Hp Hhome Hks Hobj Harr Hx e m y He Hm Hy.
  change (sessions (recovered _ _ _ _ _ _ _ _ _ _)) with (sessions w) in He.
  destruct (wf_array w _ a Hwf Harr) as [_ Hvalid].
  pose proof (lookup_lt_Some _ _ _ Hobj) as Hs.
  pose proof (lookup_lt_Some _ _ _ Hx) as Hplt.
  assert (∀ m', m' < length (msgs w) → m' ≠ p →
    msgs (recovered uuid_src clock s p o x a chunks error w) !! m'
    = msgs w !! m') as Hold.
  { intros m' Hlt Hne. unfold recovered. cbn.
    rewrite lookup_app_l by (by rewrite length_insert).
    by rewrite list_lookup_insert_ne. }
  destruct (decide (e.2 = s)) as [Hes|Hes].
  - assert (messages_of (recovered uuid_src clock s p o x a chunks error w) e.2
            = filter (λ m, id_of w m ≠ Some (ChatMessage.id x)) a
              ++ [length (msgs w)]) as Hnew.
    { unfold messages_of, recovered. cbn. rewrite Hes.
      rewrite list_lookup_insert_eq by done. cbn. by rewrite lookup_snoc. }
    rewrite Hnew in Hm. apply elem_of_app in Hm as [Hm|Hm].
    + apply list_elem_of_filter in Hm as [Hid Hm].
      assert (m ≠ p) as Hne.
      { intros ->. apply Hid. unfold id_of. by rewrite Hx. }
      rewrite Hold in Hy by auto.
      destruct (ChatMessage.is_streaming y) eqn:Hstr; [|done].
      exfalso. apply Hne. eapply (Hp e m y); [done| |done..].
      unfold messages_of. rewrite Hes, Hobj. cbn. by rewrite Harr.
    + apply list_elem_of_singleton in Hm as ->.
      unfold recovered in Hy. cbn in Hy.
      rewrite lookup_app_r in Hy by (by rewrite length_insert).
      rewrite length_insert, Nat.sub_diag in Hy. by simplify_eq/=.
  - destruct (snapshot_wf w e Hwf He) as (oe & ae & Hoe & _ & Hae & _).
    assert (ChatSession.messages oe ≠ ChatSession.messages o) as Hne.
    { intros Heq. apply Hes.
      by rewrite (wf_separate w e (k, s) oe o Hwf He Hks Hoe Hobj Heq). }
    assert (messages_of (recovered uuid_src clock s p o x a chunks error w) e.2
            = messages_of w e.2) as Hsame.
    { unfold messages_of, recovered. cbn.
      rewrite list_lookup_insert_ne by done. rewrite Hoe. cbn.
      by rewrite (lookup_app_l_Some _ _ _ _ Hae), Hae. }
    rewrite Hsame in Hm.
    pose proof (messages_of_valid w e m Hwf He Hm) as Hlt.
    assert (m ≠ p) as Hmp by (intros ->; by apply Hes, Hhome).
    rewrite Hold in Hy by done.
    destruct (ChatMessage.is_streaming y) eqn:Hstr; [|done].
    exfalso. apply Hmp. by eapply (Hp e m y).
Qed.
End SettledCatch.

Section SettledSendMessage.
Variable uuid_src : nat → string.
Variable clock : nat → Date.

Lemma sendMessage_done_saved respond content mode chunks w :
  wf w →
  respond (api_messages uuid_src clock content mode w)
    = of_chunks chunks Done →
  let w' := (sendMessage uuid_src clock respond content mode w).2 in
  globalState w' = Some (saved w').
Proof.
  intros Hwf Hresp.
  destruct (sendMessage_start_spec uuid_src clock content mode w Hwf)
    as (s & o & a & api & Hact & Hstart).
  destruct (pushed_facts uuid_src clock content mode _ s o a Hact)
    as (_ & _ & _ & Hp & _).
  unfold api_messages in Hresp. rewrite Hstart in Hresp.
  unfold sendMessage, bind. rewrite Hstart, Hresp.
  unfold sendMessage_stream, try_catch, bind.
  rewrite (stream_loop_streamed _ _ _ _ _ _ Hp) by done.
  cbn [stream_loop ret fst snd].
  pose proof (sendMessage_finalize_saved clock s
                (S (length (msgs (ensured uuid_src clock mode w))))
                (concat_deltas chunks) (received_citations chunks)
                (streamed s (S (length (msgs (ensured uuid_src clock mode w))))
                   (placeholder uuid_src clock (ensured uuid_src clock mode w))
                   chunks
                   (pushed uuid_src clock content mode
                      (ensured uuid_src clock mode w) s o a))) as Hsaved.
  cbn zeta in Hsaved.
  edestruct (sendMessage_finalize_spec clock s
               (S (length (msgs (ensured uuid_src clock mode w))))
               (concat_deltas chunks) (received_citations chunks)
               (streamed s (S (length (msgs (ensured uuid_src clock mode w))))
                  (placeholder uuid_src clock (ensured uuid_src clock mode w))
                  chunks
                  (pushed uuid_src clock content mode
                     (ensured uuid_src clock mode w) s o a)))
    as [blob Heq].
  { eapply pushed_facts, Hact. }
  { cbn. apply list_lookup_insert_eq. by eapply lookup_lt_Some. }
  rewrite Heq in Hsaved |- *. exact Hsaved.
Qed.

(** [sendMessage], run to its end, leaves the world settled whether the
    stream ends or fails. *)
Lemma settled_sendMessage respond content mode w :
  settled w → settled (sendMessage uuid_src clock respond content mode w).2.
Proof.
  intros Hset. pose proof Hset as (Hwf & _ & _).
  pose proof (settled_ensured uuid_src clock mode w Hset)
    as (Hwf0 & Hq0 & Hblob0).
  set (stream := respond (api_messages uuid_src clock content mode w)).
  pose proof (stream_split stream) as Hsplit.
  destruct (stream_error stream) as [error|] eqn:Hend.
  - destruct (sendMessage_raise_spec uuid_src clock respond content mode
                (stream_chunks stream) error w Hwf Hsplit)
      as (s & o & a & Hact & Hsend).
    rewrite Hsend. cbn [snd].
    set (w0 := ensured uuid_src clock mode w) in *.
    destruct (pushed_facts uuid_src clock content mode w0 s o a Hact)
      as (Hobj1 & Harr1 & _ & Hp & _).
    pose proof Hact as ([k [_ Hk]] & _ & _). apply map_get_elem in Hk.
    pose proof (wf_pushed uuid_src clock content mode w0 s o a Hwf0 Hact)
      as Hwf1.
    pose proof (streaming_only_pushed uuid_src clock content mode w0 s o a
                  Hwf0 Hq0 Hact) as Hp1.
    split_and!.
    + by eapply wf_recovered.
    + eapply quiet_recovered; try done.
      intros e He. by apply placeholder_home.
    + done.
  - pose proof (sendMessage_done_saved respond content mode
                  (stream_chunks stream) w Hwf Hsplit) as Hsaved.
    destruct (sendMessage_done_spec uuid_src clock respond content mode
                (stream_chunks stream) w Hwf Hsplit)
      as (s & o & a & blob & Hact & _ & Hsend).
    cbn zeta in Hsaved. rewrite Hsend in Hsaved |- *. cbn [snd] in *.
    set (w0 := ensured uuid_src clock mode w) in *.
    destruct (pushed_facts uuid_src clock content mode w0 s o a Hact)
      as (Hobj1 & _).
    pose proof (wf_pushed uuid_src clock content mode w0 s o a Hwf0 Hact)
      as Hwf1.
    pose proof (streaming_only_pushed uuid_src clock content mode w0 s o a
                  Hwf0 Hq0 Hact) as Hp1.
    destruct (settled_finalized clock s (S (length (msgs w0)))
                (pushed_session uuid_src clock content mode w0 o a)
                (placeholder uuid_src clock w0) (stream_chunks stream) blob
                (pushed uuid_src clock content mode w0 s o a))
      as [Hwf' Hq']; [done..|].
    split_and!; [done..|]. rewrite Hsaved. by apply saved_quiet.
Qed.

(** While [sendMessage] awaits a chunk, the placeholder is the only
    streaming message. *)
Lemma sendMessage_partial_streaming content mode chunks w :
  settled w →
  let w' := (sendMessage_partial uuid_src clock content mode chunks w).2 in
  wf w' ∧ ∃ p, streaming_only p w'.
Proof.
  intros Hset. pose proof Hset as (Hwf & _ & _).
  pose proof (settled_ensured uuid_src clock mode w Hset)
    as (Hwf0 & Hq0 & _).
  destruct (sendMessage_start_spec uuid_src clock content mode w Hwf)
    as (s & o & a & api & Hact & Hstart).
  cbn zeta.
  rewrite (sendMessage_partial_spec uuid_src clock content mode chunks w
             s o a api Hact Hstart). cbn [snd].
  split.
  - by apply wf_streamed, wf_pushed.
  - eexists. by apply streaming_only_streamed, streaming_only_pushed.
Qed.
End SettledSendMessage.

(** ** Operations that keep the heaps of messages *)

Lemma omap_sublist {A B} (f : A → option B) (l1 l2 : list A) :
  l1 `sublist_of` l2 → omap f l1 `sublist_of` omap f l2.
Proof.
  induction 1 as [|x l1 l2 _ IH|x l1 l2 _ IH]; [constructor| |].
  - change (omap f (x :: l1)) with
      (match f x with Some u => u :: omap f l1 | None => omap f l1 end).
    change (omap f (x :: l2)) with
      (match f x with Some u => u :: omap f l2 | None => omap f l2 end).
    destruct (f x); [by constructor|done].
  - change (omap f (x :: l2)) with
      (match f x with Some u => u :: omap f l2 | None => omap f l2 end).
    destruct (f x); [by constructor|done].
Qed.

(** Sessions may leave the map and copies of session objects may be
    allocated: the world stays well formed. *)
Lemma wf_sub w w' :
  wf w →
  sessions w' `sublist_of` sessions w →
  objs w `prefix_of` objs w' →
  Forall (λ o, ChatSession.messages o < length (arrs w)) (objs w') →
  arrs w' = arrs w → msgs w' = msgs w →
  (∀ k, currentSessionId w' = Some k → truthy (Some k) = true →
     is_Some (map_get k (sessions w'))) →
  wf w'.
Proof.
  intros Hwf Hss Hpre Hsub Harrs Hmsgs Hcur.
  assert (∀ e, e ∈ sessions w' → objs w' !! e.2 = objs w !! e.2) as Hobj.
  { intros e He. eapply elem_of_sublist in He; [|done].
    destruct (wf_session_obj _ _ Hwf He) as (o & Ho & _).
    by rewrite Ho, (prefix_lookup_Some _ _ _ _ Ho Hpre). }
  split.
  - apply Forall_forall. intros e He. rewrite Hobj by done.
    eapply elem_of_sublist in He; [|done].
    pose proof (wf_sessions _ Hwf) as H. rewrite Forall_forall in H. auto.
  - apply (sublist_NoDup _ (sessions w).*1); [apply Hwf|by apply fmap_sublist].
  - by rewrite Harrs.
  - rewrite Harrs, Hmsgs. apply Hwf.
  - done.
  - rewrite (omap_ext_elem _
               (λ e, ChatSession.messages <$> objs w !! e.2)).
    + eapply sublist_NoDup; [apply Hwf|by apply omap_sublist].
    + intros e He. cbn. by rewrite Hobj.
Qed.

Lemma quiet_sub w w' :
  wf w → quiet w →
  sessions w' ⊆ sessions w →
  objs w `prefix_of` objs w' → arrs w' = arrs w → msgs w' = msgs w →
  quiet w'.
Proof.
  intros Hwf Hq Hss Ho Ha Hm e m x He Hin Hx. apply Hss in He.
  rewrite (messages_of_prefix w w') in Hin by (done || by rewrite Ha).
  rewrite Hm in Hx. by eapply Hq.
Qed.

Lemma settled_sub w w' :
  settled w →
  sessions w' `sublist_of` sessions w →
  objs w `prefix_of` objs w' →
  Forall (λ o, ChatSession.messages o < length (arrs w)) (objs w') →
  arrs w' = arrs w → msgs w' = msgs w →
  (∀ k, currentSessionId w' = Some k → truthy (Some k) = true →
     is_Some (map_get k (sessions w'))) →
  blob_quiet (globalState w') →
  settled w'.
Proof.
  intros (Hwf & Hq & _) Hss Hpre Hsub Ha Hm Hcur Hblob. split_and!.
  - by eapply wf_sub.
  - eapply quiet_sub; try done. by apply sublist_subseteq.
  - done.
Qed.

Lemma truthy_Some s : truthy (Some s) = true ↔ s ≠ EmptyString.
Proof. by destruct s. Qed.

Section SettledOthers.
Variable uuid_src : nat → string.

Lemma settled_getSession k w : settled w → settled (getSession k w).2.
Proof.
  intros Hset. destruct w as [os ars ms ss cur gs fs uc cc].
  unfold getSession, spread. run.
  destruct (map_get k ss) as [s|]; run; [|done].
  destruct (os !! s) as [v|] eqn:Hv; run; [|done].
  eapply settled_sub; [done|..]; cbn; try done.
  - by apply prefix_app_r.
  - pose proof (wf_objs _ (proj1 Hset)) as Hobjs. cbn in Hobjs.
    apply Forall_app. split; [done|]. apply Forall_singleton.
    rewrite Forall_forall in Hobjs. apply Hobjs.
    by eapply list_elem_of_lookup_2.
  - apply Hset.
  - apply Hset.
Qed.

Lemma settled_getCurrentSession w :
  settled w → settled (getCurrentSession w).2.
Proof.
  intros Hset. unfold getCurrentSession, bind, gets.
  destruct (truthy (currentSessionId w)); [|done].
  by apply settled_getSession.
Qed.

Lemma settled_switchToSession k w :
  settled w → settled (switchToSession uuid_src k w).2.
Proof.
  intros Hset. pose proof Hset as (Hwf & _ & Hblob).
  destruct w as [os ars ms ss cur gs fs uc cc].
  unfold switchToSession. case_decide as Hk; [done|]. run.
  destruct (map_get k ss) as [s|] eqn:Hs; cbn; [|done].
  destruct (os !! s) as [v|] eqn:Hv; cbn; [|done].
  destruct (wf_session_obj _ (k, s) Hwf) as (o & Ho & Hid & _);
    [by apply map_get_elem|].
  cbn in Ho, Hid. simplify_eq.
  destruct v as [vid title messages createdAt updatedAt mode]. cbn in *.
  destruct vid as [|c vid]; [done|]. run.
  eapply settled_sub; [done|..]; cbn; try done.
  - by apply prefix_app_r.
  - pose proof (wf_objs _ Hwf) as Hobjs. cbn in Hobjs.
    apply Forall_app. split; [done|]. apply Forall_singleton. cbn.
    rewrite Forall_forall in Hobjs.
    by apply (Hobjs _ (list_elem_of_lookup_2 _ _ _ Hv)).
  - intros k' ? _. simplify_eq. by rewrite Hs.
Qed.

Lemma head_getAllSessions_key w o :
  wf w →
  head (getAllSessions w) ≫= (objs w !!.) = Some o →
  is_Some (map_get (ChatSession.id o) (sessions w)).
Proof.
  intros Hwf Hhead. unfold getAllSessions in Hhead.
  destruct (head _) as [s|] eqn:Hs; [|done]. cbn in Hhead.
  apply head_Some_elem_of in Hs. rewrite sort_desc_Permutation in Hs.
  apply list_elem_of_fmap in Hs as ([k s'] & -> & He).
  destruct (wf_session_obj _ _ Hwf He) as (o' & Ho & Hid & _).
  cbn in *. simplify_eq. exists s'. apply map_get_NoDup; [apply Hwf|done].
Qed.

Lemma settled_deleteSession k w : settled w → settled (deleteSession k w).2.
Proof.
  intros Hset. pose proof Hset as (Hwf & Hq & Hblob).
  destruct (decide (k = EmptyString)) as [->|Hk].
  { unfold deleteSession, bind, gets. by rewrite bool_decide_eq_true_2. }
  destruct (map_get k (sessions w)) as [s|] eqn:Hs.
  2:{ unfold deleteSession, bind, gets, map_has. rewrite Hs.
      by rewrite orb_true_r. }
  destruct (wf_session_obj _ (k, s) Hwf) as (o & Ho & _);
    [by apply map_get_elem|].
  destruct (deleteSession_present k w s o Hk Hs Ho)
    as (w' & -> & Hss & Hcur & Hpre & Ha & Hm & Hsub & Hgs).
  cbn [snd].
  set (w0 := with_sessions (map_delete k (sessions w)) w) in *.
  assert (settled (with_current None w0)) as (Hwf0 & Hq0 & _).
  { eapply (settled_sub w); try done; try (by destruct w).
    - destruct w; cbn. apply sublist_filter.
    - destruct w; cbn. apply Hwf. }
  eapply (settled_sub w); try done.
  - rewrite Hss. apply sublist_filter.
  - apply Forall_forall. intros x Hx. apply Hsub in Hx.
    pose proof (wf_objs _ Hwf) as Hobjs. rewrite Forall_forall in Hobjs.
    auto.
  - intros k' Hk' Ht. rewrite Hss. rewrite Hcur in Hk'.
    case_decide as Hc.
    + destruct (head _ ≫= _) as [o'|] eqn:Hhead; [|done].
      cbn in Hk'. simplify_eq.
      pose proof (head_getAllSessions_key (with_current None w0) o' Hwf0)
        as H.
      destruct w. apply H. exact Hhead.
    + rewrite map_get_delete_ne by congruence. by eapply wf_current.
  - rewrite Hgs. apply saved_quiet. intros e m x He Hin Hx.
    apply (Hq0 e m x); by destruct w.
Qed.

Lemma settled_clearAllSessions w :
  settled w → settled (clearAllSessions w).2.
Proof.
  intros Hset. destruct w as [os ars ms ss cur gs fs uc cc].
  unfold clearAllSessions. run.
  eapply settled_sub; [done|..]; cbn; try done.
  - apply sublist_nil_l.
  - apply Hset.
  - constructor.
Qed.
End SettledOthers.

(** ** Loading keeps the world settled *)

Section SettledLoad.
Variable uuid_src : nat → string.
Variable clock : nat → Date.

(** Loading stored messages allocates new messages, at the end of the
    heap; none of them is streaming when none is stored as streaming. *)
Lemma load_messages_spec mds w :
  ∃ new cc,
    load_messages clock mds w =
      (Ok (seq (length (msgs w)) (length new)),
       mkWorld (objs w) (arrs w) (msgs w ++ new) (sessions w)
         (currentSessionId w) (globalState w) (fired w) (uuid_count w) cc)
    ∧ (Forall (λ md, md_streaming md ≠ Some true) mds →
       Forall (λ x, ChatMessage.is_streaming x = false) new).
Proof.
  revert w. induction mds as [|md mds IH]; intros w.
  - exists [], (clock_count w). cbn. unfold ret. rewrite app_nil_r.
    by destruct w.
  - cbn [load_messages]. destruct (loadable md) as [[[id role] content]|].
    + unfold bind at 1.
      destruct (date_or_now clock (md_timestamp md) w) as [r w1] eqn:Hdate.
      assert (∃ t cc, r = Ok t ∧ w1 = with_clock_count cc w)
        as (t & cc & -> & ->).
      { unfold date_or_now in Hdate. destruct (md_timestamp md).
        - exists d, (clock_count w). unfold ret in Hdate.
          injection Hdate as <- <-. by destruct w.
        - eexists _, _. unfold new_Date in Hdate.
          by injection Hdate as <- <-. }
      unfold bind at 1. unfold alloc_msg at 1. unfold bind at 1.
      match goal with |- context [load_messages clock mds ?W] =>
        destruct (IH W) as (new & cc' & -> & Hnew)
      end.
      destruct w as [os ars ms ss cur gs fs uc cc0]. run.
      eexists (_ :: new), cc'. split.
      * rewrite length_app, <- app_assoc. cbn.
        by rewrite Nat.add_1_r.
      * intros Hmds. apply Forall_cons in Hmds as [Hmd Hmds].
        constructor; [|auto]. unfold ChatMessage.is_streaming. cbn.
        by destruct (md_streaming md) as [[]|].
    + destruct (IH w) as (new & cc & -> & Hnew). exists new, cc.
      split; [done|]. intros Hmds. apply Forall_cons in Hmds as [_ ?]. auto.
Qed.

Lemma load_session_settled sd w :
  wf w → quiet w →
  Forall (λ md, md_streaming md ≠ Some true) (default [] (sd_messages sd)) →
  ∃ w',
    load_session clock sd w = (Ok tt, w')
    ∧ wf w' ∧ quiet w'
    ∧ currentSessionId w' = currentSessionId w
    ∧ globalState w' = globalState w.
Proof.
  intros Hwf Hq Hsd. unfold load_session.
  destruct (truthy (sd_id sd)); [|by exists w].
  assert (∃ new cc,
    match sd_messages sd with
    | Some mds => load_messages clock mds
    | None => ret []
    end w =
      (Ok (seq (length (msgs w)) (length new)),
       mkWorld (objs w) (arrs w) (msgs w ++ new) (sessions w)
         (currentSessionId w) (globalState w) (fired w) (uuid_count w) cc)
    ∧ Forall (λ x, ChatMessage.is_streaming x = false) new)
    as (new & cc & Hload & Hnew).
  { destruct (sd_messages sd) as [mds|].
    - destruct (load_messages_spec mds w) as (new & cc & ? & ?). eauto.
    - exists [], (clock_count w). unfold ret. rewrite app_nil_r.
      by destruct w. }
  unfold bind at 1. rewrite Hload.
  destruct w as [os ars ms ss cur gs fs uc cc0].
  destruct (sd_createdAt sd), (sd_updatedAt sd); run.
  all: eexists; split; [reflexivity|]; split_and!; [| |done..].
  all: first
    [ by apply (wf_alloc_session (mkWorld os ars ms ss cur gs fs uc cc0)
                  (ChatSession.Build _ _ _ _ _ _) new);
        [done|done|by left]
    | by apply (quiet_alloc_session (mkWorld os ars ms ss cur gs fs uc cc0)
                  (ChatSession.Build _ _ _ _ _ _) new) ].
Qed.

Lemma load_all_settled sds w :
  wf w → quiet w → blob_quiet (Some sds) →
  ∃ w',
    load_all clock sds w = (Ok tt, w')
    ∧ wf w' ∧ quiet w'
    ∧ currentSessionId w' = currentSessionId w
    ∧ globalState w' = globalState w.
Proof.
  unfold blob_quiet. cbn [default]. revert w.
  induction sds as [|sd sds IH]; intros w Hwf Hq Hsds.
  - by exists w.
  - apply Forall_cons in Hsds as [Hsd Hsds].
    destruct (load_session_settled sd w Hwf Hq Hsd)
      as (w1 & Hload & Hwf1 & Hq1 & Hcur1 & Hgs1).
    destruct (IH w1 Hwf1 Hq1 Hsds) as (w' & Hall & Hwf' & Hq' & Hcur & Hgs).
    exists w'. cbn [load_all]. unfold bind. rewrite Hload.
    split_and!; [done..|congruence|congruence].
Qed.

Lemma wf_with_current k w :
  wf w → is_Some (map_get k (sessions w)) → wf (with_current (Some k) w).
Proof.
  intros Hwf Hk. destruct w. split; try apply Hwf.
  cbn. intros k' ? _. by simplify_eq.
Qed.

(** A manager constructed on a quiet blob is settled. *)
Lemma settled_loadSessions gs uc cc :
  blob_quiet gs →
  settled (loadSessions clock (mkWorld [] [] [] [] None gs [] uc cc)).2.
Proof.
  intros Hblob. unfold loadSessions. run.
  change (with_sessions [] (mkWorld [] [] [] [] None gs [] uc cc))
    with (mkWorld [] [] [] [] None gs [] uc cc).
  set (w0 := mkWorld [] [] [] [] None gs [] uc cc).
  assert (wf w0) as Hwf0.
  { split; cbn; try constructor. done. }
  assert (quiet w0) as Hq0.
  { intros e m x He. by apply elem_of_nil in He. }
  destruct (load_all_settled (default [] gs) w0 Hwf0 Hq0)
    as (w' & -> & Hwf' & Hq' & Hcur & Hgs).
  { by destruct gs. }
  destruct (head (getAllSessions w') ≫= (objs w' !!.)) as [o|] eqn:Hhead.
  - cbn. split_and!.
    + apply wf_with_current; [done|]. by apply head_getAllSessions_key.
    + intros e m x He Hin Hx. apply (Hq' e m x); by destruct w'.
    + destruct w'. cbn in *. by subst.
  - cbn. split_and!; [done..|]. by rewrite Hgs.
Qed.

Lemma settled_construct : settled (construct clock None).
Proof. apply settled_loadSessions. constructor. Qed.

Lemma settled_restart w : settled w → settled (restart clock w).
Proof. intros (_ & _ & Hblob). by apply settled_loadSessions. Qed.

(** Between two operations the world is settled. *)
Lemma quiescent_settled w : quiescent uuid_src clock w → settled w.
Proof.
  induction 1.
  - apply settled_construct.
  - by apply settled_restart.
  - by apply settled_createNewSession.
  - by apply settled_sendMessage.
  - by apply settled_switchToSession.
  - by apply settled_deleteSession.
  - by apply settled_clearAllSessions.
  - by apply settled_getCurrentSession.
  - by apply settled_getSession.
Qed.
End SettledLoad.

(** ** C2: at most one streaming message *)

(** C2 (amended) - When the public operations run one at a time, each
    [sendMessage] reaching its end or its failure before the next
    operation starts, then for every session of the store and at every
    observation point (between two of [createNewSession], [sendMessage],
    [switchToSession], [deleteSession], [clearAllSessions], the getters
    and a load, and after each delta of a [sendMessage] in progress) at
    most one message of the session has [streaming = true]. *)
Theorem at_most_one_streaming uuid_src clock w s :
  observable uuid_src clock w →
  s ∈ map_values (sessions w) →
  streaming_count w s ≤ 1.
Proof.
  intros [w' Hq|w' content mode chunks Hq] Hs.
  - apply quiescent_settled in Hq as (_ & Hquiet & _).
    rewrite quiet_count by done. lia.
  - apply quiescent_settled in Hq.
    destruct (sendMessage_partial_streaming uuid_src clock content mode
                chunks w' Hq) as (Hwf & p & Hp).
    by eapply streaming_only_count.
Qed.

(** * More of [ChatManager] *)

(** ** The list of sessions *)

Lemma filter_insert_desc key x l (t : Z) :
  filter (λ y, key y = t) (insert_desc key x l)
  = filter (λ y, key y = t) (x :: l).
Proof.
  induction l as [|y l IH]; simpl; [done|].
  destruct (Z.ltb_spec (key x) (key y)) as [Hlt|Hge]; [|done].
  rewrite !filter_cons in *.
  destruct (decide (key y = t)) as [Hy|Hy],
    (decide (key x = t)) as [Hx|Hx]; try lia; by rewrite IH.
Qed.

Lemma filter_sort_desc key l (t : Z) :
  filter (λ y, key y = t) (sort_desc key l) = filter (λ y, key y = t) l.
Proof.
  induction l as [|x l IH]; simpl; [done|].
  by rewrite filter_insert_desc, !filter_cons, IH.
Qed.

(** X1 - [getAllSessions] returns every session of the map once, the
    latest [updatedAt] first; sessions with the same [updatedAt] keep the
    order in which the map holds them. *)
Theorem getAllSessions_stable w :
  getAllSessions w ≡ₚ map_values (sessions w)
  ∧ StronglySorted (λ a b, (updatedAt_of w b ≤ updatedAt_of w a)%Z)
      (getAllSessions w)
  ∧ ∀ t, filter (λ s, updatedAt_of w s = t) (getAllSessions w)
         = filter (λ s, updatedAt_of w s = t) (map_values (sessions w)).
Proof.
  destruct (getAllSessions_sorted w) as [Hperm Hsorted].
  split_and!; [done..|]. intros t. apply filter_sort_desc.
Qed.

Section ManagerMore.
Variable uuid_src : nat → string.
Variable clock : nat → Date.

(** ** Creating a session *)

(** X2 - [createNewSession] returns a new id and makes it the current
    session: the session is in the map under that id, has the given
    title or ['New Chat'] when the title is missing or empty, and holds
    one message, the system prompt of its mode.  The other sessions of
    the store keep their values, the store is saved and the subscribers
    are notified once, with the new session. *)
Theorem createNewSession_makes_current title mode w :
  wf w →
  let k := uuid_src (uuid_count w) in
  ∃ s w' m,
    createNewSession uuid_src clock title mode w = (Ok k, w')
    ∧ currentSessionId w' = Some k
    ∧ map_get k (sessions w') = Some s
    ∧ snapshot w' s =
        Some (Snapshot.Build k (or_default title "New Chat") [m]
                (clock (clock_count w)) (clock (S (clock_count w))) mode)
    ∧ ChatMessage.role m = system
    ∧ getSystemMessage mode = Some (ChatMessage.content m)
    ∧ (∀ e, e ∈ sessions w → e.1 ≠ k →
         e ∈ sessions w' ∧ snapshot w' e.2 = snapshot w e.2)
    ∧ fired w' = fired w ++ [Some s]
    ∧ globalState w' = Some (saved w').
Proof.
  intros Hwf k.
  pose proof (createNewSession_saved uuid_src clock title mode w) as Hsaved.
  destruct (createNewSession_spec uuid_src clock title mode w) as [blob Hc].
  cbn zeta in Hsaved. rewrite Hc in Hsaved |- *. cbn [snd] in Hsaved.
  eexists (length (objs w)), _, (created_message uuid_src clock mode w).
  split; [reflexivity|]. split_and!; try done.
  - cbn. apply map_get_set_eq.
  - unfold snapshot. cbn. rewrite lookup_snoc. cbn. rewrite lookup_snoc.
    cbn. by rewrite lookup_snoc.
  - cbn. by destruct mode.
  - intros e He Hne. split.
    + cbn. clear -He Hne. induction (sessions w) as [|[k' v'] l IH];
        [by apply elem_of_nil in He|].
      cbn. apply elem_of_cons in He as [->|He].
      * cbn in Hne. rewrite decide_False by done. left.
      * case_decide; [by right|]. right. auto.
    + destruct (snapshot_wf w e Hwf He) as (o & a & _ & _ & _ & Hsnap).
      rewrite Hsnap. eapply snapshot_prefix; [..|done]; cbn;
        by apply prefix_app_r.
Qed.

(** ** Switching *)

Lemma restart_frame w w' :
  globalState w' = globalState w → uuid_count w' = uuid_count w →
  clock_count w' = clock_count w →
  restart clock w' = restart clock w.
Proof. intros Hg Hu Hc. unfold restart. by rewrite Hg, Hu, Hc. Qed.

(** X3 - [switchToSession] with the id of a session of the store makes
    that session current and notifies the subscribers with a new object
    that shares the messages of the session.  It changes no session and
    saves nothing, so a restart of the extension does not see the
    switch. *)
Theorem switchToSession_selects k w s :
  wf w →
  k ≠ EmptyString →
  map_get k (sessions w) = Some s →
  ∃ c w',
    switchToSession uuid_src k w = (Ok tt, w')
    ∧ currentSessionId w' = Some k
    ∧ sessions w' = sessions w
    ∧ store w' = store w
    ∧ globalState w' = globalState w
    ∧ fired w' = fired w ++ [Some c]
    ∧ (c ∉ map_values (sessions w'))
    ∧ messages_of w' c = messages_of w s
    ∧ restart clock w' = restart clock w.
Proof.
  intros Hwf Hk Hs.
  destruct (wf_session_obj _ (k, s) Hwf) as (o & Ho & Hid & _);
    [by apply map_get_elem|].
  assert (∀ e, e ∈ sessions w → e.2 < length (objs w)) as Hvalid.
  { intros e He. destruct (wf_session_obj w e Hwf He) as (o' & Ho' & _).
    by eapply lookup_lt_Some. }
  destruct w as [os ars ms ss cur gs fs uc cc]. cbn in *.
  unfold switchToSession. rewrite decide_False by done. run.
  rewrite Hs. cbn. rewrite Ho. cbn.
  destruct o as [oid title messages createdAt updatedAt mode]. cbn in *.
  subst oid. destruct k as [|c k]; [done|]. run.
  eexists _, _. split; [reflexivity|]. split_and!; try done.
  - apply store_frame; [done..|]. intros e He. cbn.
    apply lookup_app_l. auto.
  - cbn. intros Hin. apply list_elem_of_fmap in Hin as (e & Heq & He).
    apply Hvalid in He. lia.
  - unfold messages_of. cbn. rewrite lookup_snoc, Ho. done.
Qed.

(** ** Clearing *)

(** X4 - [clearAllSessions] empties the store: no session and no current
    session are left, the empty list is saved and the subscribers receive
    [null].  A restart of the extension then finds no session. *)
Theorem clearAllSessions_empties w :
  ∃ w',
    clearAllSessions w = (Ok tt, w')
    ∧ sessions w' = []
    ∧ currentSessionId w' = None
    ∧ globalState w' = Some []
    ∧ fired w' = fired w ++ [None]
    ∧ getAllSessions w' = []
    ∧ getCurrentSession w' = (Ok None, w')
    ∧ sessions (restart clock w') = []
    ∧ currentSessionId (restart clock w') = None.
Proof.
  destruct w as [os ars ms ss cur gs fs uc cc].
  unfold clearAllSessions. run. eexists. split; [reflexivity|].
  by split_and!.
Qed.
End ManagerMore.

Section ManagerSend.
Variable uuid_src : nat → string.
Variable clock : nat → Date.




(** X6 - A call of [sendMessage] notifies the subscribers once when the
    placeholder is pushed, once for each chunk that carries a non-empty
    delta, and once at its end, be it the end of the stream or its
    failure; a session it has to create first adds one notification.
    Every notification carries the session of the call. *)
Theorem sendMessage_notifications respond content mode w :
  wf w →
  let stream := respond (api_messages uuid_src clock content mode w) in
  let deltas :=
    length (filter (λ c, delta_text c ≠ EmptyString)
              (stream_chunks stream)) in
  ∃ s r w',
    sendMessage uuid_src clock respond content mode w = (r, w')
    ∧ current_session w' = Some s
    ∧ fired w' =
        fired w
        ++ replicate
             ((if truthy (currentSessionId w) then 2 else 3) + deltas)
             (Some s).
Proof.
  intros Hwf stream deltas.
  pose proof (stream_split stream) as Hsplit.
  assert (∀ s o a,
    active (ensured uuid_src clock mode w) s o a →
    fired (ensured uuid_src clock mode w) =
      fired w ++ (if truthy (currentSessionId w) then []
                  else [Some s])) as Hens.
  { intros s o a Hact. destruct (truthy (currentSessionId w)) eqn:Ht.
    - rewrite ensured_truthy by done. by rewrite app_nil_r.
    - destruct Hact as ([k [Hcur Hget]] & _). revert Hcur Hget.
      unfold ensured, ensure_session. run. rewrite Ht.
      destruct (createNewSession_spec uuid_src clock (Some "New Chat") mode w)
        as [blob ->]. cbn. intros [= <-]. rewrite map_get_set_eq.
      by intros [= <-]. }
  assert (∀ (f0 : list (option loc)) s,
    ((f0 ++ [Some s]) ++ replicate deltas (Some s)) ++ [Some s]
    = f0 ++ replicate (2 + deltas) (Some s)) as Hrep.
  { intros f0 s. rewrite <- !app_assoc. f_equal. cbn. f_equal.
    by rewrite replicate_cons_app. }
  destruct (stream_error stream) as [error|].
  - destruct (sendMessage_raise_spec uuid_src clock respond content mode
                (stream_chunks stream) error w Hwf Hsplit)
      as (s & o & a & Hact & ->).
    eexists s, _, _. split; [reflexivity|]. split.
    + apply active_current in Hact. by rewrite <- Hact.
    + unfold recovered, streamed, pushed. cbn [fired with_fired with_msgs].
      fold deltas. rewrite Hrep, (Hens s o a Hact).
      destruct (truthy (currentSessionId w)).
      * by rewrite app_nil_r.
      * by rewrite <- app_assoc.
  - destruct (sendMessage_done_spec uuid_src clock respond content mode
                (stream_chunks stream) w Hwf Hsplit)
      as (s & o & a & blob & Hact & _ & ->).
    eexists s, _, _. split; [reflexivity|]. split.
    + apply active_current in Hact. by rewrite <- Hact.
    + unfold finalized, streamed, pushed. cbn [fired with_fired with_msgs].
      fold deltas. rewrite Hrep, (Hens s o a Hact).
      destruct (truthy (currentSessionId w)).
      * by rewrite app_nil_r.
      * by rewrite <- app_assoc.
Qed.

(** X7 - A [sendMessage] that fails saves nothing: the stored sessions
    are those of the last save, without the user message and the error
    message of the failed call. *)
Theorem sendMessage_failure_not_saved
    respond content mode chunks error w :
  wf w →
  respond (api_messages uuid_src clock content mode w)
    = of_chunks chunks (Raise error) →
  ∃ w',
    sendMessage uuid_src clock respond content mode w = (Throw error, w')
    ∧ globalState w' = globalState (ensured uuid_src clock mode w)
    ∧ (truthy (currentSessionId w) = true →
       globalState w' = globalState w).
Proof.
  intros Hwf Hresp.
  destruct (sendMessage_raise_spec uuid_src clock respond content mode
              chunks error w Hwf Hresp) as (s & o & a & Hact & ->).
  eexists. split; [reflexivity|]. split; [done|].
  intros Ht. by rewrite ensured_truthy.
Qed.
End ManagerSend.

(** ** Loading any blob *)

Lemma map_set_keys k v m : (map_set k v m).*1 = Set_add m.*1 k.
Proof.
  unfold Set_add. case_bool_decide.
  - by apply map_set_keys_in.
  - by apply map_set_keys_notin.
Qed.

Lemma truthy_or_default s :
  truthy s = true → s = Some (or_default s EmptyString).
Proof. by destruct s as [[|??]|]. Qed.

Lemma stored_ids_cons sd sds :
  stored_ids (Some (sd :: sds)) =
    match (if truthy (sd_id sd) then sd_id sd else None) with
    | Some k => k :: stored_ids (Some sds)
    | None => stored_ids (Some sds)
    end.
Proof. reflexivity. Qed.

Section LoadAny.
Variable clock : nat → Date.

Lemma load_session_shape sd w :
  truthy (sd_id sd) = true →
  ∃ o new cc,
    load_session clock sd w =
      (Ok tt,
       mkWorld (objs w ++ [o])
         (arrs w ++ [seq (length (msgs w)) (length new)])
         (msgs w ++ new)
         (map_set (ChatSession.id o) (length (objs w)) (sessions w))
         (currentSessionId w) (globalState w) (fired w) (uuid_count w) cc)
    ∧ sd_id sd = Some (ChatSession.id o)
    ∧ ChatSession.messages o = length (arrs w).
Proof.
  intros Ht. unfold load_session. rewrite Ht.
  assert (∃ new cc,
    match sd_messages sd with
    | Some mds => load_messages clock mds
    | None => ret []
    end w =
      (Ok (seq (length (msgs w)) (length new)),
       mkWorld (objs w) (arrs w) (msgs w ++ new) (sessions w)
         (currentSessionId w) (globalState w) (fired w) (uuid_count w) cc))
    as (new & cc & Hload).
  { destruct (sd_messages sd) as [mds|].
    - destruct (load_messages_spec clock mds w) as (new & cc & ? & _). eauto.
    - exists [], (clock_count w). unfold ret. rewrite app_nil_r.
      by destruct w. }
  unfold bind at 1. rewrite Hload.
  destruct w as [os ars ms ss cur gs fs uc cc0].
  destruct (sd_createdAt sd), (sd_updatedAt sd); run.
  all: eexists (ChatSession.Build _ _ _ _ _ _), new, _.
  all: split; [reflexivity|]; split; [|done].
  all: by apply truthy_or_default.
Qed.

Lemma load_session_skip sd w :
  truthy (sd_id sd) = false → load_session clock sd w = (Ok tt, w).
Proof. intros Ht. unfold load_session. by rewrite Ht. Qed.

(** Loading keeps the world well formed, whatever is stored. *)
Lemma load_all_wf sds w :
  wf w →
  ∃ w',
    load_all clock sds w = (Ok tt, w')
    ∧ wf w'
    ∧ (sessions w').*1 = foldl Set_add (sessions w).*1 (stored_ids (Some sds))
    ∧ currentSessionId w' = currentSessionId w
    ∧ globalState w' = globalState w
    ∧ uuid_count w' = uuid_count w.
Proof.
  revert w. induction sds as [|sd sds IH]; intros w Hwf.
  - by exists w.
  - cbn [load_all]. unfold bind at 1. rewrite stored_ids_cons.
    destruct (truthy (sd_id sd)) eqn:Ht.
    + destruct (load_session_shape sd w Ht)
        as (o & new & cc & -> & Hid & Hmsgs).
      rewrite Hid.
      destruct (IH (mkWorld (objs w ++ [o])
                      (arrs w ++ [seq (length (msgs w)) (length new)])
                      (msgs w ++ new)
                      (map_set (ChatSession.id o) (length (objs w))
                         (sessions w))
                      (currentSessionId w) (globalState w) (fired w)
                      (uuid_count w) cc))
        as (w' & -> & Hwf' & Hkeys & Hcur & Hgs & Huc).
      { apply wf_alloc_session; [done|done|by left]. }
      exists w'. split_and!; try done. rewrite Hkeys. cbn.
      by rewrite map_set_keys.
    + rewrite load_session_skip by done.
      destruct (IH w Hwf) as (w' & -> & ?). by exists w'.
Qed.

Lemma wf_latest_is_current w o :
  wf w →
  head (getAllSessions w) ≫= (objs w !!.) = Some o →
  latest_is_current (with_current (Some (ChatSession.id o)) w).
Proof.
  intros Hwf Hhead. unfold latest_is_current.
  unfold getAllSessions in Hhead.
  destruct (head _) as [s|] eqn:Hs; [|done]. cbn in Hhead.
  apply sort_desc_head in Hs as [Hin Hmax].
  apply list_elem_of_fmap in Hin as ([k s'] & -> & He).
  destruct (wf_session_obj _ _ Hwf He) as (o' & Ho & Hid & _).
  cbn in *. simplify_eq.
  destruct w as [os ars ms ss cur gs fs uc cc]. cbn in *.
  destruct ss as [|e0 ss]; [by apply elem_of_nil in He|].
  exists (ChatSession.id o), s'. split_and!; [done..|].
  intros e He'. apply (Hmax e.2). apply list_elem_of_fmap. by exists e.
Qed.

Lemma loadSessions_wf gs uc cc :
  let w := (loadSessions clock (mkWorld [] [] [] [] None gs [] uc cc)).2 in
  wf w
  ∧ (sessions w).*1 = Set_from (stored_ids gs)
  ∧ latest_is_current w
  ∧ globalState w = gs.
Proof.
  unfold loadSessions. run.
  change (with_sessions [] (mkWorld [] [] [] [] None gs [] uc cc))
    with (mkWorld [] [] [] [] None gs [] uc cc).
  set (w0 := mkWorld [] [] [] [] None gs [] uc cc).
  assert (wf w0) as Hwf0.
  { split; cbn; try constructor. done. }
  destruct (load_all_wf (default [] gs) w0 Hwf0)
    as (w' & -> & Hwf' & Hkeys & Hcur & Hgs & _).
  assert (stored_ids (Some (default [] gs)) = stored_ids gs) as Hids
    by (by destruct gs).
  rewrite Hids in Hkeys.
  destruct (head (getAllSessions w') ≫= (objs w' !!.)) as [o|] eqn:Hhead.
  - cbn. split_and!.
    + apply wf_with_current; [done|]. by apply head_getAllSessions_key.
    + by destruct w'.
    + by apply wf_latest_is_current.
    + by destruct w'.
  - cbn. split_and!; [done..| |done].
    unfold latest_is_current. destruct (sessions w') as [|[k s] ss] eqn:Hss.
    + by rewrite Hcur.
    + exfalso. unfold getAllSessions in Hhead. rewrite Hss in Hhead.
      destruct (head _) as [x|] eqn:Hx.
      * apply sort_desc_head in Hx as [Hin _].
        apply list_elem_of_fmap in Hin as (e & -> & He).
        rewrite <- Hss in He.
        destruct (wf_session_obj _ _ Hwf' He) as (o' & Ho & _).
        cbn in Hhead. by rewrite Ho in Hhead.
      * by apply sort_desc_head_None in Hx.
Qed.

(** X8 - From a stored blob of session records in which any property
    may be missing or empty and ids may repeat, while the properties
    that are present have their declared types and every stored date is
    the ISO string of a valid date, the constructor of [ChatManager]
    builds a well-formed store: one session for each truthy id of the
    blob, in the order in which the ids first occur, no two sessions
    sharing their messages; the session with the latest [updatedAt] is
    current, and none is when nothing was loaded.  The blob itself is
    left as it was.  A stored date that does not parse is outside this
    statement. *)
Theorem construct_well_formed blob :
  let w := construct clock blob in
  wf w
  ∧ (sessions w).*1 = first_occurrences (stored_ids blob)
  ∧ Forall (λ k, k ≠ EmptyString) (sessions w).*1
  ∧ latest_is_current w
  ∧ globalState w = blob.
Proof.
  destruct (loadSessions_wf blob 0 0) as (Hwf & Hkeys & Hcur & Hgs).
  cbn zeta. unfold construct, initial.
  split_and!; try done.
  - by rewrite Hkeys, Set_from_first_occurrences.
  - rewrite Hkeys, Set_from_first_occurrences. apply Forall_forall.
    intros k Hk. apply (proj1 (first_occurrences_elem _ _)) in Hk.
    unfold stored_ids in Hk. apply list_elem_of_omap in Hk as (sd & _ & Hk).
    destruct (sd_id sd) as [[|??]|]; cbn in Hk; by simplify_eq.
Qed.
End LoadAny.

(** ** Restarting after a save *)

Section RestartStore.
Variable uuid_src : nat → string.
Variable clock : nat → Date.

(** A restart after a save brings back the sessions as they were
    saved. *)
Lemma restart_store w :
  wf w →
  (∀ e, e ∈ sessions w → e.1 ≠ EmptyString) →
  globalState w = Some (saved w) →
  store (restart clock w) = map_store reloaded (store w).
Proof.
  intros Hwf Hkeys Hgs.
  destruct (saved_blob w Hwf Hkeys) as (vs & Hblob & Hstore & Hids).
  unfold restart. rewrite Hgs. unfold saved. rewrite Hblob, Hstore.
  unfold loadSessions.
  unfold bind at 1, gets at 1. cbn [globalState default].
  unfold bind at 1, modify at 1. unfold bind at 1. unfold id.
  destruct (load_all_spec clock vs
              (with_sessions []
                 (mkWorld [] [] [] [] None (Some (session_data <$> vs)) []
                    (uuid_count w) (clock_count w))))
    as (w' & -> & Hst & _).
  - apply Forall_forall. intros v Hv.
    assert (Snapshot.id v ∈ (sessions w).*1) as Hin.
    { rewrite <- Hids. apply list_elem_of_fmap. by exists v. }
    apply list_elem_of_fmap in Hin as (e & -> & He). by apply Hkeys.
  - rewrite Hids. apply Hwf.
  - intros v _. cbn. apply not_elem_of_nil.
  - cbn. constructor.
  - unfold bind, gets, map_store.
    assert (∀ c, store (with_current c w') =
              (λ e : string * option Snapshot.t, (e.1, reloaded <$> e.2)) <$>
                ((λ v, (Snapshot.id v, Some v)) <$> vs)) as Hc.
    { intros c. rewrite store_with_current, Hst. cbn.
      by rewrite <- list_fmap_compose. }
    destruct (head _ ≫= _); cbn; [apply Hc|].
    specialize (Hc (currentSessionId w')). by destruct w'.
Qed.

Lemma wf_finalized s p o x chunks blob w :
  wf w → objs w !! s = Some o →
  wf (finalized clock s p o x chunks blob w).
Proof.
  intros Hwf Hobj.
  assert (∀ (B : Type) (f : ChatSession.t → B) j,
    f (ChatSession.set_updatedAt (clock (clock_count w)) o) = f o →
    f <$> objs (finalized clock s p o x chunks blob w) !! j
    = f <$> objs w !! j) as Hsame.
  { intros B f j Hf. unfold finalized. cbn.
    by apply (fmap_lookup_insert_same _ _ _ o). }
  apply (wf_frame w); try done.
  - intros j. by apply Hsame.
  - intros j. by apply Hsame.
  - unfold finalized. cbn. rewrite length_insert. apply Hwf.
Qed.

Lemma ensured_keys mode w e :
  e ∈ sessions (ensured uuid_src clock mode w) →
  e ∈ sessions w ∨ e.1 = uuid_src (uuid_count w).
Proof.
  unfold ensured, ensure_session. run.
  destruct (truthy (currentSessionId w)); [by left|].
  destruct (createNewSession_spec uuid_src clock (Some "New Chat") mode w)
    as [blob ->]. cbn. intros He.
  apply elem_of_map_set in He as [->|He]; [by right|by left].
Qed.

(** X9 - After a [sendMessage] whose stream has ended, the stored blob
    holds the whole store: a restart of the extension brings back every
    session with its messages, the new exchange included, up to what a
    load drops or fills in (messages with empty content are dropped,
    absent optional properties get their defaults). *)
Theorem completed_exchange_survives_restart
    respond content mode chunks w :
  wf w →
  Forall (λ e, e.1 ≠ EmptyString) (sessions w) →
  (∀ n, uuid_src n ≠ EmptyString) →
  respond (api_messages uuid_src clock content mode w)
    = of_chunks chunks Done →
  ∃ p w',
    sendMessage uuid_src clock respond content mode w = (Ok p, w')
    ∧ globalState w' = Some (saved w')
    ∧ store (restart clock w') = map_store reloaded (store w').
Proof.
  intros Hwf Hkeys Huuid Hresp.
  pose proof (sendMessage_done_saved uuid_src clock respond content mode
                chunks w Hwf Hresp) as Hsaved.
  destruct (ensure_session_spec uuid_src clock mode w Hwf)
    as (_ & Hwf0 & _).
  destruct (sendMessage_done_spec uuid_src clock respond content mode
              chunks w Hwf Hresp) as (s & o & a & blob & Hact & _ & Hsend).
  cbn zeta in Hsaved. rewrite Hsend in Hsaved |- *. cbn [snd] in Hsaved.
  eexists _, _. split; [reflexivity|]. split; [done|].
  apply restart_store; [| |done].
  - apply wf_finalized; [by apply wf_pushed|].
    by eapply pushed_facts.
  - intros e He. cbn in He. apply ensured_keys in He as [He| ->]; [|done].
    rewrite Forall_forall in Hkeys. auto.
Qed.

(** ** Deleting and restarting *)

Lemma saved_ext w w' :
  sessions w' = sessions w → arrs w' = arrs w → msgs w' = msgs w →
  (∀ e, e ∈ sessions w → objs w' !! e.2 = objs w !! e.2) →
  saved w' = saved w.
Proof.
  intros Hss Ha Hm Ho. unfold saved. rewrite Hss. clear Hss.
  induction (sessions w) as [|e l IH]; [done|]. cbn.
  rewrite IH by (intros; apply Ho; by right). f_equal.
  unfold save_entry, deref_all. rewrite Ho by left. by rewrite Ha, Hm.
Qed.

Lemma wf_deleteSession k w s o w' :
  wf w → k ≠ EmptyString →
  map_get k (sessions w) = Some s → objs w !! s = Some o →
  deleteSession k w = (Ok tt, w') →
  wf w' ∧ globalState w' = Some (saved w').
Proof.
  intros Hwf Hk Hs Ho Hdel.
  destruct (deleteSession_present k w s o Hk Hs Ho)
    as (w1 & Hdel' & Hss & Hcur & Hpre & Ha & Hm & Hsub & Hgs).
  rewrite Hdel in Hdel'. simplify_eq.
  set (w0 := with_sessions (map_delete k (sessions w)) w) in *.
  assert (wf (with_current None w0)) as Hwf0.
  { eapply (wf_sub w); try done; try (by destruct w).
    - destruct w; cbn. apply sublist_filter.
    - destruct w; cbn. apply Hwf. }
  assert (wf w1) as Hwf1.
  { eapply (wf_sub w); try done.
    - rewrite Hss. apply sublist_filter.
    - apply Forall_forall. intros x Hx. apply Hsub in Hx.
      pose proof (wf_objs _ Hwf) as Hobjs. rewrite Forall_forall in Hobjs.
      auto.
    - intros k' Hk' Ht. rewrite Hss. rewrite Hcur in Hk'.
      case_decide as Hc.
      + destruct (head _ ≫= _) as [o'|] eqn:Hhead; [|done].
        cbn in Hk'. simplify_eq.
        pose proof (head_getAllSessions_key (with_current None w0) o' Hwf0)
          as H.
        destruct w. apply H. exact Hhead.
      + rewrite map_get_delete_ne by congruence. by eapply wf_current. }
  split; [done|]. rewrite Hgs. f_equal. symmetry. apply saved_ext.
  - rewrite Hss. by destruct w.
  - rewrite Ha. by destruct w.
  - rewrite Hm. by destruct w.
  - intros e He.
    assert (e ∈ sessions w) as He'.
    { destruct w. cbn in He. by apply map_delete_elem in He as [? _]. }
    destruct (wf_session_obj w e Hwf He') as (oe & Hoe & _).
    replace (objs w0) with (objs w) by (by destruct w).
    by rewrite Hoe, (prefix_lookup_Some _ _ _ _ Hoe Hpre).
Qed.

(** X10 - A deleted session stays deleted: [deleteSession] saves the
    store without the session, so after a restart of the extension the
    store holds the remaining sessions, in their order, and not the
    deleted one. *)
Theorem deleted_session_stays_deleted k w :
  wf w →
  Forall (λ e, e.1 ≠ EmptyString) (sessions w) →
  is_Some (map_get k (sessions w)) →
  ∃ w',
    deleteSession k w = (Ok tt, w')
    ∧ (sessions w').*1 = filter (λ k', k' ≠ k) (sessions w).*1
    ∧ store (restart clock w') = map_store reloaded (store w')
    ∧ (k ∉ (sessions (restart clock w')).*1).
Proof.
  intros Hwf Hkeys [s Hs]. rewrite Forall_forall in Hkeys.
  assert (k ≠ EmptyString) as Hk.
  { apply (Hkeys (k, s)). by apply map_get_elem. }
  destruct (wf_session_obj _ (k, s) Hwf) as (o & Ho & _);
    [by apply map_get_elem|].
  destruct (deleteSession_present k w s o Hk Hs Ho)
    as (w' & Hdel & Hss & _).
  destruct (wf_deleteSession k w s o w' Hwf Hk Hs Ho Hdel) as [Hwf' Hgs].
  assert (store (restart clock w') = map_store reloaded (store w')) as Hst.
  { apply restart_store; [done| |done]. intros e He. rewrite Hss in He.
    apply map_delete_elem in He as [He _]. auto. }
  exists w'. split_and!; [done| |done|].
  - rewrite Hss. unfold map_delete. clear.
    induction (sessions w) as [|[k' v] l IH]; [done|].
    rewrite fmap_cons, !filter_cons. cbn [fst].
    case_decide; [rewrite fmap_cons|]; by rewrite IH.
  - assert ((sessions (restart clock w')).*1 = (sessions w').*1) as ->.
    { apply (f_equal (fmap fst)) in Hst. unfold map_store, store in Hst.
      rewrite <- !list_fmap_compose in Hst. exact Hst. }
    rewrite Hss. intros Hin. apply list_elem_of_fmap in Hin as (e & -> & He).
    by apply map_delete_elem in He as [_ ?].
Qed.
End RestartStore.

Section FirstSend.
Variable uuid_src : nat → string.
Variable clock : nat → Date.

(** X11 - [sendMessage] on a manager without a current session first
    creates one, with the mode of the message: after the exchange the
    new session is current, its title is the title generated from the
    message, and its messages are the system prompt of the mode, the
    user message and the answer. *)
Theorem sendMessage_creates_session respond content mode chunks w :
  wf w →
  truthy (currentSessionId w) = false →
  respond (api_messages uuid_src clock content mode w)
    = of_chunks chunks Done →
  let k := uuid_src (uuid_count w) in
  ∃ s p w' o sys usr answer,
    sendMessage uuid_src clock respond content mode w = (Ok p, w')
    ∧ currentSessionId w' = Some k
    ∧ map_get k (sessions w') = Some s
    ∧ objs w' !! s = Some o
    ∧ ChatSession.id o = k
    ∧ ChatSession.title o = generateSessionTitle content
    ∧ ChatSession.mode o = mode
    ∧ messages_in w' s = [sys; usr; answer]
    ∧ ChatMessage.role sys = system
    ∧ getSystemMessage mode = Some (ChatMessage.content sys)
    ∧ ChatMessage.role usr = user
    ∧ ChatMessage.content usr = content
    ∧ ChatMessage.role answer = assistant
    ∧ ChatMessage.content answer = concat_deltas chunks
    ∧ ChatMessage.streaming answer = Some false.
Proof.
  intros Hwf Ht Hresp k.
  destruct (sendMessage_done_spec uuid_src clock respond content mode
              chunks w Hwf Hresp) as (s & o & a & blob & Hact & _ & ->).
  destruct (pushed_facts uuid_src clock content mode _ s o a Hact)
    as (Hobj1 & Harr1 & Hn & Hp & _).
  revert Hact Hobj1 Harr1 Hn Hp.
  assert (ensured uuid_src clock mode w =
            (createNewSession uuid_src clock (Some "New Chat") mode w).2)
    as ->.
  { unfold ensured, ensure_session. run. rewrite Ht.
    by destruct (createNewSession _ _ _ _ w) as [[?|?] ?]. }
  destruct (createNewSession_spec uuid_src clock (Some "New Chat") mode w)
    as [blob0 ->]. cbn [snd].
  set (w0 := mkWorld _ _ _ _ _ _ _ _ _).
  intros ([k' [Hcur Hget]] & Hobj & Harr) Hobj1 Harr1 Hn Hp.
  cbn in Hcur. injection Hcur as <-. fold k in Hget.
  cbn in Hget. rewrite map_get_set_eq in Hget. injection Hget as <-.
  cbn in Hobj. rewrite lookup_snoc in Hobj. injection Hobj as <-.
  cbn in Harr. rewrite lookup_snoc in Harr. injection Harr as <-.
  set (o := created_session uuid_src clock (Some "New Chat") mode w) in *.
  set (a := [length (msgs w)]) in *.
  set (s := length (objs w)) in *.
  set (p := S (length (msgs w0))) in *.
  assert (deref_all w0 a = [created_message uuid_src clock mode w]) as Hsys.
  { unfold deref_all, a, w0. cbn. by rewrite lookup_snoc. }
  eexists s, p, _, _, (created_message uuid_src clock mode w),
    (user_message uuid_src clock content mode w0),
    (finalized_message (concat_deltas chunks) (received_citations chunks)
       (placeholder uuid_src clock w0)).
  split; [reflexivity|]. split_and!.
  - done.
  - cbn. apply map_get_set_eq.
  - unfold finalized. cbn [objs]. apply list_lookup_insert_eq.
    by eapply lookup_lt_Some.
  - done.
  - cbn [ChatSession.title ChatSession.set_updatedAt pushed_session].
    rewrite Hsys. cbn. by rewrite decide_True by done.
  - done.
  - erewrite messages_in_eq; cycle 1.
    + unfold finalized. cbn [objs]. apply list_lookup_insert_eq.
      by eapply lookup_lt_Some.
    + unfold finalized. cbn [arrs ChatSession.messages
        ChatSession.set_updatedAt pushed_session]. exact Harr1.
    + unfold finalized. cbn [msgs]. unfold a. cbn [app].
      assert (length (msgs w) < length (msgs w0)) as Hlt0.
      { unfold w0. cbn. rewrite length_app. cbn. lia. }
      match goal with |- context [λ m, ?M !! m] => set (heap := M) end.
      assert (heap !! length (msgs w)
              = Some (created_message uuid_src clock mode w)) as H0.
      { unfold heap. rewrite list_lookup_insert_ne by (unfold p; lia).
        unfold pushed. cbn [msgs]. rewrite lookup_app_l by done.
        unfold w0. cbn [msgs]. by rewrite lookup_snoc. }
      assert (heap !! length (msgs w0)
              = Some (user_message uuid_src clock content mode w0)) as H1.
      { unfold heap. rewrite list_lookup_insert_ne by (unfold p; lia).
        exact Hn. }
      assert (heap !! p =
                Some (finalized_message (concat_deltas chunks)
                        (received_citations chunks)
                        (placeholder uuid_src clock w0))) as H2.
      { unfold heap. by rewrite list_lookup_insert_eq
          by (by eapply lookup_lt_Some). }
      cbn [omap list_omap]. rewrite H0, H1, H2. reflexivity.
  - done.
  - cbn. by destruct mode.
  - done.
  - done.
  - done.
  - done.
  - done.
Qed.
End FirstSend.

(** ** The other sessions *)

Lemma snapshot_ext w w' e o a :
  objs w !! e = Some o →
  arrs w !! ChatSession.messages o = Some a →
  (∀ m, m ∈ a → m < length (msgs w)) →
  objs w' !! e = Some o →
  arrs w' !! ChatSession.messages o = Some a →
  (∀ m, m < length (msgs w) → msgs w' !! m = msgs w !! m) →
  snapshot w' e = snapshot w e.
Proof.
  intros Ho Ha Hvalid Ho' Ha' Hm. unfold snapshot.
  rewrite Ho, Ho'. cbn. rewrite Ha, Ha'. cbn.
  rewrite (mapM_lookup_ext (msgs w) (msgs w')); [done|].
  intros m Hin. apply Hm. auto.
Qed.

Section OtherSessions.
Variable uuid_src : nat → string.
Variable clock : nat → Date.

(** X12 - [sendMessage] on the current session leaves every other
    session of the store as it was, its messages included, whether the
    exchange ends or fails; the map of the sessions and the current
    session do not change. *)
Theorem sendMessage_leaves_other_sessions respond content mode w :
  wf w →
  truthy (currentSessionId w) = true →
  ∃ s r w',
    sendMessage uuid_src clock respond content mode w = (r, w')
    ∧ current_session w = Some s
    ∧ sessions w' = sessions w
    ∧ currentSessionId w' = currentSessionId w
    ∧ ∀ e, e ∈ sessions w → e.2 ≠ s → snapshot w' e.2 = snapshot w e.2.
Proof.
  intros Hwf Ht.
  set (stream := respond (api_messages uuid_src clock content mode w)).
  pose proof (stream_split stream) as Hsplit.
  pose proof (ensured_truthy uuid_src clock mode w Ht) as Hens.
  assert (∀ s o a w',
    active w s o a →
    (∀ j, j ≠ s → objs w' !! j = objs w !! j) →
    (∀ j, j ≠ ChatSession.messages o → j < length (arrs w) →
          arrs w' !! j = arrs w !! j) →
    (∀ m, m < length (msgs w) → msgs w' !! m = msgs w !! m) →
    ∀ e, e ∈ sessions w → e.2 ≠ s → snapshot w' e.2 = snapshot w e.2)
    as Hframe.
  { intros s o a w' Hact Hobjs Harrs Hmsgs e He Hne.
    destruct (snapshot_wf w e Hwf He) as (oe & ae & Hoe & _ & Hae & _).
    destruct Hact as ([k [Hcur Hget]] & Ho & Ha).
    apply map_get_elem in Hget.
    assert (ChatSession.messages oe ≠ ChatSession.messages o) as Hsep.
    { intros Heq. apply Hne.
      by rewrite (wf_separate w e (k, s) oe o Hwf He Hget Hoe Ho Heq). }
    eapply snapshot_ext; [done|done| | | |done].
    - apply (wf_array w _ ae Hwf Hae).
    - by rewrite Hobjs.
    - rewrite Harrs; [done|done|]. by eapply lookup_lt_Some. }
  destruct (stream_error stream) as [error|].
  - destruct (sendMessage_raise_spec uuid_src clock respond content mode
                (stream_chunks stream) error w Hwf Hsplit)
      as (s & o & a & Hact & ->).
    rewrite Hens in *.
    exists s. eexists _, _. split; [reflexivity|].
    split_and!; [by eapply active_current|done|done|].
    apply (Hframe s o a); [done| | |].
    + intros j Hj. unfold recovered, pushed. cbn [objs].
      by rewrite !list_lookup_insert_ne by done.
    + intros j Hj Hlt. unfold recovered, pushed. cbn [arrs].
      rewrite lookup_app_l by (by rewrite length_insert).
      by rewrite list_lookup_insert_ne by done.
    + intros m Hm. unfold recovered, pushed. cbn [msgs].
      rewrite lookup_app_l
        by (rewrite length_insert, length_app; cbn; lia).
      rewrite list_lookup_insert_ne by lia.
      by rewrite lookup_app_l.
  - destruct (sendMessage_done_spec uuid_src clock respond content mode
                (stream_chunks stream) w Hwf Hsplit)
      as (s & o & a & blob & Hact & _ & ->).
    rewrite Hens in *.
    exists s. eexists _, _. split; [reflexivity|].
    split_and!; [by eapply active_current|done|done|].
    apply (Hframe s o a); [done| | |].
    + intros j Hj. unfold finalized, pushed. cbn [objs].
      by rewrite !list_lookup_insert_ne by done.
    + intros j Hj Hlt. unfold finalized, pushed. cbn [arrs].
      by rewrite list_lookup_insert_ne by done.
    + intros m Hm. unfold finalized, pushed. cbn [msgs].
      rewrite list_lookup_insert_ne by lia.
      by rewrite lookup_app_l.
Qed.
End OtherSessions.

(** * The client *)

(** ** Lines *)

Lemma split_lines_cons s : ∃ l ls, split_lines s = l :: ls.
Proof.
  destruct s as [|c s]; simpl; [eauto|].
  case_decide; [eauto|]. destruct (split_lines s); eauto.
Qed.

Lemma complete_lines_cons {A} (l : A) (ls : list A) :
  take (length (l :: ls) - 1) (l :: ls)
  = match ls with
    | [] => []
    | _ => l :: take (length ls - 1) ls
    end.
Proof. destruct ls as [|l' ls]; cbn; [done|]. by rewrite Nat.sub_0_r. Qed.

Lemma last_piece_cons (l : string) ls :
  default EmptyString (last (l :: ls))
  = match ls with
    | [] => l
    | _ => default EmptyString (last ls)
    end.
Proof. by destruct ls. Qed.

(** Splitting a text that goes on: the complete lines stay, the last
    piece is continued. *)
Lemma split_lines_app s t :
  split_lines (s +:+ t)
  = complete_lines s
    ++ split_lines (default EmptyString (last (split_lines s)) +:+ t).
Proof.
  unfold complete_lines. induction s as [|c s IH].
  - by rewrite string_app_nil_l.
  - rewrite string_app_cons. cbn [split_lines].
    destruct (split_lines_cons s) as (l & ls & Hs). rewrite Hs in IH |- *.
    case_decide as Hc.
    + rewrite IH. rewrite (complete_lines_cons EmptyString (l :: ls)).
      by rewrite (last_piece_cons EmptyString (l :: ls)).
    + rewrite IH. rewrite !complete_lines_cons, !last_piece_cons.
      destruct ls as [|l' ls]; [|done].
      cbn [app]. rewrite string_app_cons. cbn [split_lines].
      by rewrite decide_False by done.
Qed.

(** The last piece holds no line feed: it is one line, not complete. *)
Lemma split_lines_last s :
  split_lines (default EmptyString (last (split_lines s)))
  = [default EmptyString (last (split_lines s))].
Proof.
  induction s as [|c s IH]; [done|]. cbn [split_lines].
  destruct (split_lines_cons s) as (l & ls & Hs). rewrite Hs in IH |- *.
  case_decide as Hc.
  - by rewrite (last_piece_cons EmptyString (l :: ls)).
  - rewrite last_piece_cons. rewrite last_piece_cons in IH.
    destruct ls as [|l' ls]; [|done].
    cbn [split_lines]. rewrite decide_False by done. by rewrite IH.
Qed.

Lemma or_default_last lines :
  or_default (last lines) EmptyString = default EmptyString (last lines).
Proof. by destruct (last lines) as [[|??]|]. Qed.

Lemma complete_lines_app s t :
  complete_lines (s +:+ t)
  = complete_lines s
    ++ complete_lines (default EmptyString (last (split_lines s)) +:+ t).
Proof.
  unfold complete_lines at 1. rewrite split_lines_app.
  destruct (split_lines_cons
              (default EmptyString (last (split_lines s)) +:+ t))
    as (l & ls & Hl).
  rewrite Hl, length_app. cbn [length].
  rewrite take_app_ge by lia. f_equal.
  unfold complete_lines at 3. rewrite Hl. cbn [length]. f_equal. lia.
Qed.

Lemma substring_slice n s : String.substring 0 n s +:+ slice n s = s.
Proof.
  revert s. induction n as [|n IH]; intros [|c s]; cbn;
    rewrite ?string_app_nil_l, ?string_app_cons, ?IH; done.
Qed.

Lemma done_line line :
  String.prefix "data: " line = true ∧ slice 6 line = "[DONE]"
  ↔ line = "data: [DONE]".
Proof.
  split.
  - intros [Hp Hs]. apply String.prefix_correct in Hp.
    rewrite <- (substring_slice 6 line). cbn [String.length] in Hp.
    by rewrite Hp, Hs.
  - by intros ->.
Qed.

Section Lines.
Variable JSON_parse : string → option Chunk.

Lemma for_lines_app l1 l2 next :
  PerplexityClient.for_lines JSON_parse (l1 ++ l2) next
  = PerplexityClient.for_lines JSON_parse l1
      (PerplexityClient.for_lines JSON_parse l2 next).
Proof.
  induction l1 as [|line l1 IH]; [done|]. cbn.
  destruct (String.prefix _ line); [|done].
  case_decide; [done|]. destruct (JSON_parse _); by rewrite IH.
Qed.

(** What the loop over the lines yields and how it ends. *)
Lemma for_lines_chunks lines next :
  stream_chunks (PerplexityClient.for_lines JSON_parse lines next)
  = omap (line_event JSON_parse) (before_done lines)
    ++ (if decide ("data: [DONE]" ∈ lines) then []
        else stream_chunks next)
  ∧ stream_error (PerplexityClient.for_lines JSON_parse lines next)
    = if decide ("data: [DONE]" ∈ lines) then None
      else stream_error next.
Proof.
  induction lines as [|line lines [IH1 IH2]].
  - cbn. rewrite !decide_False by apply not_elem_of_nil. done.
  - cbn [PerplexityClient.for_lines before_done].
    destruct (decide (line = "data: [DONE]")) as [->|Hline].
    + rewrite (decide_True (P := "data: [DONE]" ∈ _ :: lines))
        by (apply elem_of_cons; by left).
      rewrite (decide_True (P := "data: [DONE]" ∈ _ :: lines))
        by (apply elem_of_cons; by left).
      by rewrite decide_True by done.
    + assert ("data: [DONE]" ∈ line :: lines ↔ "data: [DONE]" ∈ lines)
        as Hin.
      { rewrite elem_of_cons. split; [intros [?|?]; [congruence|done]|auto]. }
      assert (∀ (A : Type) (x y : A),
        (if decide ("data: [DONE]" ∈ line :: lines) then x else y)
        = (if decide ("data: [DONE]" ∈ lines) then x else y)) as Hif.
      { intros A x y. destruct (decide ("data: [DONE]" ∈ lines)) as [H|H].
        - by rewrite decide_True by (by apply Hin).
        - by rewrite decide_False by (by rewrite Hin). }
      rewrite !Hif.
      change (omap ?f (line :: ?l)) with
        (match f line with Some u => u :: omap f l | None => omap f l end).
      unfold line_event at 1.
      destruct (String.prefix "data: " line) eqn:Hp; [|done].
      rewrite decide_False.
      2:{ intros Hs. apply Hline. by apply done_line. }
      destruct (JSON_parse _); [|done]. cbn. by rewrite IH1, IH2.
Qed.

(** The buffer carries no complete line: the stream is that of the
    lines of the whole text. *)
Lemma for_chunks_lines body buffer :
  split_lines buffer = [buffer] →
  PerplexityClient.for_chunks JSON_parse body buffer
  = PerplexityClient.for_lines JSON_parse
      (complete_lines (buffer +:+ body_text body))
      (match body_failure body with
       | None => Done
       | Some error => Raise (PerplexityClient.handleApiError error)
       end).
Proof.
  revert buffer. induction body as [chunk rest IH| |error];
    intros buffer Hb; cbn.
  - rewrite or_default_last, IH by apply split_lines_last.
    rewrite <- for_lines_app. f_equal.
    fold (complete_lines (buffer +:+ chunk)).
    by rewrite <- complete_lines_app, string_app_assoc.
  - rewrite string_app_nil_r. unfold complete_lines. by rewrite Hb.
  - rewrite string_app_nil_r. unfold complete_lines. by rewrite Hb.
Qed.
End Lines.

Lemma complete_lines_nil t : complete_lines t = [] → split_lines t = [t].
Proof.
  unfold complete_lines. induction t as [|c t IH]; [done|].
  cbn [split_lines]. destruct (split_lines_cons t) as (l & ls & Ht).
  rewrite Ht in IH |- *. case_decide.
  - by rewrite (complete_lines_cons EmptyString (l :: ls)).
  - rewrite complete_lines_cons. destruct ls as [|l' ls]; [|done].
    intros _. specialize (IH eq_refl). by simplify_eq.
Qed.

Lemma split_lines_one_app a b :
  split_lines a = [a] → split_lines b = [b] →
  split_lines (a +:+ b) = [a +:+ b].
Proof.
  intros Ha Hb. induction a as [|c a IH].
  - by rewrite string_app_nil_l.
  - rewrite string_app_cons. cbn [split_lines] in Ha |- *.
    case_decide as Hc; [done|].
    destruct (split_lines_cons a) as (l & ls & Hl). rewrite Hl in Ha.
    simplify_eq. by rewrite IH.
Qed.

Section ClientTheorems.
Variable config : WorkspaceConfiguration.
Variable JSON_parse : string → option Chunk.

(** X13 - [streamChatCompletion] yields, in order, the parsed data of
    every complete line [data: ...] of the body that parses, up to the
    first line [data: [DONE]]; the other lines and the data that do not
    parse are skipped.  It returns at [data: [DONE]], whatever follows,
    or at the end of the body; it throws what [handleApiError] makes of
    the failure when the request is rejected or the body fails before a
    line [data: [DONE]]. *)
Theorem streamChatCompletion_events post messages options :
  let stream :=
    PerplexityClient.streamChatCompletion config JSON_parse post messages
      options in
  match post (PerplexityClient.request config true messages options) with
  | Rejected error =>
      stream = Raise (PerplexityClient.handleApiError error)
  | Streaming body =>
      let lines := complete_lines (body_text body) in
      stream_chunks stream
      = omap (line_event JSON_parse) (before_done lines)
      ∧ stream_error stream
        = if decide ("data: [DONE]" ∈ lines) then None
          else PerplexityClient.handleApiError <$> body_failure body
  end.
Proof.
  cbn zeta. unfold PerplexityClient.streamChatCompletion.
  destruct (post _) as [error|body]; [done|].
  rewrite for_chunks_lines by done. rewrite string_app_nil_l.
  destruct (for_lines_chunks JSON_parse (complete_lines (body_text body))
              (match body_failure body with
               | None => Done
               | Some error => Raise (PerplexityClient.handleApiError error)
               end)) as [-> ->].
  split.
  - case_decide; [by rewrite app_nil_r|].
    destruct (body_failure body); cbn; by rewrite app_nil_r.
  - case_decide; [done|]. by destruct (body_failure body).
Qed.

(** The stream is a function of the text of the pieces and of the way
    the body ends. *)
Lemma streamChatCompletion_same_text body body' messages options :
  body_text body = body_text body' →
  body_failure body = body_failure body' →
  PerplexityClient.streamChatCompletion config JSON_parse
    (λ _, Streaming body) messages options
  = PerplexityClient.streamChatCompletion config JSON_parse
      (λ _, Streaming body') messages options.
Proof.
  intros Htext Hend. unfold PerplexityClient.streamChatCompletion.
  rewrite !for_chunks_lines by done. by rewrite Htext, Hend.
Qed.

Lemma body_failure_decoded toString raw :
  body_failure (decoded toString raw) = raw_failure raw.
Proof. induction raw as [chunk rest IH| |error]; done. Qed.

(** X14 - As long as every chunk ends where a character ends, so that
    decoding the chunks one by one gives the text of the whole body,
    the chunks in which the network delivers the body do not matter: two
    deliveries of the same bytes with the same ending give the same
    stream.  A chunk that ends inside a character is outside this
    statement: each chunk is decoded on its own. *)
Theorem streamChatCompletion_chunking toString raw raw' messages options :
  raw_bytes raw = raw_bytes raw' →
  raw_failure raw = raw_failure raw' →
  splits_at_characters toString raw →
  splits_at_characters toString raw' →
  PerplexityClient.streamChatCompletion config JSON_parse
    (λ _, Streaming (decoded toString raw)) messages options
  = PerplexityClient.streamChatCompletion config JSON_parse
      (λ _, Streaming (decoded toString raw')) messages options.
Proof.
  unfold splits_at_characters. intros Hbytes Hend Hraw Hraw'.
  apply streamChatCompletion_same_text.
  - by rewrite Hraw, Hraw', Hbytes.
  - by rewrite !body_failure_decoded.
Qed.

(** X15 - Text after the last line feed of the body is never delivered:
    a body that goes on with text in which no line is complete gives the
    stream it gives without that text, so a last line [data: ...] that
    is not terminated is lost. *)
Theorem unterminated_line_is_dropped body body' tail messages options :
  body_text body' = body_text body +:+ tail →
  complete_lines tail = [] →
  body_failure body' = body_failure body →
  PerplexityClient.streamChatCompletion config JSON_parse
    (λ _, Streaming body') messages options
  = PerplexityClient.streamChatCompletion config JSON_parse
      (λ _, Streaming body) messages options.
Proof.
  intros Htext Htail Hend. unfold PerplexityClient.streamChatCompletion.
  rewrite !for_chunks_lines by done. rewrite Htext, Hend.
  rewrite !string_app_nil_l, complete_lines_app. f_equal.
  assert (complete_lines
            (default EmptyString (last (split_lines (body_text body)))
             +:+ tail) = []) as ->; [|by rewrite app_nil_r].
  unfold complete_lines.
  rewrite split_lines_one_app; [done|apply split_lines_last|].
  by apply complete_lines_nil.
Qed.
End ClientTheorems.

(** ** The client under [ChatManager] *)

Lemma handleApiError_Error error :
  ∃ text, PerplexityClient.handleApiError error = ErrorObj text.
Proof.
  unfold PerplexityClient.handleApiError.
  destruct (response error); repeat case_decide; eauto.
Qed.

Section Transport.
Variable uuid_src : nat → string.
Variable clock : nat → Date.
Variable config : WorkspaceConfiguration.
Variable JSON_parse : string → option Chunk.

Lemma streamChatCompletion_error post messages options error :
  stream_error
    (PerplexityClient.streamChatCompletion config JSON_parse post messages
       options) = Some error →
  ∃ e, error = PerplexityClient.handleApiError e.
Proof.
  unfold PerplexityClient.streamChatCompletion.
  destruct (post _) as [e|body]; [cbn; intros [= <-]; eauto|].
  rewrite for_chunks_lines by done. rewrite string_app_nil_l.
  destruct (for_lines_chunks JSON_parse (complete_lines (body_text body))
              (match body_failure body with
               | None => Done
               | Some error => Raise (PerplexityClient.handleApiError error)
               end)) as [_ ->].
  case_decide; [done|].
  destruct (body_failure body) as [e|]; [|done]. cbn. intros [= <-]. eauto.
Qed.

(** X16 - When the request is rejected or the body fails, [sendMessage]
    throws the [Error] that [handleApiError] made of the failure, and
    the session ends with an assistant message whose content is
    ['Error: '] followed by the message of that [Error]: the text
    ['Unknown error occurred'] is never shown for a failure of the
    transport. *)
Theorem transport_failure_reaches_chat post content mode w error :
  wf w →
  let respond := λ api,
    PerplexityClient.streamChatCompletion config JSON_parse post api
      no_options in
  stream_error (respond (api_messages uuid_src clock content mode w))
    = Some error →
  ∃ s w' m e text,
    sendMessage uuid_src clock respond content mode w = (Throw error, w')
    ∧ error = PerplexityClient.handleApiError e
    ∧ error = ErrorObj text
    ∧ current_session w' = Some s
    ∧ last (messages_in w' s) = Some m
    ∧ ChatMessage.role m = assistant
    ∧ ChatMessage.content m = "Error: " +:+ text
    ∧ ChatMessage.streaming m = None.
Proof.
  intros Hwf respond Herr.
  destruct (streamChatCompletion_error _ _ _ _ Herr) as [e He].
  destruct (handleApiError_Error e) as [text Htext].
  pose proof (stream_split
                (respond (api_messages uuid_src clock content mode w)))
    as Hsplit.
  rewrite Herr in Hsplit.
  destruct (sendMessage_raise_spec uuid_src clock respond content mode
              _ error w Hwf Hsplit) as (s & o & a & Hact & Hsend).
  rewrite Hsend.
  set (w1 := pushed uuid_src clock content mode _ s o a) in *.
  eexists s, _, (error_message uuid_src clock error w1), e, text.
  split; [reflexivity|]. split_and!.
  - done.
  - congruence.
  - apply active_current in Hact. by rewrite <- Hact.
  - erewrite messages_in_eq; cycle 1.
    + unfold recovered. cbn [objs]. apply list_lookup_insert_eq.
      eapply lookup_lt_Some. by eapply pushed_facts.
    + unfold recovered. cbn [arrs ChatSession.messages
        ChatSession.set_messages]. apply lookup_snoc.
    + unfold recovered. cbn [msgs]. rewrite omap_app. cbn.
      rewrite lookup_app_r by (by rewrite length_insert).
      rewrite length_insert, Nat.sub_diag. cbn. apply last_snoc.
  - done.
  - cbn. rewrite He, Htext. done.
  - done.
Qed.
End Transport.

(** * The configuration *)

Lemma lt_true a b : ConfigManager.lt a b = true ↔ (a < b)%Q.
Proof.
  unfold ConfigManager.lt. rewrite negb_true_iff.
  rewrite <- not_true_iff_false, Qle_bool_iff. split.
  - apply Qnot_le_lt.
  - apply Qlt_not_le.
Qed.

Lemma lt_false a b : ConfigManager.lt a b = false ↔ (b <= a)%Q.
Proof.
  unfold ConfigManager.lt. rewrite negb_false_iff. apply Qle_bool_iff.
Qed.

(** [Math.max(lo, Math.min(hi, x))] *)
Lemma clamp_spec lo hi x :
  (lo <= hi)%Q →
  between lo hi (Qmax lo (Qmin hi x))
  ∧ ((x < lo)%Q → Qmax lo (Qmin hi x) == lo)
  ∧ (between lo hi x → Qmax lo (Qmin hi x) == x)
  ∧ ((hi < x)%Q → Qmax lo (Qmin hi x) == hi).
Proof.
  intros Hlh. unfold between. split_and!.
  - apply Q.le_max_l.
  - apply Q.max_lub; [done|apply Q.le_min_l].
  - intros Hx. apply Q.max_l. eapply Qle_trans; [apply Q.le_min_r|].
    by apply Qlt_le_weak.
  - intros [Hlo Hhi]. rewrite Q.min_r by done. by apply Q.max_r.
  - intros Hx. rewrite Q.min_l by (by apply Qlt_le_weak). by apply Q.max_r.
Qed.

(** X17 - [getTemperature] and [getMaxTokens] return a number between
    their bounds whatever the settings hold: a setting within the bounds
    is returned as it is, one below them gives the lower and one above
    them the upper bound. *)
Theorem getters_clamp config :
  between 0 2 (ConfigManager.getTemperature config)
  ∧ between 1 128000 (ConfigManager.getMaxTokens config)
  ∧ (∀ x, cfg_temperature config = Some x →
       ((x < 0)%Q → ConfigManager.getTemperature config == 0)
       ∧ (between 0 2 x → ConfigManager.getTemperature config == x)
       ∧ ((2 < x)%Q → ConfigManager.getTemperature config == 2))
  ∧ (∀ x, cfg_maxTokens config = Some x →
       ((x < 1)%Q → ConfigManager.getMaxTokens config == 1)
       ∧ (between 1 128000 x → ConfigManager.getMaxTokens config == x)
       ∧ ((128000 < x)%Q → ConfigManager.getMaxTokens config == 128000)).
Proof.
  unfold ConfigManager.getTemperature, ConfigManager.getMaxTokens.
  split_and!.
  - by apply clamp_spec.
  - by apply clamp_spec.
  - intros x ->. by apply clamp_spec.
  - intros x ->. by apply clamp_spec.
Qed.

(** X18 - [validateConfiguration] accepts a configuration exactly when
    the API key is not empty and the temperature and the maximum of
    tokens, where they are set, lie within their bounds.  For a
    configuration it accepts, the getters return the settings, or their
    defaults, unchanged. *)
Theorem validateConfiguration_accepts config :
  (ConfigManager.valid (ConfigManager.validateConfiguration config) = true
   ↔ ConfigManager.getApiKey config ≠ EmptyString
     ∧ (∀ x, cfg_temperature config = Some x → between 0 2 x)
     ∧ (∀ x, cfg_maxTokens config = Some x → between 1 128000 x))
  ∧ (ConfigManager.valid (ConfigManager.validateConfiguration config) = true
     → ConfigManager.getTemperature config
         == default (2 # 10)%Q (cfg_temperature config)
       ∧ ConfigManager.getMaxTokens config
         == default 4096%Q (cfg_maxTokens config)).
Proof.
  assert (ConfigManager.valid (ConfigManager.validateConfiguration config)
            = true
          ↔ ConfigManager.getApiKey config ≠ EmptyString
            ∧ (∀ x, cfg_temperature config = Some x → between 0 2 x)
            ∧ (∀ x, cfg_maxTokens config = Some x → between 1 128000 x))
    as Hiff.
  { unfold ConfigManager.validateConfiguration, between. cbn.
    rewrite Nat.eqb_eq, length_zero_iff_nil.
    destruct (ConfigManager.getApiKey config) as [|c key] eqn:Hkey; cbn.
    - split; [|by intros [? _]].
      destruct (cfg_temperature config) as [t|],
        (cfg_maxTokens config) as [m|];
        repeat (destruct (_ || _)); intros H;
        by apply (f_equal length) in H; rewrite ?length_app in H.
    - destruct (cfg_temperature config) as [t|] eqn:Ht,
        (cfg_maxTokens config) as [m|] eqn:Hm.
      all: repeat match goal with
        | |- context [ConfigManager.lt ?a ?b || ConfigManager.lt ?c ?d] =>
            let E1 := fresh "E" in let E2 := fresh "E" in
            destruct (ConfigManager.lt a b) eqn:E1,
              (ConfigManager.lt c d) eqn:E2; cbn [orb app]
        end.
      all: rewrite ?lt_true, ?lt_false in *.
      all: split; [intros H; try done|intros (_ & H1 & H2)].
      all: try (split; [done|]).
      all: try (split; intros ? [= <-]; done).
      all: try (specialize (H1 _ eq_refl) as [??]).
      all: try (specialize (H2 _ eq_refl) as [??]).
      all: try done.
      all: exfalso.
      all: match goal with
           | H1 : (?a < ?b)%Q, H2 : (?b <= ?a)%Q |- _ =>
               exact (Qlt_not_le _ _ H1 H2)
           end. }
  split; [done|]. intros Hv. apply Hiff in Hv as (_ & Ht & Hm).
  split.
  - unfold ConfigManager.getTemperature.
    destruct (cfg_temperature config) as [t|] eqn:E; [|done].
    destruct (clamp_spec 0 2 t) as (_ & _ & H & _); [done|].
    apply H. by apply Ht.
  - unfold ConfigManager.getMaxTokens.
    destruct (cfg_maxTokens config) as [m|] eqn:E; [|done].
    destruct (clamp_spec 1 128000 m) as (_ & _ & H & _); [done|].
    apply H. by apply Hm.
Qed.


(** * The requests of the webview *)

Section ProviderTheorems.
Variable uuid_src : nat → string.
Variable clock : nat → Date.
Variable toISOString : Date → string.
Variable config : WorkspaceConfiguration.
Variable respond : list PerplexityMessage → Stream.

Abbreviation handle :=
  (ChatProvider.handleWebviewMessage uuid_src clock toISOString config
     respond).

(** X20 - A request to switch to a session that the store does not hold
    changes nothing in the manager and is answered with one ['error']
    message, ['Session not found: '] followed by the id; a request to
    delete such a session is answered with the list of the sessions and
    no error. *)
Theorem unknown_session_requests k content mode p w :
  k ≠ EmptyString →
  map_get k (sessions w) = None →
  handle
    {| ChatProvider.type := "switchSession";
       ChatProvider.content := content;
       ChatProvider.mode := mode;
       ChatProvider.sessionId := Some k |} p w
  = (ChatProvider.sendToWebview
       (ChatProvider.error ("Session not found: " +:+ k)) p, w)
  ∧ handle
      {| ChatProvider.type := "deleteSession";
         ChatProvider.content := content;
         ChatProvider.mode := mode;
         ChatProvider.sessionId := Some k |} p w
    = (ChatProvider.sendSessionsList toISOString w p, w).
Proof.
  intros Hk Hnone.
  assert (truthy (Some k) = true) as Ht by (by apply truthy_Some).
  assert (or_default (Some k) EmptyString = k) as Hor
    by apply or_default_empty.
  unfold ChatProvider.handleWebviewMessage, ChatProvider.dispatch.
  cbn [ChatProvider.type ChatProvider.sessionId]. split.
  - rewrite decide_False by done. rewrite decide_False by done.
    rewrite decide_False by done. rewrite decide_True by done.
    rewrite Ht, Hor. unfold switchToSession.
    rewrite decide_False by done. unfold bind, gets. rewrite Hnone. done.
  - rewrite decide_False by done. rewrite decide_False by done.
    rewrite decide_False by done. rewrite decide_False by done.
    rewrite decide_True by done. rewrite Ht, Hor.
    unfold deleteSession, bind, gets, map_has. rewrite Hnone.
    by rewrite orb_true_r.
Qed.

(** X21 - Requests without their argument are ignored: ['sendMessage']
    with a missing or empty content, ['switchSession'] and
    ['deleteSession'] with a missing or empty id, and a request of an
    unknown type leave the manager as it is and post nothing. *)
Theorem empty_requests_are_ignored data p w :
  (ChatProvider.type data = "sendMessage"
   ∧ truthy (ChatProvider.content data) = false)
  ∨ (ChatProvider.type data = "switchSession"
     ∧ truthy (ChatProvider.sessionId data) = false)
  ∨ (ChatProvider.type data = "deleteSession"
     ∧ truthy (ChatProvider.sessionId data) = false)
  ∨ (ChatProvider.type data ∉
       ["initialize"; "sendMessage"; "newSession"; "switchSession";
        "deleteSession"; "clearAllSessions"]) →
  handle data p w = (p, w).
Proof.
  unfold ChatProvider.handleWebviewMessage, ChatProvider.dispatch.
  intros [[-> ->]|[[-> ->]|[[-> ->]|Hother]]].
  - done.
  - done.
  - done.
  - repeat (rewrite decide_False;
              [|intros Heq; apply Hother; rewrite Heq;
                repeat (first [left; fail|right])]).
    done.
Qed.

Lemma sendMessage_raise_last content mode chunks error w :
  wf w →
  respond (api_messages uuid_src clock content mode w)
    = of_chunks chunks (Raise error) →
  ∃ s w' m,
    sendMessage uuid_src clock respond content mode w = (Throw error, w')
    ∧ current_session w' = Some s
    ∧ last (messages_in w' s) = Some m
    ∧ ChatMessage.role m = assistant
    ∧ ChatMessage.content m = "Error: " +:+ error_text error.
Proof.
  intros Hwf Hresp.
  destruct (sendMessage_raise_spec uuid_src clock respond content mode
              chunks error w Hwf Hresp) as (s & o & a & Hact & Hsend).
  rewrite Hsend.
  set (w1 := pushed uuid_src clock content mode _ s o a) in *.
  eexists s, _, (error_message uuid_src clock error w1).
  split; [reflexivity|]. split_and!; [| |done..].
  - apply active_current in Hact. by rewrite <- Hact.
  - erewrite messages_in_eq; cycle 1.
    + unfold recovered. cbn [objs]. apply list_lookup_insert_eq.
      eapply lookup_lt_Some. by eapply pushed_facts.
    + unfold recovered. cbn [arrs ChatSession.messages
        ChatSession.set_messages]. apply lookup_snoc.
    + unfold recovered. cbn [msgs]. rewrite omap_app. cbn.
      rewrite lookup_app_r by (by rewrite length_insert).
      rewrite length_insert, Nat.sub_diag. cbn. apply last_snoc.
Qed.

(** X22 - A ['sendMessage'] request whose exchange fails shows the
    failure twice: the session ends with an assistant message ['Error: ']
    followed by the text of the error, and the webview receives an
    ['error'] message with that text.  [handleWebviewMessage] itself
    returns normally. *)
Theorem failed_send_is_reported content mode sid chunks error p w :
  wf w →
  content ≠ EmptyString →
  respond (api_messages uuid_src clock content mode w)
    = of_chunks chunks (Raise error) →
  ∃ s w' m,
    handle
      {| ChatProvider.type := "sendMessage";
         ChatProvider.content := Some content;
         ChatProvider.mode := Some mode;
         ChatProvider.sessionId := sid |} p w
    = (ChatProvider.sendToWebview
         (ChatProvider.error (error_text error)) p, w')
    ∧ current_session w' = Some s
    ∧ last (messages_in w' s) = Some m
    ∧ ChatMessage.content m = "Error: " +:+ error_text error.
Proof.
  intros Hwf Hc Hresp.
  destruct (sendMessage_raise_last content mode chunks error w Hwf Hresp)
    as (s & w' & m & Hsend & Hcur & Hlast & _ & Hm).
  exists s, w', m. split_and!; [|done..].
  unfold ChatProvider.handleWebviewMessage, ChatProvider.dispatch.
  cbn [ChatProvider.type ChatProvider.content ChatProvider.mode default].
  rewrite decide_False by done. rewrite decide_True by done.
  rewrite (proj2 (truthy_Some _) Hc), or_default_empty. cbn [id].
  by rewrite Hsend.
Qed.

(** The list for the webview holds each session of a well-formed store
    once, under its id. *)
Lemma sessions_list_ids w :
  wf w →
  ChatProvider.ss_id <$>
    omap (ChatProvider.serializeSession toISOString w) (getAllSessions w)
  ≡ₚ (sessions w).*1.
Proof.
  intros Hwf. destruct (getAllSessions_sorted w) as [Hperm _].
  rewrite Hperm. unfold map_values.
  assert (∀ e, e ∈ sessions w →
    ChatProvider.ss_id <$> ChatProvider.serializeSession toISOString w e.2
    = Some e.1) as Hid.
  { intros e He.
    destruct (snapshot_wf w e Hwf He) as (o & a & _ & Hid & _ & Hsnap).
    unfold ChatProvider.serializeSession. rewrite Hsnap. cbn. by rewrite Hid. }
  clear Hperm. induction (sessions w) as [|e l IH]; [done|].
  rewrite !fmap_cons.
  change (omap ?f (e.2 :: ?t)) with
    (match f e.2 with Some u => u :: omap f t | None => omap f t end).
  pose proof (Hid e (list_elem_of_here _ _)) as He.
  destruct (ChatProvider.serializeSession toISOString w e.2) as [v|];
    [|done].
  cbn in He. injection He as He. rewrite fmap_cons, He.
  constructor. apply IH. intros e' He'. apply Hid. by right.
Qed.

(** X23 - A request to delete a session of the store removes it and
    answers with the list of the remaining sessions, latest first: the
    deleted session is not in the list, every other session is, once. *)
Theorem delete_request_posts_list k content mode p w :
  wf w →
  k ≠ EmptyString →
  is_Some (map_get k (sessions w)) →
  ∃ w' l,
    handle
      {| ChatProvider.type := "deleteSession";
         ChatProvider.content := content;
         ChatProvider.mode := mode;
         ChatProvider.sessionId := Some k |} p w
    = (ChatProvider.sendToWebview (ChatProvider.sessionsUpdate l) p, w')
    ∧ deleteSession k w = (Ok tt, w')
    ∧ l = omap (ChatProvider.serializeSession toISOString w')
            (getAllSessions w')
    ∧ ChatProvider.ss_id <$> l ≡ₚ filter (λ k', k' ≠ k) (sessions w).*1
    ∧ (k ∉ ChatProvider.ss_id <$> l).
Proof.
  intros Hwf Hk [s Hs].
  destruct (wf_session_obj _ (k, s) Hwf) as (o & Ho & _);
    [by apply map_get_elem|].
  destruct (deleteSession_present k w s o Hk Hs Ho)
    as (w' & Hdel & Hss & _).
  destruct (wf_deleteSession k w s o w' Hwf Hk Hs Ho Hdel)
    as [Hwf' _].
  assert ((sessions w').*1 = filter (λ k', k' ≠ k) (sessions w).*1) as Hkeys.
  { rewrite Hss. unfold map_delete. clear.
    induction (sessions w) as [|[k' v] l IH]; [done|].
    rewrite fmap_cons, !filter_cons. cbn [fst].
    case_decide; [rewrite fmap_cons|]; by rewrite IH. }
  eexists w', _. split_and!; [|done|reflexivity| |].
  - unfold ChatProvider.handleWebviewMessage, ChatProvider.dispatch.
    cbn [ChatProvider.type ChatProvider.sessionId].
    rewrite decide_False by done. rewrite decide_False by done.
    rewrite decide_False by done. rewrite decide_False by done.
    rewrite decide_True by done.
    rewrite (proj2 (truthy_Some _) Hk), or_default_empty, Hdel. done.
  - by rewrite sessions_list_ids, Hkeys.
  - rewrite sessions_list_ids, Hkeys by done.
    intros Hin. by apply list_elem_of_filter in Hin as [? _].
Qed.
End ProviderTheorems.

(** * The webview *)

Lemma findIndex_Some id prev index :
  Webview.findIndex id prev = Some index →
  ∃ s, prev !! index = Some s ∧ ChatProvider.ss_id s = id.
Proof.
  unfold Webview.findIndex. intros H.
  destruct (list_find _ prev) as [[i s]|] eqn:Hfind; [|done].
  cbn in H. simplify_eq. apply list_find_Some in Hfind as (? & ? & _). eauto.
Qed.

Lemma findIndex_None id prev :
  Webview.findIndex id prev = None → id ∉ ChatProvider.ss_id <$> prev.
Proof.
  unfold Webview.findIndex. intros H.
  destruct (list_find _ prev) as [[i s]|] eqn:Hfind; [done|].
  apply list_find_None in Hfind. rewrite Forall_forall in Hfind.
  intros Hin. apply list_elem_of_fmap in Hin as (s & -> & Hs).
  by apply (Hfind s).
Qed.

(** The ids of the list after [updateSessionInList]: those it had, and
    the id of the session in front when it is new. *)
Lemma updateSessionInList_ids session prev :
  ChatProvider.ss_id <$> Webview.updateSessionInList session prev
  = if decide (ChatProvider.ss_id session ∈ ChatProvider.ss_id <$> prev)
    then ChatProvider.ss_id <$> prev
    else ChatProvider.ss_id session :: (ChatProvider.ss_id <$> prev).
Proof.
  unfold Webview.updateSessionInList.
  destruct (Webview.findIndex _ prev) as [index|] eqn:Hfind.
  - apply findIndex_Some in Hfind as (s & Hs & Hid).
    rewrite decide_True.
    + rewrite list_fmap_insert. apply list_insert_id.
      by rewrite list_lookup_fmap, Hs, <- Hid.
    + apply list_elem_of_fmap. exists s.
      split; [done|by eapply list_elem_of_lookup_2].
  - apply findIndex_None in Hfind. by rewrite decide_False.
Qed.

(** X24 - The list of sessions of the webview never shows an id twice:
    [updateSessionInList] puts the session of a ['sessionUpdate'] in the
    place of the one with its id, or in front when the id is new, so
    the ids of the list stay distinct under every sequence of messages
    in which each ['sessionsUpdate'] carries distinct ids; the session
    of the last ['sessionUpdate'] is in the list. *)
Theorem webview_sessions_unique messages st :
  NoDup (ChatProvider.ss_id <$> Webview.sessions st) →
  Forall (λ m, ∀ l, m = Webview.sessionsUpdate l →
                NoDup (ChatProvider.ss_id <$> l)) messages →
  NoDup (ChatProvider.ss_id <$>
           Webview.sessions (Webview.after messages st))
  ∧ ∀ session,
      last messages = Some (Webview.sessionUpdate (Some session)) →
      session ∈ Webview.sessions (Webview.after messages st)
      ∧ Webview.currentSession (Webview.after messages st) = Some session.
Proof.
  unfold Webview.after. revert st.
  induction messages as [|m messages IH] using rev_ind; intros st Hst Hms.
  - split; [done|]. by intros.
  - apply Forall_app in Hms as [Hms Hm]. rewrite Forall_singleton in Hm.
    rewrite foldl_app. cbn [foldl].
    destruct (IH st Hst Hms) as [Hnd _].
    set (st' := foldl _ st messages) in *. split.
    + destruct m as [[session|]|l|c|[session|]|t]; cbn; try done.
      * rewrite updateSessionInList_ids. case_decide; [done|].
        by constructor.
      * by apply Hm.
    + intros session. rewrite last_snoc. intros [= ->]. cbn. split; [|done].
      unfold Webview.updateSessionInList.
      destruct (Webview.findIndex _ _) as [index|] eqn:Hfind; [|left].
      apply findIndex_Some in Hfind as (s & Hs & _).
      eapply list_elem_of_lookup_2. apply list_lookup_insert_eq.
      by eapply lookup_lt_Some.
Qed.

(** X25 - Only a message that carries a session changes the current
    session of the webview.  The ['sessionUpdate'] with [null] that
    follows [clearAllSessions] or the deletion of the last session
    changes nothing, and the ['sessionsUpdate'] after it replaces the
    list only: the webview goes on showing the session it showed. *)
Theorem webview_keeps_current_session messages st l :
  Forall (λ m, ∀ session,
            m ≠ Webview.sessionUpdate (Some session)
            ∧ m ≠ Webview.streamingUpdate (Some session)) messages →
  Webview.currentSession (Webview.after messages st)
  = Webview.currentSession st
  ∧ Webview.after
      [Webview.receive (ChatProvider.sessionUpdate None);
       Webview.receive (ChatProvider.sessionsUpdate l)] st
    = {| Webview.sessions := l;
         Webview.currentSession := Webview.currentSession st;
         Webview.theme := Webview.theme st |}.
Proof.
  intros Hms. split; [|done]. unfold Webview.after. revert st.
  induction Hms as [|m messages Hm _ IH]; intros st; [done|].
  cbn [foldl]. rewrite IH.
  destruct m as [[session|]|l'|c|[session|]|t]; try done.
  - by destruct (Hm session) as [? _].
  - by destruct (Hm session) as [_ ?].
Qed.

(** * The commands on the selected code *)

Lemma words_of_head c s :
  is_space c = false → ∃ w ws, words_of (String c s) = w :: ws.
Proof.
  intros Hc. cbn [words_of]. rewrite Hc.
  destruct (starts_with_space s); [by eexists _, _|].
  destruct (words_of s); by eexists _, _.
Qed.

Lemma words_of_app a b :
  starts_with_space b = true →
  words_of (a +:+ b) = words_of a ++ words_of b.
Proof.
  intros Hb. induction a as [|c a IH]; [done|].
  rewrite string_app_cons. cbn [words_of].
  destruct (is_space c) eqn:Hc; [exact IH|].
  rewrite IH. destruct a as [|d a].
  - rewrite string_app_nil_l. cbn. by rewrite Hb.
  - rewrite string_app_cons. cbn [starts_with_space].
    destruct (is_space d) eqn:Hd; [done|].
    destruct (words_of_head d a Hd) as (w & ws & ->). done.
Qed.

Lemma words_of_word w : is_word w → words_of w = [w].
Proof.
  induction w as [|c w IH]; intros [Hne Hw]; [done|].
  assert (is_space c = false) as Hc by (apply Hw; by left).
  cbn [words_of]. rewrite Hc. destruct w as [|d w]; [done|].
  assert (is_space d = false) as Hd by (apply Hw; right; by left).
  cbn [starts_with_space]. rewrite Hd, IH; [done|].
  split; [done|]. intros e He. apply Hw. by right.
Qed.

Lemma is_word_cons c w :
  is_space c = false → is_word w → is_word (String c w).
Proof.
  intros Hc [_ Hw]. split; [done|]. intros e [<-|He]; auto.
Qed.

(** The words of a text that starts with the word [w] and goes on with
    white space. *)
Lemma words_of_word_app w s :
  is_word w → starts_with_space s = true →
  words_of (w +:+ s) = w :: words_of s.
Proof. intros Hw Hs. by rewrite words_of_app, words_of_word. Qed.

Lemma words_of_space c s :
  is_space c = true → words_of (String c s) = words_of s.
Proof. intros Hc. cbn [words_of]. by rewrite Hc. Qed.

Lemma is_word_fence language :
  is_word language → is_word ("```" +:+ language).
Proof. intros Hw. rewrite !string_app_cons. by repeat apply is_word_cons. Qed.

(** The words of a prompt from its code block on: the fence with the
    language, the words of the selection and the closing fence. *)
Lemma words_of_code_block language selectedText :
  is_word language →
  words_of (Extension.n +:+ Extension.n +:+ "```" +:+ language
            +:+ Extension.n +:+ selectedText +:+ Extension.n +:+ "```")
  = ("```" +:+ language) :: words_of selectedText ++ ["```"].
Proof.
  intros Hw. unfold Extension.n.
  rewrite !(string_app_cons LF), !string_app_nil_l.
  rewrite !(words_of_space LF) by done.
  rewrite <- (string_app_assoc "```" language).
  rewrite words_of_word_app; [|by apply is_word_fence|done].
  rewrite words_of_space by done.
  by rewrite words_of_app by done.
Qed.

Ltac literal_words s :=
  let ws := eval vm_compute in (words_of s) in
  change (words_of s) with ws.
(** The first six words of the prompt of a command: it has more than
    five words, and the first five make the title. *)
Lemma prompt_words command language selectedText :
  is_word language →
  ∃ a b c d e f rest,
    words_of (Extension.prompt command language selectedText)
    = a :: b :: c :: d :: e :: f :: rest
    ∧ command_title command language
    = a +:+ " " +:+ b +:+ " " +:+ c +:+ " " +:+ d +:+ " " +:+ e +:+ "...".
Proof.
  intros Hw. destruct command; unfold Extension.prompt, command_title.
  - change ("Explain this " +:+ ?x) with ("Explain this" +:+ " " +:+ x).
    rewrite words_of_app by done.
    rewrite (string_app_cons " "), string_app_nil_l.
    rewrite (words_of_space " ") by done.
    rewrite words_of_word_app by done.
    rewrite (words_of_app " code:") by done.
    rewrite words_of_code_block by done.
    literal_words "Explain this". literal_words " code:". cbn [app].
    destruct (words_of selectedText);
      (eexists _, _, _, _, _, _, _; split; [reflexivity|]);
      by rewrite !string_app_assoc.
  - change ("Help me debug this " +:+ ?x)
      with ("Help me debug this" +:+ " " +:+ x).
    rewrite words_of_app by done.
    rewrite (string_app_cons " "), string_app_nil_l.
    rewrite (words_of_space " ") by done.
    rewrite words_of_word_app by done.
    rewrite (words_of_app
             " code. Identify potential issues and suggest fixes:")
      by done.
    literal_words "Help me debug this".
    literal_words " code. Identify potential issues and suggest fixes:".
    cbn [app]. eexists _, _, _, _, _, _, _; split; reflexivity.
  - change ("Optimize this " +:+ ?x) with ("Optimize this" +:+ " " +:+ x).
    rewrite words_of_app by done.
    rewrite (string_app_cons " "), string_app_nil_l.
    rewrite (words_of_space " ") by done.
    rewrite words_of_word_app by done.
    rewrite (words_of_app
             " code for better performance and readability:") by done.
    literal_words "Optimize this".
    literal_words " code for better performance and readability:".
    cbn [app]. eexists _, _, _, _, _, _, _; split; reflexivity.
  - change ("Generate comprehensive unit tests for this " +:+ ?x)
      with ("Generate comprehensive unit tests for this" +:+ " " +:+ x).
    rewrite words_of_app by done.
    literal_words "Generate comprehensive unit tests for this".
    cbn [app]. eexists _, _, _, _, _, _, _; split; reflexivity.
Qed.


Section Commands.
Variable uuid_src : nat → string.
Variable clock : nat → Date.
Variable respond : list PerplexityMessage → Stream.

(** X26 - A command on the selected code, run in an editor whose
    language id is one word and whose selection is not empty, sends one
    message in the mode of the command.  The title generated from that
    message is made of the first five words of the prompt of the command
    and never shows the selected code. *)
Theorem code_command_title command editor w :
  is_word (Extension.languageId editor) →
  Extension.selectedText editor ≠ EmptyString →
  ∃ content,
    Extension.run uuid_src clock respond command (Some editor) w
    = (Extension.Asked
         (sendMessage uuid_src clock respond content
            (Extension.mode command) w).1,
       (sendMessage uuid_src clock respond content
          (Extension.mode command) w).2)
    ∧ generateSessionTitle content
      = command_title command (Extension.languageId editor).
Proof.
  intros Hw Hsel. destruct editor as [language selectedText]. cbn in *.
  exists (Extension.prompt command language selectedText). split.
  { unfold Extension.run. cbn. by rewrite decide_False by done. }
  rewrite generateSessionTitle_spec. unfold spec_title.
  destruct (prompt_words command language selectedText Hw)
    as (a & b & c & d & e & f & rest & -> & ->).
  cbn [length].
  change (5 <? S (S (S (S (S (S (length rest)))))))%nat with true.
  cbn [take]. unfold join. cbn [String.concat].
  rewrite !string_app_assoc. reflexivity.
Qed.
End Commands.

(** * The composer of the webview *)

Lemma trimStart_id s : starts_with_space s = false → trimStart s = s.
Proof. destruct s as [|c s]; [done|]. cbn. by intros ->. Qed.

Lemma trim_idem s : trim (trim s) = trim s.
Proof.
  unfold trim. rewrite (trimStart_id (trimEnd _)); [apply trimEnd_idem|].
  destruct (decide (trimEnd (trimStart s) = EmptyString)) as [->|Hne];
    [done|].
  rewrite trimEnd_head by done. apply trimStart_no_space.
Qed.

Section Composer.
Variable uuid_src : nat → string.
Variable clock : nat → Date.
Variable toISOString : Date → string.
Variable config : WorkspaceConfiguration.
Variable respond : list PerplexityMessage → Stream.

(** X27 - The composer of the webview posts nothing, and keeps its
    state, when the input is blank or an answer is awaited.  Otherwise it
    clears the input, awaits the answer and posts the trimmed input with
    the selected mode, and the provider never drops that request: it
    passes exactly this text and mode to [ChatManager.sendMessage], and
    reports to the webview what that throws. *)
Theorem composer_message_reaches_manager c p w :
  let message := trim (Webview.inputMessage c) in
  match Webview.sendMessage c with
  | (c', None) =>
      c' = c ∧ (message = EmptyString ∨ Webview.isLoading c = true)
  | (c', Some data) =>
      message ≠ EmptyString
      ∧ trim message = message
      ∧ Webview.isLoading c = false
      ∧ c' = {| Webview.inputMessage := EmptyString;
                Webview.isLoading := true;
                Webview.searchMode := Webview.searchMode c |}
      ∧ ChatProvider.handleWebviewMessage uuid_src clock toISOString config
          respond data p w
        = match sendMessage uuid_src clock respond message
                  (Webview.searchMode c) w with
          | (Ok _, w') => (p, w')
          | (Throw e, w') =>
              (ChatProvider.sendToWebview
                 (ChatProvider.error (error_text e)) p, w')
          end
  end.
Proof.
  intros message. unfold Webview.sendMessage. fold message.
  case_bool_decide as Hm; [cbn; by auto|].
  destruct (Webview.isLoading c) eqn:Hl; [cbn; by auto|]. cbn [orb].
  split_and!; [done|apply trim_idem|done|by destruct c|].
  unfold ChatProvider.handleWebviewMessage, ChatProvider.dispatch.
  cbn [ChatProvider.type ChatProvider.content ChatProvider.mode default].
  rewrite decide_False by done. rewrite decide_True by done.
  rewrite (proj2 (truthy_Some _) Hm), or_default_empty. cbn [id].
  by destruct (sendMessage _ _ _ _ _ _) as [[?|?] ?].
Qed.
End Composer.

(** * The first messages of the webview *)

(** What [getCurrentSession] returns on a well-formed store: a copy of
    the current session at a new location, or [null]. *)
Lemma getCurrentSession_spec w :
  wf w →
  if truthy (currentSessionId w) then
    ∃ s o,
      current_session w = Some s
      ∧ objs w !! s = Some o
      ∧ getCurrentSession w
        = (Ok (Some (length (objs w))), with_objs (objs w ++ [o]) w)
  else getCurrentSession w = (Ok None, w).
Proof.
  intros Hwf.
  assert (getCurrentSession w
          = if truthy (currentSessionId w)
            then getSession (or_default (currentSessionId w) EmptyString) w
            else (Ok None, w)) as ->.
  { unfold getCurrentSession. unfold bind at 1, gets at 1.
    by destruct (truthy (currentSessionId w)). }
  destruct (truthy (currentSessionId w)) eqn:Ht; [|done].
  destruct (currentSessionId w) as [k|] eqn:Hcur; [|done].
  destruct (wf_current w Hwf k Hcur Ht) as [s Hs].
  destruct (wf_session_obj w (k, s) Hwf) as (o & Ho & _);
    [by apply map_get_elem|]. cbn [snd] in Ho.
  exists s, o. split_and!; [|done|].
  - unfold current_session. rewrite Hcur. done.
  - rewrite or_default_empty. unfold getSession, spread. run.
    rewrite Hs. run. by rewrite Ho.
Qed.

Section Initialize.
Variable uuid_src : nat → string.
Variable clock : nat → Date.
Variable toISOString : Date → string.
Variable config : WorkspaceConfiguration.
Variable respond : list PerplexityMessage → Stream.

(** X28 - An ['initialize'] request changes nothing in the store and
    posts three messages: the current session, or [null], the list of
    the sessions, latest first, and the configuration.  A webview that
    handles them shows that list, every session of the store once; it
    shows the current session of the manager, but goes on showing the
    session it showed when the manager has none; and its theme is the
    configured one, dark for ['auto']. *)
Theorem initialize_shows_store content mode sid p w st :
  wf w →
  ChatProvider.webview p = true →
  ∃ p' w' current l view,
    ChatProvider.handleWebviewMessage uuid_src clock toISOString config
      respond
      {| ChatProvider.type := "initialize";
         ChatProvider.content := content;
         ChatProvider.mode := mode;
         ChatProvider.sessionId := sid |} p w
    = (p', w')
    ∧ sessions w' = sessions w
    ∧ currentSessionId w' = currentSessionId w
    ∧ store w' = store w
    ∧ ChatProvider.posted p'
      = ChatProvider.posted p
        ++ [ChatProvider.sessionUpdate current;
            ChatProvider.sessionsUpdate l;
            ChatProvider.configUpdate view]
    ∧ current
      = (if truthy (currentSessionId w)
         then current_session w ≫= ChatProvider.serializeSession toISOString w
         else None)
    ∧ l = omap (ChatProvider.serializeSession toISOString w')
            (getAllSessions w')
    ∧ ChatProvider.ss_id <$> l ≡ₚ (sessions w).*1
    ∧ let st' :=
        Webview.after
          (Webview.receive <$>
             [ChatProvider.sessionUpdate current;
              ChatProvider.sessionsUpdate l;
              ChatProvider.configUpdate view]) st in
      Webview.sessions st' = l
      ∧ Webview.currentSession st'
        = match current with
          | Some session => Some session
          | None => Webview.currentSession st
          end
      ∧ Webview.theme st'
        = match default Theme.auto (cfg_theme config) with
          | Theme.auto => Theme.dark
          | t => t
          end.
Proof.
  intros Hwf Hview.
  unfold ChatProvider.handleWebviewMessage, ChatProvider.dispatch.
  cbn [ChatProvider.type]. rewrite decide_True by done.
  unfold ChatProvider.sendInitialData.
  pose proof (getCurrentSession_spec w Hwf) as Hget.
  destruct p as [? ps]. cbn in Hview. subst.
  destruct (truthy (currentSessionId w)) eqn:Ht.
  - destruct Hget as (s & o & Hcur & Ho & ->).
    set (w1 := with_objs (objs w ++ [o]) w).
    assert (wf w1) as Hwf1.
    { apply (wf_sub w); [done|done|by apply prefix_app_r| |done|done|].
      - unfold w1. cbn. apply Forall_app. split; [apply Hwf|].
        apply Forall_singleton.
        pose proof (wf_objs _ Hwf) as Hb. rewrite Forall_forall in Hb.
        apply Hb. by eapply list_elem_of_lookup_2.
      - apply Hwf. }
    assert (ChatProvider.serializeSession toISOString w1 (length (objs w))
            = ChatProvider.serializeSession toISOString w s) as Hser.
    { unfold ChatProvider.serializeSession, snapshot, w1. cbn.
      by rewrite lookup_snoc, Ho. }
    unfold ChatProvider.sendSessionsList, ChatProvider.sendConfiguration,
      ChatProvider.sendToWebview.
    cbn [ChatProvider.webview ChatProvider.posted].
    eexists _, w1, _, _, _. split; [reflexivity|].
    split_and!;
      [done|done| |by rewrite <- !app_assoc| |done| |done| |done].
    + apply store_frame; [done..|]. intros e He. cbn.
      destruct (wf_session_obj w e Hwf He) as (o' & Ho' & _).
      apply lookup_app_l. by eapply lookup_lt_Some.
    + cbn [mbind option_bind]. rewrite Hser, Hcur. done.
    + by rewrite sessions_list_ids.
    + cbn. by destruct (ChatProvider.serializeSession _ _ _).
  - rewrite Hget.
    unfold ChatProvider.sendSessionsList, ChatProvider.sendConfiguration,
      ChatProvider.sendToWebview.
    cbn [ChatProvider.webview ChatProvider.posted].
    eexists _, w, None, _, _. split; [reflexivity|].
    split_and!;
      [done|done|done|by rewrite <- !app_assoc|done|done| |done..].
    by rewrite sessions_list_ids.
Qed.
End Initialize.

(** * The scenarios of the specification *)

Import Scenario.

Example title_of_long_message :
  generateSessionTitle "Fix this bug in my sorting algorithm please"
  = "Fix this bug in my...".
Proof. vm_compute. reflexivity. Qed.

Example title_of_short_message : generateSessionTitle "Hi" = "Hi".
Proof. vm_compute. reflexivity. Qed.

Example citations_deduplicated :
  Set_from (received_citations hello_chunks) = ["a.com"; "b.com"].
Proof. vm_compute. reflexivity. Qed.

Lemma sendMessage_accumulates_deltas_witness :
  ∃ p w' m,
    sendMessage uuid clock hello "Say hello" general fresh = (Ok p, w')
    ∧ msgs w' !! p = Some m
    ∧ ChatMessage.content m = "Hello world"
    ∧ ChatMessage.streaming m = Some false.
Proof.
  destruct (sendMessage_accumulates_deltas uuid clock hello "Say hello"
              general hello_chunks fresh)
    as (s & p & w' & m & H1 & _ & _ & H2 & _ & H3 & H4 & _).
  - apply wf_check_sound. vm_compute. reflexivity.
  - vm_compute. reflexivity.
  - exists p, w', m. split_and!; [exact H1|exact H2|exact H3|exact H4].
Defined.

Lemma sendMessage_finalizes_citations_witness :
  ∃ p w' m,
    sendMessage uuid clock hello "Say hello" general fresh = (Ok p, w')
    ∧ msgs w' !! p = Some m
    ∧ ChatMessage.citations m = Some ["a.com"; "b.com"].
Proof.
  destruct (sendMessage_finalizes_citations uuid clock hello "Say hello"
              general hello_chunks fresh)
    as (p & w' & m & H1 & H2 & H3 & _).
  - apply wf_check_sound. vm_compute. reflexivity.
  - vm_compute. reflexivity.
  - exists p, w', m. split_and!; [exact H1|exact H2|exact H3].
Defined.

Lemma sendMessage_recovers_from_failure_witness :
  ∃ w' e,
    sendMessage uuid clock failing "explain this" explain greeted
      = (Throw server_error, w')
    ∧ messages_in w' 0 =
        messages_in greeted 0
        ++ [user_message uuid clock "explain this" explain greeted; e]
    ∧ ChatMessage.content e =
        "Error: Perplexity server error. Please try again later."
    ∧ streaming_count w' 0 = 0.
Proof.
  destruct (sendMessage_recovers_from_failure uuid clock failing
              "explain this" explain [text "Par" None] server_error
              greeted 0)
    as (w' & e & H1 & _ & H2 & _ & H3 & _ & H4).
  - apply wf_check_sound. vm_compute. reflexivity.
  - vm_compute. reflexivity.
  - vm_compute. reflexivity.
  - apply (bool_decide_unpack _). vm_compute. exact I.
  - vm_compute. reflexivity.
  - rewrite (ensured_truthy uuid clock explain greeted) in H2
      by (vm_compute; reflexivity).
    exists w', e. split_and!; [exact H1|exact H2|exact H3|exact H4].
Defined.

Lemma sendMessage_start_while_streaming_witness :
  0 < streaming_count in_flight 0
  ∧ ∃ p api w',
      sendMessage_start uuid clock "second question" general in_flight
        = (Ok (0, p, api), w')
      ∧ streaming_count w' 0 = S (streaming_count in_flight 0).
Proof.
  assert (0 < streaming_count in_flight 0) as Hbusy by (vm_compute; lia).
  split; [exact Hbusy|].
  destruct (sendMessage_start_while_streaming uuid clock "second question"
              general in_flight 0)
    as (p & api & w' & H1 & _ & H2).
  - apply wf_check_sound. vm_compute. reflexivity.
  - vm_compute. reflexivity.
  - vm_compute. reflexivity.
  - exact Hbusy.
  - exists p, api, w'. split; [exact H1|exact H2].
Defined.

Lemma first_message_sets_title_witness :
  ∃ r w' o',
    sendMessage uuid clock hello
      "Fix this bug in my sorting algorithm please" debug fresh = (r, w')
    ∧ objs w' !! 0 = Some o'
    ∧ ChatSession.title o' = "Fix this bug in my...".
Proof.
  destruct (first_message_sets_title uuid clock hello
              "Fix this bug in my sorting algorithm please" debug fresh 0)
    as (r & w' & o' & H1 & H2 & H3).
  - apply wf_check_sound. vm_compute. reflexivity.
  - vm_compute. reflexivity.
  - apply (bool_decide_unpack _). vm_compute. exact I.
  - exists r, w', o'. split_and!; [exact H1|exact H2|exact H3].
Defined.

Lemma deleteSession_promotes_witness :
  currentSessionId two_sessions = Some "2-uuid"
  ∧ ∃ w',
      deleteSession "2-uuid" two_sessions = (Ok tt, w')
      ∧ sessions w' = [("0-uuid", 0)].
Proof.
  split; [vm_compute; reflexivity|].
  destruct (deleteSession_promotes "2-uuid" two_sessions)
    as (w' & H1 & H2 & _).
  - apply wf_check_sound. vm_compute. reflexivity.
  - discriminate.
  - vm_compute. eauto.
  - exists w'. split; [exact H1|exact H2].
Defined.

Lemma deleteSession_unknown_id_witness :
  deleteSession "no-such-session" greeted = (Ok tt, greeted).
Proof.
  apply (deleteSession_unknown_id uuid "no-such-session" greeted).
  vm_compute. reflexivity.
Defined.


Lemma save_then_load_preserves_witness :
  store (save_then_load clock greeted) = map_store normalized (store greeted).
Proof.
  apply (save_then_load_preserves clock greeted).
  - apply wf_check_sound. vm_compute. reflexivity.
  - apply (bool_decide_unpack _). vm_compute. exact I.
  - apply (bool_decide_unpack _). vm_compute. exact I.
Defined.

Lemma at_most_one_streaming_witness :
  streaming_count
    (sendMessage_partial uuid clock "And again" general [text "Hel" None]
       greeted).2 0 ≤ 1.
Proof.
  apply (at_most_one_streaming uuid clock).
  - apply obs_streaming, q_send, q_install.
  - vm_compute. left.
Defined.

(** * Where the code departs from the specification *)

(** C1: the [catch] block removes the last message of the session,
    whichever call pushed it.  When the stream of a [sendMessage] fails
    after the delta ['Par'] while a second [sendMessage] has started on
    the session, it is the placeholder of the second call that is
    removed: the partial message ['Par'] stays in the session with
    [streaming = true], also after the second call has ended.  A
    [sendMessage] that fails while another one awaits its stream leaves
    the placeholder of the other one streaming. *)
Lemma failure_during_overlap_keeps_partial :
  explaining.1 = Ok (0, 2)
  ∧ (∃ api, interrupted.1 = Ok (0, 4, api))
  ∧ failed_first.1 = Throw server_error
  ∧ drop 1 (transcript failed_first.2 0)
    = [(user, "explain this", None);
       (assistant, "Par", Some true);
       (user, "second question", None);
       (assistant, "Error: Perplexity server error. Please try again later.",
        None)]
  ∧ streaming_count failed_first.2 0 = 1
  ∧ ended_second.1 = Ok 4
  ∧ transcript ended_second.2 0 = transcript failed_first.2 0
  ∧ streaming_count ended_second.2 0 = 1
  ∧ failed_second.1 = Throw server_error
  ∧ streaming_count failed_second.2 0 = 1.
Proof. split_and!; vm_compute; eauto. Qed.

(** C2: a second [sendMessage] started while the first awaits its stream
    leaves two messages with [streaming = true] in the session. *)
Lemma overlapping_sends_two_streaming :
  ¬ streaming_count overlapped 0 ≤ 1.
Proof. vm_compute. lia. Qed.

(** C3: an assistant message with empty content is saved and then dropped
    by the load, so the message sequence is not the same. *)
Lemma empty_message_lost_on_load :
  message_ids (store unanswered)
    = [("0-uuid", ["1-uuid"; "2-uuid"; "3-uuid"])]
  ∧ message_ids (store (save_then_load clock unanswered))
    = [("0-uuid", ["1-uuid"; "2-uuid"])].
Proof. split; vm_compute; reflexivity. Qed.

(** C4: no BusyError: the second call passes its first part without
    throwing and leaves a second placeholder in the session. *)
Lemma second_send_not_rejected :
  streaming_count in_flight 0 = 1
  ∧ thrown_by
      (sendMessage_start uuid clock "second question" general in_flight)
    = None
  ∧ streaming_count overlapped 0 = 2.
Proof. split_and!; vm_compute; reflexivity. Qed.


(** * More scenarios *)

Lemma createNewSession_makes_current_witness :
  ∃ s w' m,
    createNewSession uuid clock None research greeted = (Ok "4-uuid", w')
    ∧ currentSessionId w' = Some "4-uuid"
    ∧ snapshot w' s =
        Some (Snapshot.Build "4-uuid" "New Chat" [m]
                (clock (clock_count greeted))
                (clock (S (clock_count greeted))) research)
    ∧ ChatMessage.role m = system.
Proof.
  destruct (createNewSession_makes_current uuid clock None research greeted)
    as (s & w' & m & H1 & H2 & _ & H3 & H4 & _).
  - apply wf_check_sound. vm_compute. reflexivity.
  - exists s, w', m. split_and!; [exact H1|exact H2|exact H3|exact H4].
Defined.

Lemma switchToSession_selects_witness :
  currentSessionId two_sessions = Some "2-uuid"
  ∧ ∃ w',
      switchToSession uuid "0-uuid" two_sessions = (Ok tt, w')
      ∧ currentSessionId w' = Some "0-uuid"
      ∧ globalState w' = globalState two_sessions
      ∧ restart clock w' = restart clock two_sessions.
Proof.
  split; [vm_compute; reflexivity|].
  destruct (switchToSession_selects uuid clock "0-uuid" two_sessions 0)
    as (c & w' & H1 & H2 & _ & _ & H3 & _ & _ & _ & H4).
  - apply wf_check_sound. vm_compute. reflexivity.
  - discriminate.
  - vm_compute. reflexivity.
  - exists w'. split_and!; [exact H1|exact H2|exact H3|exact H4].
Defined.


Lemma sendMessage_notifications_witness :
  ∃ s r w',
    sendMessage uuid clock hello "Say hello" general fresh = (r, w')
    ∧ current_session w' = Some s
    ∧ fired w' =
        fired fresh
        ++ replicate
             ((if truthy (currentSessionId fresh) then 2 else 3)
              + length (filter (λ c, delta_text c ≠ EmptyString)
                          (stream_chunks
                             (hello (api_messages uuid clock "Say hello"
                                       general fresh)))))
             (Some s).
Proof.
  apply (sendMessage_notifications uuid clock hello "Say hello" general fresh).
  apply wf_check_sound. vm_compute. reflexivity.
Defined.

Lemma sendMessage_creates_session_witness :
  ∃ s p w' o sys usr answer,
    sendMessage uuid clock hello "Say hello" general fresh = (Ok p, w')
    ∧ currentSessionId w' = Some (uuid (uuid_count fresh))
    ∧ objs w' !! s = Some o
    ∧ ChatSession.title o = "Say hello"
    ∧ messages_in w' s = [sys; usr; answer]
    ∧ ChatMessage.content answer = "Hello world".
Proof.
  destruct (sendMessage_creates_session uuid clock hello "Say hello" general
              hello_chunks fresh)
    as (s & p & w' & o & sys & usr & answer & H1 & H2 & _ & H3 & _ & H4 & _
        & H5 & _ & _ & _ & _ & _ & H6 & _).
  - apply wf_check_sound. vm_compute. reflexivity.
  - vm_compute. reflexivity.
  - vm_compute. reflexivity.
  - exists s, p, w', o, sys, usr, answer.
    split_and!; [exact H1|exact H2|exact H3|exact H4|exact H5|exact H6].
Defined.

Lemma sendMessage_failure_not_saved_witness :
  ∃ w',
    sendMessage uuid clock failing "explain this" explain greeted
      = (Throw server_error, w')
    ∧ globalState w' = globalState (ensured uuid clock explain greeted).
Proof.
  destruct (sendMessage_failure_not_saved uuid clock failing "explain this"
              explain [text "Par" None] server_error greeted)
    as (w' & H1 & H2 & _).
  - apply wf_check_sound. vm_compute. reflexivity.
  - vm_compute. reflexivity.
  - exists w'. split; [exact H1|exact H2].
Defined.

Lemma completed_exchange_survives_restart_witness :
  ∃ p w',
    sendMessage uuid clock hello "Say hello" general fresh = (Ok p, w')
    ∧ store (restart clock w') = map_store reloaded (store w').
Proof.
  destruct (completed_exchange_survives_restart uuid clock hello "Say hello"
              general hello_chunks fresh)
    as (p & w' & H1 & _ & H2).
  - apply wf_check_sound. vm_compute. reflexivity.
  - vm_compute. constructor.
  - intros n. discriminate.
  - vm_compute. reflexivity.
  - exists p, w'. split; [exact H1|exact H2].
Defined.

Lemma deleted_session_stays_deleted_witness :
  ∃ w',
    deleteSession "2-uuid" two_sessions = (Ok tt, w')
    ∧ (sessions w').*1 =
        filter (λ k', k' ≠ "2-uuid") (sessions two_sessions).*1
    ∧ ("2-uuid" ∉ (sessions (restart clock w')).*1).
Proof.
  destruct (deleted_session_stays_deleted clock "2-uuid" two_sessions)
    as (w' & H1 & H2 & _ & H3).
  - apply wf_check_sound. vm_compute. reflexivity.
  - apply (bool_decide_unpack _). vm_compute. exact I.
  - vm_compute. eauto.
  - exists w'. split_and!; [exact H1|exact H2|exact H3].
Defined.

Lemma streamChatCompletion_chunking_witness :
  PerplexityClient.streamChatCompletion Cases.defaults Cases.parse
    (λ _, Streaming (decoded Cases.utf8 Cases.whole)) [] no_options
  = PerplexityClient.streamChatCompletion Cases.defaults Cases.parse
      (λ _, Streaming (decoded Cases.utf8 Cases.pieces)) [] no_options.
Proof.
  apply (streamChatCompletion_chunking Cases.defaults Cases.parse
           Cases.utf8 Cases.whole Cases.pieces [] no_options).
  - vm_compute. reflexivity.
  - vm_compute. reflexivity.
  - vm_compute. reflexivity.
  - vm_compute. reflexivity.
Defined.

(** A chunk that ends inside a character: the same bytes give another
    text, and another event. *)
Example parted_character_changes_event :
  raw_bytes Cases.parted = raw_bytes Cases.accented
  ∧ splits_at_characters Cases.utf8 Cases.accented
  ∧ ¬ splits_at_characters Cases.utf8 Cases.parted
  ∧ delta_text <$>
      stream_chunks
        (PerplexityClient.streamChatCompletion Cases.defaults Cases.parse
           (λ _, Streaming (decoded Cases.utf8 Cases.accented)) []
           no_options)
    = [String "c" (String "a" (String "f" (String (ascii_of_nat 233)
         EmptyString)))]
  ∧ delta_text <$>
      stream_chunks
        (PerplexityClient.streamChatCompletion Cases.defaults Cases.parse
           (λ _, Streaming (decoded Cases.utf8 Cases.parted)) []
           no_options)
    = ["caf??"].
Proof.
  split_and!; try (vm_compute; reflexivity).
  vm_compute. discriminate.
Qed.

Lemma unterminated_line_is_dropped_witness :
  PerplexityClient.streamChatCompletion Cases.defaults Cases.parse
    (λ _, Streaming Cases.unterminated) [] no_options
  = PerplexityClient.streamChatCompletion Cases.defaults Cases.parse
      (λ _, Streaming Cases.terminated) [] no_options.
Proof.
  apply (unterminated_line_is_dropped Cases.defaults Cases.parse
           Cases.terminated Cases.unterminated "data: lo" [] no_options).
  - vm_compute. reflexivity.
  - vm_compute. reflexivity.
  - vm_compute. reflexivity.
Defined.

Lemma transport_failure_reaches_chat_witness :
  ∃ s w' m,
    sendMessage uuid clock
      (λ api,
         PerplexityClient.streamChatCompletion Cases.defaults Cases.parse
           Cases.refusing api no_options)
      "Say hello" general greeted
    = (Throw (PerplexityClient.handleApiError Cases.unauthorized), w')
    ∧ last (messages_in w' s) = Some m
    ∧ ChatMessage.content m =
        "Error: Invalid API key. Please check your Perplexity API key in settings.".
Proof.
  destruct (transport_failure_reaches_chat uuid clock Cases.defaults
              Cases.parse Cases.refusing "Say hello" general greeted
              (PerplexityClient.handleApiError Cases.unauthorized))
    as (s & w' & m & e & t & H1 & _ & H2 & _ & H3 & _ & H4 & _).
  - apply wf_check_sound. vm_compute. reflexivity.
  - vm_compute. reflexivity.
  - exists s, w', m. split_and!; [exact H1|exact H3|].
    rewrite H4. injection H2 as <-. reflexivity.
Defined.

Lemma unknown_session_requests_witness :
  ChatProvider.handleWebviewMessage uuid clock Cases.iso Cases.defaults hello
    (Cases.ask "switchSession" None (Some "no-such-session"))
    Cases.panel greeted
  = ({| ChatProvider.webview := true;
        ChatProvider.posted :=
          [ChatProvider.error "Session not found: no-such-session"] |},
     greeted).
Proof.
  apply (unknown_session_requests uuid clock Cases.iso Cases.defaults hello
           "no-such-session" None None Cases.panel greeted).
  - discriminate.
  - vm_compute. reflexivity.
Defined.

Lemma empty_requests_are_ignored_witness :
  ChatProvider.handleWebviewMessage uuid clock Cases.iso Cases.defaults hello
    (Cases.ask "sendMessage" (Some EmptyString) None) Cases.panel greeted
  = (Cases.panel, greeted).
Proof.
  apply (empty_requests_are_ignored uuid clock Cases.iso Cases.defaults hello
           (Cases.ask "sendMessage" (Some EmptyString) None) Cases.panel
           greeted).
  left. split; reflexivity.
Defined.

Lemma failed_send_is_reported_witness :
  ∃ s w' m,
    ChatProvider.handleWebviewMessage uuid clock Cases.iso Cases.defaults
      failing
      {| ChatProvider.type := "sendMessage";
         ChatProvider.content := Some "explain this";
         ChatProvider.mode := Some explain;
         ChatProvider.sessionId := None |}
      Cases.panel greeted
    = ({| ChatProvider.webview := true;
          ChatProvider.posted :=
            [ChatProvider.error
               "Perplexity server error. Please try again later."] |}, w')
    ∧ current_session w' = Some s
    ∧ last (messages_in w' s) = Some m
    ∧ ChatMessage.content m =
        "Error: Perplexity server error. Please try again later.".
Proof.
  destruct (failed_send_is_reported uuid clock Cases.iso Cases.defaults
              failing "explain this" explain None [text "Par" None]
              server_error Cases.panel greeted)
    as (s & w' & m & H1 & H2 & H3 & H4).
  - apply wf_check_sound. vm_compute. reflexivity.
  - discriminate.
  - vm_compute. reflexivity.
  - exists s, w', m. split_and!; [exact H1|exact H2|exact H3|exact H4].
Defined.

Lemma delete_request_posts_list_witness :
  ∃ w' l,
    ChatProvider.handleWebviewMessage uuid clock Cases.iso Cases.defaults
      hello (Cases.ask "deleteSession" None (Some "2-uuid")) Cases.panel
      two_sessions
    = ({| ChatProvider.webview := true;
          ChatProvider.posted := [ChatProvider.sessionsUpdate l] |}, w')
    ∧ ("2-uuid" ∉ ChatProvider.ss_id <$> l).
Proof.
  destruct (delete_request_posts_list uuid clock Cases.iso Cases.defaults
              hello "2-uuid" None None Cases.panel two_sessions)
    as (w' & l & H1 & _ & _ & _ & H2).
  - apply wf_check_sound. vm_compute. reflexivity.
  - discriminate.
  - vm_compute. eauto.
  - exists w', l. split; [exact H1|exact H2].
Defined.

Lemma webview_sessions_unique_witness :
  NoDup (ChatProvider.ss_id <$>
           Webview.sessions
             (Webview.after
                [Webview.sessionUpdate (Some (Cases.shown "a" "Renamed"));
                 Webview.sessionUpdate (Some (Cases.shown "c" "Third"))]
                Cases.showing)).
Proof.
  apply (webview_sessions_unique
           [Webview.sessionUpdate (Some (Cases.shown "a" "Renamed"));
            Webview.sessionUpdate (Some (Cases.shown "c" "Third"))]
           Cases.showing).
  - apply (bool_decide_unpack _). vm_compute. exact I.
  - repeat constructor; discriminate.
Defined.

Lemma webview_keeps_current_session_witness :
  Webview.currentSession
    (Webview.after
       [Webview.receive (ChatProvider.sessionUpdate None);
        Webview.receive (ChatProvider.sessionsUpdate [])] Cases.showing)
  = Some (Cases.shown "b" "Second").
Proof.
  apply (webview_keeps_current_session
           [Webview.receive (ChatProvider.sessionUpdate None);
            Webview.receive (ChatProvider.sessionsUpdate [])]
           Cases.showing []).
  repeat constructor; discriminate.
Defined.

Lemma sendMessage_leaves_other_sessions_witness :
  ∃ s r w',
    sendMessage uuid clock hello "Say hello" general two_sessions = (r, w')
    ∧ current_session two_sessions = Some s
    ∧ sessions w' = sessions two_sessions
    ∧ currentSessionId w' = currentSessionId two_sessions.
Proof.
  destruct (sendMessage_leaves_other_sessions uuid clock hello "Say hello"
              general two_sessions)
    as (s & r & w' & H1 & H2 & H3 & H4 & _).
  - apply wf_check_sound. vm_compute. reflexivity.
  - vm_compute. reflexivity.
  - exists s, r, w'. split_and!; [exact H1|exact H2|exact H3|exact H4].
Defined.

Lemma code_command_title_witness :
  ∃ content,
    Extension.run uuid clock hello Extension.explainCode
      (Some Cases.editor) fresh
    = (Extension.Asked
         (sendMessage uuid clock hello content explain fresh).1,
       (sendMessage uuid clock hello content explain fresh).2)
    ∧ generateSessionTitle content
      = "Explain this typescript code: ```typescript...".
Proof.
  destruct (code_command_title uuid clock hello Extension.explainCode
              Cases.editor fresh) as (content & H1 & H2).
  - split; [discriminate|]. intros c Hc. cbn in Hc.
    repeat destruct Hc as [<-|Hc]; try reflexivity. destruct Hc.
  - discriminate.
  - exists content. split; [exact H1|exact H2].
Defined.

Lemma initialize_shows_store_witness :
  ∃ p' w' current l view,
    ChatProvider.handleWebviewMessage uuid clock Cases.iso Cases.defaults
      hello
      {| ChatProvider.type := "initialize";
         ChatProvider.content := None;
         ChatProvider.mode := None;
         ChatProvider.sessionId := None |} Cases.panel two_sessions
    = (p', w')
    ∧ store w' = store two_sessions
    ∧ ChatProvider.posted p'
      = ChatProvider.posted Cases.panel
        ++ [ChatProvider.sessionUpdate current;
            ChatProvider.sessionsUpdate l;
            ChatProvider.configUpdate view]
    ∧ ChatProvider.ss_id <$> l ≡ₚ (sessions two_sessions).*1.
Proof.
  destruct (initialize_shows_store uuid clock Cases.iso Cases.defaults hello
              None None None Cases.panel two_sessions
              {| Webview.sessions := []; Webview.currentSession := None;
                 Webview.theme := Theme.light |})
    as (p' & w' & current & l & view & H1 & _ & _ & H2 & H3 & _ & _ & H4 & _).
  - apply wf_check_sound. vm_compute. reflexivity.
  - reflexivity.
  - exists p', w', current, l, view.
    split_and!; [exact H1|exact H2|exact H3|exact H4].
Defined.
